(** * Verification of the CLVP / Llava / Musicgen-Melody model-definition code

    A shallow embedding of the parts of

      - [mindnlp/transformers/models/clvp/modeling_clvp.py]
      - [mindnlp/transformers/models/llava/configuration_llava.py]
      - [mindnlp/transformers/models/musicgen_melody/feature_extraction_musicgen_melody.py]

    that the properties below talk about.  Python exceptions are values of
    type [exn], fallible code lives in the [result] monad, tensors are a
    shape together with row-major data, and the objects of the program
    (modules, configurations) are records whose sub-layers are fields. *)

From Stdlib Require Import QArith Qabs.
From stdpp Require Import functions base numbers list strings gmap pretty.

Close Scope Q_scope.

Open Scope string_scope.
Open Scope list_scope.
Open Scope Z_scope.

(** ** Python runtime: exceptions, results, values *)

Module Py.

Inductive exn : Type :=
| ValueError (msg : string)
| IndexError (msg : string)
| KeyError (msg : string)
| TypeError (msg : string)
| AttributeError (msg : string)
| RuntimeError (msg : string)
| ZeroDivisionError (msg : string).

Inductive result (A : Type) : Type :=
| Ok (a : A)
| Raise (e : exn).

Arguments Ok {A} a.
Arguments Raise {A} e.

#[export] Instance result_ret : MRet result := fun A a => Ok a.

#[export] Instance result_bind : MBind result := fun A B f m =>
  match m with
  | Ok a => f a
  | Raise e => Raise e
  end.

#[export] Instance result_fmap : FMap result := fun A B f m =>
  match m with
  | Ok a => Ok (f a)
  | Raise e => Raise e
  end.

Definition is_ok {A} (r : result A) : bool :=
  match r with Ok _ => true | Raise _ => false end.

Definition is_ValueError {A} (r : result A) : bool :=
  match r with Raise (ValueError _) => true | _ => false end.

(** [mapM f l]: run [f] on every element, left to right, stop at the first
    exception. *)
Fixpoint mapM {A B} (f : A → result B) (l : list A) : result (list B) :=
  match l with
  | [] => Ok []
  | x :: l' => y ← f x; ys ← mapM f l'; Ok (y :: ys)
  end.

(** The Python values that are passed around as hyper-parameters. *)
Inductive pyobj : Type :=
| PyNone
| PyBool (b : bool)
| PyInt (z : Z)
| PyStr (s : string).

#[export] Instance pyobj_eq_dec : EqDecision pyobj.
Proof. solve_decision. Defined.

(** [str(x)], as used by f-strings. *)
Definition py_str (x : pyobj) : string :=
  match x with
  | PyNone => "None"
  | PyBool true => "True"
  | PyBool false => "False"
  | PyInt z => pretty z
  | PyStr s => s
  end.

(** [str(t)] for a tuple of ints: [()], [(3,)], [(2, 1, 3, 3)]. *)
Fixpoint join_comma (l : list string) : string :=
  match l with
  | [] => ""
  | [x] => x
  | x :: l' => x +:+ ", " +:+ join_comma l'
  end.

Definition str_tuple (t : list Z) : string :=
  match t with
  | [x] => "(" +:+ pretty x +:+ ",)"
  | _ => "(" +:+ join_comma (pretty <$> t) +:+ ")"
  end.

(** Tuple unpacking [a, b = t]. *)
Definition unpack2 {A} (t : list A) : result (A * A) :=
  match t with
  | [a; b] => Ok (a, b)
  | _ :: _ :: _ :: _ => Raise (ValueError "too many values to unpack (expected 2)")
  | _ => Raise (ValueError ("not enough values to unpack (expected 2, got "
                              +:+ pretty (length t) +:+ ")"))
  end.

Definition unpack3 {A} (t : list A) : result (A * A * A) :=
  match t with
  | [a; b; c] => Ok (a, b, c)
  | _ :: _ :: _ :: _ :: _ => Raise (ValueError "too many values to unpack (expected 3)")
  | _ => Raise (ValueError ("not enough values to unpack (expected 3, got "
                              +:+ pretty (length t) +:+ ")"))
  end.

(** [t[-1]] and [t[:-1]] on a tuple. *)
Definition tuple_last {A} (t : list A) : result A :=
  match last t with
  | Some a => Ok a
  | None => Raise (IndexError "tuple index out of range")
  end.

Definition tuple_init {A} (t : list A) : list A := take (length t - 1)%nat t.

End Py.

Import Py.

(** ** The tensor runtime

    Modelled from the spec: the tensor runtime that the model code calls
    ([mindspore], [mindnlp.core.ops], [mindnlp.core.nn.functional]) is not
    among the source files.  It is the collaborator that the specification
    describes as a tensor runtime providing linear algebra and
    normalization primitives, which enforces tensor-shape compatibility.

    A tensor is its shape and its elements in row-major order.  Only the
    operators that the model code calls are given, each with the behaviour
    of the call it stands for and with the failure reported for ill-shaped
    arguments.  Elements are drawn from a type with the scalar kernels of
    the runtime ([Scalar]); nothing is assumed about rounding. *)

Module Ops.

(** Modelled from the spec: the scalar kernels of the runtime (constants,
    arithmetic, elementary functions, comparison, conversion of Python
    numbers). *)
Class Scalar (A : Type) : Type := {
  s0 : A;
  s1 : A;
  sadd : A → A → A;
  smul : A → A → A;
  sdiv : A → A → A;
  sneg : A → A;
  sabs : A → A;
  sexp : A → A;
  slog : A → A;
  scos : A → A;
  ssin : A → A;
  sgtb : A → A → bool;
  seqb : A → A → bool;
  of_Z : Z → A;
  of_Q : Q → A
}.

(** Modelled from the spec: [mindspore.Tensor], as [shape] and row-major
    [data]. *)
Record Tensor (A : Type) : Type := mkTensor { shape : list nat; data : list A }.

Arguments mkTensor {A} shape data.
Arguments shape {A} t.
Arguments data {A} t.

(** The number of elements of a shape. *)
Definition numel (s : list nat) : nat := foldr Nat.mul 1%nat s.

(** Well-formed: as many elements as the shape says. *)
Definition wf {A} (t : Tensor A) : Prop := length (data t) = numel (shape t).

(** [chunks n k l]: the first [k] consecutive blocks of [n] elements. *)
Fixpoint chunks {A} (n k : nat) (l : list A) : list (list A) :=
  match k with
  | O => []
  | S k' => take n l :: chunks n k' (drop n l)
  end.

(** Python index into a dimension of size [n]: negative indices count from
    the end. *)
Definition norm_index (n : nat) (i : Z) : option nat :=
  if decide (0 ≤ i < Z.of_nat n) then Some (Z.to_nat i)
  else if decide (- Z.of_nat n ≤ i < 0) then Some (Z.to_nat (i + Z.of_nat n))
  else None.

(** [len(t.shape)] *)
Definition ndim {A} (t : Tensor A) : nat := length (shape t).

(** [t.shape[i]] *)
Definition size {A} (t : Tensor A) (i : Z) : result nat :=
  match norm_index (ndim t) i with
  | Some k =>
      match shape t !! k with
      | Some n => Ok n
      | None => Raise (IndexError "tuple index out of range")
      end
  | None => Raise (IndexError "tuple index out of range")
  end.

(** An elementwise operator. *)
Definition tmap {A B} (f : A → B) (t : Tensor A) : Tensor B :=
  mkTensor (shape t) (f <$> data t).

(** Modelled from the spec: [ops.arange(n)]. *)
Definition arange (n : nat) : Tensor Z :=
  mkTensor [n] (Z.of_nat <$> seq 0 n).

(** Modelled from the spec: [t.unsqueeze(dim)]. *)
Definition unsqueeze {A} (dim : Z) (t : Tensor A) : result (Tensor A) :=
  match norm_index (S (ndim t)) dim with
  | Some k => Ok (mkTensor (take k (shape t) ++ 1%nat :: drop k (shape t)) (data t))
  | None => Raise (IndexError "Dimension out of range")
  end.

(** Modelled from the spec: [t.squeeze(dim)], which drops the dimension
    when its size is one and leaves
    the tensor as it is otherwise. *)
Definition squeeze {A} (dim : Z) (t : Tensor A) : result (Tensor A) :=
  match norm_index (ndim t) dim with
  | Some k =>
      if decide (shape t !! k = Some 1%nat)
      then Ok (mkTensor (take k (shape t) ++ drop (S k) (shape t)) (data t))
      else Ok t
  | None => Raise (IndexError "Dimension out of range")
  end.

(** Rows along the last dimension. *)
Definition last_dim (s : list nat) : nat := default 1%nat (last s).

Definition lead_dims (s : list nat) : list nat := take (length s - 1)%nat s.

Definition rows {A} (t : Tensor A) : list (list A) :=
  chunks (last_dim (shape t)) (numel (lead_dims (shape t))) (data t).

(** Apply [f] to every row; [d'] is the new size of the last dimension. *)
Definition map_rows {A B} (d' : nat) (f : list A → list B) (t : Tensor A) : Tensor B :=
  mkTensor (lead_dims (shape t) ++ [d']) (concat (f <$> rows t)).

(** Modelled from the spec: the slices [t[..., :r]] and [t[..., r:]]. *)
Definition slice_last_to {A} (r : nat) (t : Tensor A) : result (Tensor A) :=
  match shape t with
  | [] => Raise (IndexError "too many indices for tensor of dimension 0")
  | _ => Ok (map_rows (Nat.min r (last_dim (shape t))) (take r) t)
  end.

Definition slice_last_from {A} (r : nat) (t : Tensor A) : result (Tensor A) :=
  match shape t with
  | [] => Raise (IndexError "too many indices for tensor of dimension 0")
  | _ => Ok (map_rows (last_dim (shape t) - r)%nat (drop r) t)
  end.

(** Modelled from the spec: [ops.cat((a, b), dim)]. *)
Definition cat {A} (dim : Z) (a b : Tensor A) : result (Tensor A) :=
  match norm_index (ndim a) dim with
  | None => Raise (IndexError "Dimension out of range")
  | Some k =>
      match shape a !! k, shape b !! k with
      | Some na, Some nb =>
          if decide (take k (shape a) = take k (shape b)
                     ∧ drop (S k) (shape a) = drop (S k) (shape b))
          then
            let outer := numel (take k (shape a)) in
            let inner := numel (drop (S k) (shape a)) in
            Ok (mkTensor (take k (shape a) ++ (na + nb)%nat :: drop (S k) (shape a))
                  (concat (zip_with app (chunks (na * inner) outer (data a))
                                        (chunks (nb * inner) outer (data b)))))
          else Raise (RuntimeError "Sizes of tensors must match except in the concatenation dimension")
      | _, _ => Raise (RuntimeError "Tensors must have same number of dimensions")
      end
  end.

(** Modelled from the spec: broadcasting of shapes, aligned at the last
    dimension. *)
Fixpoint broadcast_rev (a b : list nat) : result (list nat) :=
  match a, b with
  | [], _ => Ok b
  | _, [] => Ok a
  | x :: a', y :: b' =>
      r ← broadcast_rev a' b';
      if decide (x = y) then Ok (x :: r)
      else if decide (x = 1%nat) then Ok (y :: r)
      else if decide (y = 1%nat) then Ok (x :: r)
      else Raise (RuntimeError "The size of the tensors must match at every non-singleton dimension")
  end.

Definition broadcast_shapes (a b : list nat) : result (list nat) :=
  reverse <$> broadcast_rev (reverse a) (reverse b).

Definition pad_shape (r : nat) (s : list nat) : list nat :=
  replicate (r - length s)%nat 1%nat ++ s.

(** The elements of a tensor of shape [src] repeated to shape [tgt]
    ([src] has the rank of [tgt] and is one wherever it differs). *)
Fixpoint expand {A} (src tgt : list nat) (l : list A) : list A :=
  match src, tgt with
  | s :: src', t :: tgt' =>
      let parts := expand src' tgt' <$> chunks (numel src') s l in
      if decide (s = t) then concat parts else concat (replicate t (concat parts))
  | _, _ => l
  end.

(** Modelled from the spec: an elementwise binary operator with
    broadcasting. *)
Definition binop {A B C} (f : A → B → C) (a : Tensor A) (b : Tensor B) : result (Tensor C) :=
  s ← broadcast_shapes (shape a) (shape b);
  Ok (mkTensor s
        (zip_with f (expand (pad_shape (length s) (shape a)) s (data a))
                    (expand (pad_shape (length s) (shape b)) s (data b)))).

(** Modelled from the spec: [t[idx]] for an integer tensor [idx], which
    gathers along the first
    dimension. *)
Definition getitem {A} (t : Tensor A) (idx : Tensor Z) : result (Tensor A) :=
  match shape t with
  | [] => Raise (IndexError "too many indices for tensor of dimension 0")
  | n :: rest =>
      picked ← mapM (λ i,
                 match norm_index n i with
                 | Some k => Ok (take (numel rest) (drop (k * numel rest) (data t)))
                 | None => Raise (IndexError "index out of range")
                 end) (data idx);
      Ok (mkTensor (shape idx ++ rest) (concat picked))
  end.

(** Multi-index of a row-major offset, and back. *)
Fixpoint unravel (s : list nat) (k : nat) : list nat :=
  match s with
  | [] => []
  | _ :: s' => (k / numel s')%nat :: unravel s' (k mod numel s')%nat
  end.

Fixpoint ravel (s idx : list nat) : nat :=
  match s, idx with
  | _ :: s', i :: idx' => (i * numel s' + ravel s' idx')%nat
  | _, _ => O
  end.

Definition swap_list {X} (i j : nat) (l : list X) : list X :=
  match l !! i, l !! j with
  | Some a, Some b => <[i := b]> (<[j := a]> l)
  | _, _ => l
  end.

(** Modelled from the spec: [t.swapaxes(i, j)]. *)
Definition swapaxes {A} (i j : Z) (t : Tensor A) : result (Tensor A) :=
  match norm_index (ndim t) i, norm_index (ndim t) j with
  | Some i', Some j' =>
      let s' := swap_list i' j' (shape t) in
      Ok (mkTensor s'
            match data t with
            | [] => []
            | d0 :: _ =>
                (λ k, nth (ravel (shape t) (swap_list i' j' (unravel s' k))) (data t) d0)
                  <$> seq 0 (numel s')
            end)
  | _, _ => Raise (IndexError "Dimension out of range")
  end.

(** Modelled from the spec: [t.view(sizes)] and [t.reshape(sizes)], with
    at most one [-1]. *)
Definition view {A} (sizes : list Z) (t : Tensor A) : result (Tensor A) :=
  let n := Z.of_nat (numel (shape t)) in
  let known := foldr Z.mul 1 (filter (λ z, z ≠ -1) sizes) in
  if decide (Exists (λ z, z < -1) sizes) then Raise (RuntimeError "invalid shape dimension")
  else
    match length (filter (λ z, z = -1) sizes) with
    | O => if decide (known = n) then Ok (mkTensor (Z.to_nat <$> sizes) (data t))
           else Raise (RuntimeError "shape is invalid for input size")
    | S O =>
        if decide (known ≠ 0 ∧ n mod known = 0)
        then Ok (mkTensor ((λ z, if decide (z = -1) then Z.to_nat (n / known) else Z.to_nat z) <$> sizes)
                   (data t))
        else Raise (RuntimeError "shape is invalid for input size")
    | _ => Raise (RuntimeError "only one dimension can be inferred")
    end.

(** Modelled from the spec: [ops.ones(shape, dtype=int64)]. *)
Definition ones (s : list nat) : Tensor Z := mkTensor s (replicate (numel s) 1).

(** Modelled from the spec: [t.cumsum(-1)] on an integer tensor, the
    running sums along the last dimension. *)
Fixpoint running_sums (acc : Z) (l : list Z) : list Z :=
  match l with
  | [] => []
  | x :: l' => (acc + x) :: running_sums (acc + x) l'
  end.

Definition cumsum_last (t : Tensor Z) : Tensor Z :=
  match shape t with
  | [] => t
  | _ => map_rows (last_dim (shape t)) (running_sums 0) t
  end.

(** Modelled from the spec: [t - c] for an integer tensor and a Python
    integer. *)
Definition sub_int (c : Z) (t : Tensor Z) : Tensor Z := tmap (λ x, x - c) t.

(** Modelled from the spec: [t.tile((k, 1, 1))], which repeats the tensor
    [k] times along the third dimension from the end; a tensor of lower
    rank is first given leading dimensions of size one. *)
Definition tile_third_last {A} (k : nat) (t : Tensor A) : Tensor A :=
  let r := length (shape t) in
  let outer := take (r - 3)%nat (shape t) in
  let inner := pad_shape 3 (drop (r - 3)%nat (shape t)) in
  mkTensor (outer ++ match inner with
                     | d :: rest => (k * d)%nat :: rest
                     | [] => []
                     end)
    (concat ((λ block, concat (replicate k block))
               <$> chunks (numel inner) (numel outer) (data t))).

(** Modelled from the spec: [t.chunk(2, axis=-1)] unpacked into two
    names: two pieces of the last dimension, the first one of half its
    size rounded up; a last dimension of size one gives a single piece,
    which cannot be unpacked. *)
Definition chunk2_last {A} (t : Tensor A) : result (Tensor A * Tensor A) :=
  match shape t with
  | [] => Raise (IndexError "Dimension out of range")
  | _ =>
      let d := last_dim (shape t) in
      let c := ((d + 1) / 2)%nat in
      if decide (d = 1%nat)
      then Raise (ValueError "not enough values to unpack (expected 2, got 1)")
      else Ok (map_rows c (take c) t, map_rows (d - c)%nat (drop c) t)
  end.

(** Modelled from the spec: [t.argmax()] on a row of integers, the first
    position of a greatest entry. *)
Fixpoint int_argmax_from (best_i : nat) (best : Z) (i : nat) (l : list Z) : nat :=
  match l with
  | [] => best_i
  | x :: l' =>
      if decide (best < x) then int_argmax_from i x (S i) l'
      else int_argmax_from best_i best (S i) l'
  end.

Definition int_argmax (l : list Z) : nat :=
  match l with
  | [] => O
  | x :: l' => int_argmax_from 0 x 1 l'
  end.

(** Modelled from the spec: the slice [t[:, a:]] of the second dimension.
    A negative start counts from the end; the start is clipped to the
    dimension. *)
Definition clip_start (n : nat) (a : Z) : nat :=
  if decide (a < 0) then Z.to_nat (Z.max 0 (Z.of_nat n + a)) else Nat.min n (Z.to_nat a).

Definition slice_dim1_from {A} (a : Z) (t : Tensor A) : result (Tensor A) :=
  match shape t with
  | d0 :: d1 :: rest =>
      let start := clip_start d1 a in
      let inner := numel rest in
      Ok (mkTensor (d0 :: (d1 - start)%nat :: rest)
            (concat (drop (start * inner) <$> chunks (d1 * inner) d0 (data t))))
  | _ => Raise (IndexError "too many indices for tensor")
  end.

(** Modelled from the spec: [t[:, i]], the entries at index [i] of the
    second dimension. *)
Definition select_dim1 {A} (i : Z) (t : Tensor A) : result (Tensor A) :=
  match shape t with
  | d0 :: d1 :: rest =>
      match norm_index d1 i with
      | Some k =>
          let inner := numel rest in
          Ok (mkTensor (d0 :: rest)
                (concat ((λ block, take inner (drop (k * inner) block))
                           <$> chunks (d1 * inner) d0 (data t))))
      | None => Raise (IndexError "index out of range")
      end
  | _ => Raise (IndexError "too many indices for tensor")
  end.

Section Kernels.
Context {A : Type} `{Scalar A}.

(** Modelled from the spec: [a + b], [a * b], [-a], [t.cos()] and
    [t.sin()]. *)
Definition add (a b : Tensor A) : result (Tensor A) := binop sadd a b.
Definition mul (a b : Tensor A) : result (Tensor A) := binop smul a b.
Definition neg (a : Tensor A) : Tensor A := tmap sneg a.
Definition cos (a : Tensor A) : Tensor A := tmap scos a.
Definition sin (a : Tensor A) : Tensor A := tmap ssin a.

(** Modelled from the spec: [t * c] and [t / c] for a Python number [c]. *)
Definition mul_scalar (c : A) (a : Tensor A) : Tensor A := tmap (λ x, smul x c) a.
Definition div_scalar (c : A) (a : Tensor A) : Tensor A := tmap (λ x, sdiv x c) a.

(** Modelled from the spec: [t.type_as(x)] for an integer tensor [t] and a
    float tensor [x]. *)
Definition to_float (t : Tensor Z) : Tensor A := tmap of_Z t.

(** The greater of two scalars, and the sum of a row. *)
Definition smax (a b : A) : A := if sgtb a b then a else b.

Definition sum_list (l : list A) : A := foldr sadd s0 l.

(** Product of an [n x m] matrix with an [m x p] matrix, both as lists of
    rows. *)
Definition mat_mul (p : nat) (ra rb : list (list A)) : list (list A) :=
  (λ row, foldr (zip_with sadd) (replicate p s0)
            (zip_with (λ a r, smul a <$> r) row rb)) <$> ra.

(** Modelled from the spec: [ops.matmul(a, b)] for operands of rank two or
    more (the model code
    has no other), batch dimensions broadcast. *)
Definition matmul (a b : Tensor A) : result (Tensor A) :=
  match reverse (shape a), reverse (shape b) with
  | m :: n :: ba, p :: m' :: bb =>
      if decide (m = m') then
        bs ← reverse <$> broadcast_rev ba bb;
        let r := (length bs + 2)%nat in
        let da := expand (pad_shape r (shape a)) (bs ++ [n; m]) (data a) in
        let db := expand (pad_shape r (shape b)) (bs ++ [m; p]) (data b) in
        Ok (mkTensor (bs ++ [n; p])
              (concat (zip_with (λ x y, concat (mat_mul p (chunks m n x) (chunks p m y)))
                         (chunks (n * m) (numel bs) da)
                         (chunks (m * p) (numel bs) db))))
      else Raise (RuntimeError "mat1 and mat2 shapes cannot be multiplied")
  | _, _ => Raise (RuntimeError "matmul: operands need at least two dimensions")
  end.

(** Modelled from the spec: [ops.einsum("cf, ...ft->...ct", w, x)]. *)
Definition einsum_cf_ft (w x : Tensor A) : result (Tensor A) :=
  match shape w with
  | [_; _] =>
      if decide (2 ≤ ndim x)%nat then matmul w x
      else Raise (ValueError "einsum: operand has fewer dimensions than subscripts")
  | _ => Raise (ValueError "einsum: operand does not match the number of subscripts")
  end.

(** Modelled from the spec: [ops.einsum("i,j->ij", a, b)]. *)
Definition einsum_outer (a b : Tensor A) : result (Tensor A) :=
  match shape a, shape b with
  | [n], [m] =>
      Ok (mkTensor [n; m] (concat ((λ x, (λ y, smul x y) <$> take m (data b)) <$> take n (data a))))
  | _, _ => Raise (ValueError "einsum: operand does not match the number of subscripts")
  end.

(** Modelled from the spec: [t.t()]. *)
Definition t_ (a : Tensor A) : result (Tensor A) :=
  match shape a with
  | [] | [_] => Ok a
  | [_; _] => swapaxes 0 1 a
  | _ => Raise (RuntimeError "t() expects a tensor with <= 2 dimensions")
  end.

(** Modelled from the spec: [F.softmax(t, dim=-1)]. *)
Definition softmax_row (r : list A) : list A :=
  let e := sexp <$> r in (λ x, sdiv x (sum_list e)) <$> e.

Definition softmax_last (t : Tensor A) : Tensor A :=
  mkTensor (shape t) (concat (softmax_row <$> rows t)).

(** Modelled from the spec: [F.dropout(t, p, training)] and [nn.Dropout].
    [rng] is the stream of keep decisions
    that the random generator of the runtime hands out, one per element;
    nothing is drawn outside training or when [p] is zero. *)
Definition dropout (p : A) (training : bool) (rng : nat → bool) (t : Tensor A) : Tensor A :=
  if negb training || seqb p s0 then t
  else mkTensor (shape t)
         (imap (λ i x, if rng i then sdiv x (sadd s1 (sneg p)) else s0) (data t)).

(** Modelled from the spec: [t.argmax(-1, keepdims=True)], the first
    position of a greatest
    element of every row. *)
Fixpoint argmax_from (best_i : nat) (best : A) (i : nat) (l : list A) : nat :=
  match l with
  | [] => best_i
  | x :: l' =>
      if sgtb x best then argmax_from i x (S i) l' else argmax_from best_i best (S i) l'
  end.

Definition argmax_row (l : list A) : nat :=
  match l with
  | [] => O
  | x :: l' => argmax_from 0 x 1 l'
  end.

Definition argmax_last_keepdims (t : Tensor A) : result (Tensor Z) :=
  match shape t with
  | [] => Ok (mkTensor [] [0])
  | _ =>
      if decide (last_dim (shape t) = O)
      then Raise (IndexError "argmax(): Expected reduction dim to have non-zero size")
      else Ok (map_rows 1 (λ r, [Z.of_nat (argmax_row r)]) t)
  end.

(** Modelled from the spec:
    [nn.functional.normalize(t, p=float("inf"), dim=-2, eps)]: every
    element divided by the greatest magnitude along the last but one
    dimension, that magnitude being at least [eps]. *)
Definition normalize_inf_mat (eps : A) (t_len : nat) (m : list (list A)) : list (list A) :=
  let denom := foldr (zip_with smax) (replicate t_len eps) ((λ r : list A, sabs <$> r) <$> m) in
  (λ r, zip_with sdiv r denom) <$> m.

Definition normalize_inf_dim2 (eps : A) (t : Tensor A) : result (Tensor A) :=
  match reverse (shape t) with
  | tl :: c :: b =>
      Ok (mkTensor (shape t)
            (concat ((λ m, concat (normalize_inf_mat eps tl (chunks tl c m)))
                       <$> chunks (c * tl) (numel b) (data t))))
  | _ => Raise (IndexError "Dimension out of range")
  end.

(** Modelled from the spec: [ops.pad(t, (l, r), "constant", v)], which
    pads the last dimension. *)
Definition pad_last (l r : nat) (v : A) (t : Tensor A) : result (Tensor A) :=
  match shape t with
  | [] => Raise (RuntimeError "Padding length should be less than or equal to two times the input dimension")
  | _ => Ok (map_rows (l + last_dim (shape t) + r)
               (λ row, replicate l v ++ row ++ replicate r v) t)
  end.

(** The row of [n] entries that is one at position [k] and zero
    elsewhere. *)
Definition one_hot (n k : nat) : list A := <[k := s1]> (replicate n s0).

(** Modelled from the spec: the assignment [t[:] = v]. *)
Definition fill (v : A) (t : Tensor A) : Tensor A := tmap (λ _, v) t.

(** Modelled from the spec: [ops.scatter(t, -1, idx, src)] for an index
    with the leading
    dimensions of [t] and a source of the shape of the index (the one use
    in the model code). *)
Definition scatter_row (inp : list A) (idx : list Z) (src : list A) : result (list A) :=
  foldl (λ acc p,
           r ← acc;
           if decide (0 ≤ p.1 < Z.of_nat (length r))
           then Ok (<[Z.to_nat p.1 := p.2]> r)
           else Raise (RuntimeError "index out of bounds"))
        (Ok inp) (zip idx src).

Definition scatter_last (t : Tensor A) (idx : Tensor Z) (src : Tensor A) : result (Tensor A) :=
  if decide (shape t ≠ [] ∧ lead_dims (shape idx) = lead_dims (shape t)
             ∧ ndim idx = ndim t ∧ shape src = shape idx)
  then
    rs ← mapM (λ p, scatter_row p.1.1 p.1.2 p.2) (zip (zip (rows t) (rows idx)) (rows src));
    Ok (mkTensor (shape t) (concat rs))
  else Raise (RuntimeError "scatter: index, source and input do not fit")
  .

(** Modelled from the spec: [nn.functional.cross_entropy(logits, target)]
    for a batch of rows of
    logits and one class index per row: the mean of the negated
    log-probabilities of the target classes. *)
Definition log_softmax_row (r : list A) : list A :=
  let z := slog (sum_list (sexp <$> r)) in (λ x, sadd x (sneg z)) <$> r.

Definition cross_entropy (logits : Tensor A) (target : Tensor Z) : result (Tensor A) :=
  match shape logits with
  | [n; c] =>
      if decide (shape target = [n]) then
        ls ← mapM (λ p,
                if decide (0 ≤ p.2 < Z.of_nat c)
                then Ok (sneg (default s0 (log_softmax_row p.1 !! Z.to_nat p.2)))
                else Raise (IndexError "Target out of bounds"))
              (zip (rows logits) (data target));
        Ok (mkTensor [] [sdiv (sum_list ls) (of_Z (Z.of_nat n))])
      else Raise (ValueError "Expected input batch_size to match target batch_size")
  | _ => Raise (ValueError "cross_entropy: expected a batch of rows of logits")
  end.

End Kernels.

End Ops.

(** Exact rationals as scalars, for evaluating the model on concrete
    tensors whose entries and intermediate values are representable
    without rounding.  The transcendental kernels are rational stand-ins
    that keep what the examples rely on: [exp] is positive, increasing and
    one at zero, [log] is its inverse, and [cos], [sin] are the rational
    parametrisation of the circle ([cos^2 + sin^2 = 1], angle zero gives
    [(1, 0)]).  The theorems below hold for every [Scalar]. *)
Module QScalar.

Definition Qexp (a : Q) : Q :=
  if Qle_bool 0 a then Qred (1 + a)%Q else Qred (1 / (1 - a))%Q.

Definition Qlog (a : Q) : Q :=
  if Qle_bool 1 a then Qred (a - 1)%Q else Qred (1 - 1 / a)%Q.

Definition Qcos (a : Q) : Q :=
  Qred ((1 - (a / 2) * (a / 2)) / (1 + (a / 2) * (a / 2)))%Q.

Definition Qsin (a : Q) : Q :=
  Qred (a / (1 + (a / 2) * (a / 2)))%Q.

#[export] Instance Q_scalar : Ops.Scalar Q := {|
  Ops.s0 := 0%Q;
  Ops.s1 := 1%Q;
  Ops.sadd a b := Qred (a + b)%Q;
  Ops.smul a b := Qred (a * b)%Q;
  Ops.sdiv a b := Qred (a / b)%Q;
  Ops.sneg a := Qred (- a)%Q;
  Ops.sabs a := Qred (Qabs a);
  Ops.sexp := Qexp;
  Ops.slog := Qlog;
  Ops.scos := Qcos;
  Ops.ssin := Qsin;
  Ops.sgtb a b := negb (Qle_bool a b);
  Ops.seqb a b := Qeq_bool a b;
  Ops.of_Z z := inject_Z z;
  Ops.of_Q q := Qred q
|}.

End QScalar.

(** ** [modeling_clvp.py] *)

Module Clvp.
Import Ops.

Section Functions.
Context {A : Type} `{Scalar A}.

(** [contrastive_loss] and [clvp_loss] *)
Definition contrastive_loss (logits : Tensor A) : result (Tensor A) :=
  match shape logits with
  | [] => Raise (TypeError "len() of a 0-d tensor")
  | n :: _ => cross_entropy logits (arange n)
  end.

Definition clvp_loss (similarity : Tensor A) : result (Tensor A) :=
  caption_loss ← contrastive_loss similarity;
  similarity_t ← t_ similarity;
  speech_loss ← contrastive_loss similarity_t;
  total ← add caption_loss speech_loss;
  Ok (div_scalar (of_Q 2) total).

(** [rotate_half]: the two halves of the last dimension swapped, the
    second negated. *)
Definition rotate_half (x : Tensor A) : result (Tensor A) :=
  d ← size x (-1);
  x1 ← slice_last_to (d / 2)%nat x;
  x2 ← slice_last_from (d / 2)%nat x;
  cat (-1) (neg x2) x1.

(** [apply_rotary_pos_emb].  [rotary_embed x cos sin] is the expression
    [(x * cos) + (rotate_half(x) * sin)], which the function writes out
    for each of [q], [k] and [v]. *)
Definition rotary_embed (x cos sin : Tensor A) : result (Tensor A) :=
  x_cos ← mul x cos;
  x_half ← rotate_half x;
  x_sin ← mul x_half sin;
  add x_cos x_sin.

Definition apply_rotary_pos_emb (q k v cos sin : Tensor A) (position_ids : Tensor Z)
    (unsqueeze_dim : Z) : result (Tensor A * Tensor A * Tensor A) :=
  cos ← getitem cos position_ids ≫= unsqueeze unsqueeze_dim;
  sin ← getitem sin position_ids ≫= unsqueeze unsqueeze_dim;
  q_embed ← rotary_embed q cos sin;
  k_embed ← rotary_embed k cos sin;
  v_embed ← rotary_embed v cos sin;
  Ok (q_embed, k_embed, v_embed).

(** [_pad_extra_bos_eos_tokens].  [slice_start pos l] is where the Python
    slices [l[:pos]] and [l[pos:]] cut a list.  In a row that holds the
    pad token, [pos] is the first entry of
    [ops.where(row == pad_token_id, row, pad_token_id)]. *)
Definition slice_start {X} (pos : Z) (l : list X) : nat :=
  if decide (pos < 0) then Z.to_nat (Z.max 0 (pos + Z.of_nat (length l))) else Z.to_nat pos.

Definition pad_attention_mask (attention_mask : option (Tensor Z)) : result (option (Tensor Z)) :=
  match attention_mask with
  | Some m => Some <$> pad_last 1 0 1 m
  | None => Ok None
  end.

Definition _pad_extra_bos_eos_tokens (input_ids : Tensor Z) (attention_mask : option (Tensor Z))
    (pad_token_id bos_token_id eos_token_id : Z) (add_bos_token add_eos_token : bool)
    : result (Tensor Z * option (Tensor Z)) :=
  '(input_ids, attention_mask) ←
    (if add_bos_token then
       input_ids ← pad_last 1 0 bos_token_id input_ids;
       attention_mask ← pad_attention_mask attention_mask;
       Ok (input_ids, attention_mask)
     else Ok (input_ids, attention_mask));
  if add_eos_token then
    n0 ← size input_ids 0;
    n1 ← size input_ids 1;
    if decide (ndim input_ids = 2%nat) then
      let modified :=
        (λ each_input_id : list Z,
           if decide (pad_token_id ∈ each_input_id) then
             let selected := (λ x, if decide (x = pad_token_id) then x else pad_token_id)
                               <$> each_input_id in
             let pos := slice_start (default 0 (head selected)) each_input_id in
             take pos each_input_id ++ [eos_token_id] ++ drop pos each_input_id
           else each_input_id ++ [eos_token_id]) <$> rows input_ids in
      attention_mask ← pad_attention_mask attention_mask;
      Ok (mkTensor [n0; S n1] (concat modified), attention_mask)
    else Raise (RuntimeError "The shape of the rows does not fit the padded tensor")
  else Ok (input_ids, attention_mask).

(** *** [ClvpRotaryPositionalEmbedding] *)

Record ClvpRotaryPositionalEmbedding : Type := {
  inv_freq : Tensor A;
  cached_sequence_length : option nat;
  cached_rotary_positional_embedding : option (Tensor A)
}.

(** The object as [__init__] leaves it. *)
Definition ClvpRotaryPositionalEmbedding_init (inv_freq : Tensor A) : ClvpRotaryPositionalEmbedding :=
  {| inv_freq := inv_freq;
     cached_sequence_length := None;
     cached_rotary_positional_embedding := None |}.

(** Lines 275 to 279 of [forward]: the embedding for a sequence length. *)
Definition rotary_embeddings (inv_freq : Tensor A) (sequence_length : nat) : result (Tensor A) :=
  let time_stamps := to_float (arange sequence_length) in
  freqs ← einsum_outer time_stamps inv_freq;
  embeddings ← cat (-1) freqs freqs;
  unsqueeze 0 embeddings.

(** [forward]: the result together with the object after the call.  The
    cached length is assigned before the embedding is computed. *)
Definition set_cached_sequence_length (n : nat) (self : ClvpRotaryPositionalEmbedding)
    : ClvpRotaryPositionalEmbedding :=
  {| inv_freq := inv_freq self;
     cached_sequence_length := Some n;
     cached_rotary_positional_embedding := cached_rotary_positional_embedding self |}.

Definition set_cached_rotary_positional_embedding (e : Tensor A)
    (self : ClvpRotaryPositionalEmbedding) : ClvpRotaryPositionalEmbedding :=
  {| inv_freq := inv_freq self;
     cached_sequence_length := cached_sequence_length self;
     cached_rotary_positional_embedding := Some e |}.

Definition ClvpRotaryPositionalEmbedding_forward (self : ClvpRotaryPositionalEmbedding)
    (hidden_states : Tensor A) : result (Tensor A) * ClvpRotaryPositionalEmbedding :=
  match size hidden_states 1 with
  | Raise e => (Raise e, self)
  | Ok sequence_length =>
      match cached_rotary_positional_embedding self with
      | Some cached =>
          if decide (Some sequence_length = cached_sequence_length self)
          then (Ok cached, self)
          else
            let self := set_cached_sequence_length sequence_length self in
            match rotary_embeddings (inv_freq self) sequence_length with
            | Ok e => (Ok e, set_cached_rotary_positional_embedding e self)
            | Raise e => (Raise e, self)
            end
      | None =>
          let self := set_cached_sequence_length sequence_length self in
          match rotary_embeddings (inv_freq self) sequence_length with
          | Ok e => (Ok e, set_cached_rotary_positional_embedding e self)
          | Raise e => (Raise e, self)
          end
      end
  end.

(** A sequence of calls on one object: the results, in order. *)
Fixpoint forward_calls (self : ClvpRotaryPositionalEmbedding) (inputs : list (Tensor A))
    : list (result (Tensor A)) :=
  match inputs with
  | [] => []
  | x :: inputs' =>
      let '(r, self') := ClvpRotaryPositionalEmbedding_forward self x in
      r :: forward_calls self' inputs'
  end.

(** The same method without the two cache attributes: every call
    recomputes the embedding from [inv_freq]. *)
Definition forward_uncached (inv_freq : Tensor A) (hidden_states : Tensor A) : result (Tensor A) :=
  sequence_length ← size hidden_states 1;
  rotary_embeddings inv_freq sequence_length.

(** What the two cache attributes hold after any number of calls: an
    embedding is cached only together with the length it was computed
    for. *)
Definition cache_ok (f : Tensor A) (self : ClvpRotaryPositionalEmbedding) : Prop :=
  inv_freq self = f ∧
  match cached_rotary_positional_embedding self with
  | Some e => ∃ n, cached_sequence_length self = Some n ∧ rotary_embeddings f n = Ok e
  | None => True
  end.

(** *** [ClvpSelfAttention]

    The four projections are the linear layers of the module with their
    weights; [training] is the mode flag of [nn.Module]. *)

Record ClvpSelfAttention : Type := {
  embed_dim : Z;
  num_heads : Z;
  head_dim : Z;
  scale : A;
  dropout_p : A;
  training : bool;
  q_proj : Tensor A → result (Tensor A);
  k_proj : Tensor A → result (Tensor A);
  v_proj : Tensor A → result (Tensor A);
  out_proj : Tensor A → result (Tensor A)
}.

Definition _shape (self : ClvpSelfAttention) (tensor : Tensor A) (seq_len : Z) (bsz : nat)
    : result (Tensor A) :=
  view [Z.of_nat bsz; seq_len; num_heads self; head_dim self] tensor ≫= swapaxes 1 2.

(** Lines 356 to 380: the partial rotary embedding of the three states. *)
Definition rotary_states (rotary_pos_emb : Tensor A) (position_ids : Tensor Z)
    (query_states key_states value_states : Tensor A)
    : result (Tensor A * Tensor A * Tensor A) :=
  rotary_emb_dim ← size rotary_pos_emb (-1);
  query_rot ← slice_last_to rotary_emb_dim query_states;
  query_pass ← slice_last_from rotary_emb_dim query_states;
  key_rot ← slice_last_to rotary_emb_dim key_states;
  key_pass ← slice_last_from rotary_emb_dim key_states;
  value_rot ← slice_last_to rotary_emb_dim value_states;
  value_pass ← slice_last_from rotary_emb_dim value_states;
  cos ← squeeze 0 (cos rotary_pos_emb);
  sin ← squeeze 0 (sin rotary_pos_emb);
  '(query_rot, key_rot, value_rot) ←
    apply_rotary_pos_emb query_rot key_rot value_rot cos sin position_ids 1;
  query_states ← cat (-1) query_rot query_pass;
  key_states ← cat (-1) key_rot key_pass;
  value_states ← cat (-1) value_rot value_pass;
  Ok (query_states, key_states, value_states).

Definition mask_size_msg (bsz tgt_len src_len : nat) (mask_shape : list nat) : string :=
  "Attention mask should be of size "
    +:+ str_tuple (Z.of_nat <$> [bsz; 1%nat; tgt_len; src_len])
    +:+ ", but is " +:+ str_tuple (Z.of_nat <$> mask_shape).

Definition attn_output_size_msg (expected : list Z) (got : list nat) : string :=
  "`attn_output` should be of size " +:+ str_tuple expected
    +:+ ", but is " +:+ str_tuple (Z.of_nat <$> got).

(** [forward], lines 334 to 384: the states and the raw attention
    weights. *)
Record AttentionStates : Type := {
  st_bsz : nat;
  st_query : Tensor A;
  st_key : Tensor A;
  st_value : Tensor A;
  st_present : option (Tensor A * Tensor A);
  st_tgt_len : nat;
  st_src_len : nat;
  st_attn_weights : Tensor A
}.

Definition attention_states (self : ClvpSelfAttention) (hidden_states : Tensor A)
    (rotary_pos_emb : option (Tensor A)) (position_ids : option (Tensor Z))
    (past_key_value : option (Tensor A * Tensor A)) (use_cache : bool)
    : result AttentionStates :=
  if decide (is_Some rotary_pos_emb ∧ position_ids = None)
  then Raise (ValueError "`position_ids` must be provided when `rotary_pos_emb` is not None.")
  else
    '(bsz, _, _) ← unpack3 (shape hidden_states);
    query_states ← (q ← q_proj self hidden_states; _shape self q (-1) bsz);
    let query_states := mul_scalar (scale self) query_states in
    key_states ← (k ← k_proj self hidden_states; _shape self k (-1) bsz);
    value_states ← (v ← v_proj self hidden_states; _shape self v (-1) bsz);
    '(key_states, value_states) ←
      match past_key_value with
      | Some (past_key, past_value) =>
          key_states ← cat (-2) past_key key_states;
          value_states ← cat (-2) past_value value_states;
          Ok (key_states, value_states)
      | None => Ok (key_states, value_states)
      end;
    let present := if use_cache then Some (key_states, value_states) else None in
    '(query_states, key_states, value_states) ←
      match rotary_pos_emb, position_ids with
      | Some rotary_pos_emb, Some position_ids =>
          rotary_states rotary_pos_emb position_ids query_states key_states value_states
      | _, _ => Ok (query_states, key_states, value_states)
      end;
    tgt_len ← size query_states 2;
    src_len ← size key_states 2;
    attn_weights ← (key_t ← swapaxes 2 3 key_states; matmul query_states key_t);
    Ok {| st_bsz := bsz; st_query := query_states; st_key := key_states;
          st_value := value_states; st_present := present;
          st_tgt_len := tgt_len; st_src_len := src_len;
          st_attn_weights := attn_weights |}.

(** Lines 386 to 391: the attention mask. *)
Definition apply_attention_mask (st : AttentionStates) (attention_mask : option (Tensor A))
    : result (Tensor A) :=
  match attention_mask with
  | Some attention_mask =>
      if decide (shape attention_mask ≠ [st_bsz st; 1%nat; st_tgt_len st; st_src_len st])
      then Raise (ValueError (mask_size_msg (st_bsz st) (st_tgt_len st) (st_src_len st)
                                (shape attention_mask)))
      else add (st_attn_weights st) attention_mask
  | None => Ok (st_attn_weights st)
  end.

(** Lines 395 to 417: head mask, dropout, the weighted values and the
    output projection, from the attention weights after the softmax. *)
Definition attention_output (self : ClvpSelfAttention) (rng : nat → bool)
    (st : AttentionStates) (attn_weights : Tensor A)
    (head_mask : option (Tensor A)) (output_attentions : bool)
    : result (Tensor A * option (Tensor A * Tensor A) * option (Tensor A)) :=
  attn_weights ←
    match head_mask with
    | Some head_mask => mul attn_weights head_mask
    | None => Ok attn_weights
    end;
  let attn_probs := dropout (dropout_p self) (training self) rng attn_weights in
  attn_output ← matmul attn_probs (st_value st);
  let expected := [Z.of_nat (st_bsz st); num_heads self; Z.of_nat (st_tgt_len st); head_dim self] in
  if decide (Z.of_nat <$> shape attn_output ≠ expected)
  then Raise (ValueError (attn_output_size_msg expected (shape attn_output)))
  else
    attn_output ← swapaxes 1 2 attn_output;
    attn_output ← view [Z.of_nat (st_bsz st); Z.of_nat (st_tgt_len st); embed_dim self] attn_output;
    attn_output ← out_proj self attn_output;
    Ok (attn_output, st_present st, if output_attentions then Some attn_weights else None).

Definition ClvpSelfAttention_forward (self : ClvpSelfAttention) (rng : nat → bool)
    (hidden_states : Tensor A)
    (rotary_pos_emb : option (Tensor A)) (attention_mask : option (Tensor A))
    (position_ids : option (Tensor Z)) (past_key_value : option (Tensor A * Tensor A))
    (use_cache : bool) (head_mask : option (Tensor A)) (output_attentions : bool)
    : result (Tensor A * option (Tensor A * Tensor A) * option (Tensor A)) :=
  st ← attention_states self hidden_states rotary_pos_emb position_ids past_key_value use_cache;
  attn_weights ← apply_attention_mask st attention_mask;
  let attn_weights := softmax_last attn_weights in
  attention_output self rng st attn_weights head_mask output_attentions.

(** *** [ClvpDecoderMLP] *)

Record ClvpDecoderMLP : Type := {
  c_fc : Tensor A → result (Tensor A);
  c_proj : Tensor A → result (Tensor A);
  act : Tensor A → result (Tensor A);
  resid_pdrop : A;
  mlp_training : bool
}.

Definition ClvpDecoderMLP_forward (self : ClvpDecoderMLP) (rng : nat → bool)
    (hidden_states : Tensor A) : result (Tensor A) :=
  hidden_states ← c_fc self hidden_states;
  hidden_states ← act self hidden_states;
  hidden_states ← c_proj self hidden_states;
  Ok (dropout (resid_pdrop self) (mlp_training self) rng hidden_states).


(** *** [ClvpGatedLinearUnit] and [ClvpEncoderMLP]

    The activation and the linear layers are fields; [dropout_layer_p] is
    the probability of [dropout_layer]. *)

Record ClvpGatedLinearUnit : Type := {
  activation_fn : Tensor A → result (Tensor A);
  proj : Tensor A → result (Tensor A)
}.

Definition ClvpGatedLinearUnit_forward (self : ClvpGatedLinearUnit)
    (hidden_states : Tensor A) : result (Tensor A) :=
  projected ← proj self hidden_states;
  '(hidden_states, gate) ← chunk2_last projected;
  gate ← activation_fn self gate;
  mul hidden_states gate.

Record ClvpEncoderMLP : Type := {
  fc1 : ClvpGatedLinearUnit;
  fc2 : Tensor A → result (Tensor A);
  dropout_layer_p : A;
  encoder_mlp_training : bool
}.

Definition ClvpEncoderMLP_forward (self : ClvpEncoderMLP) (rng : nat → bool)
    (hidden_states : Tensor A) : result (Tensor A) :=
  hidden_states ← ClvpGatedLinearUnit_forward (fc1 self) hidden_states;
  let hidden_states :=
    dropout (dropout_layer_p self) (encoder_mlp_training self) rng hidden_states in
  fc2 self hidden_states.

(** *** [ClvpEncoderLayer] and [ClvpDecoderLayer]

    A layer returns a tuple whose entries are a tensor, a pair of tensors
    (the key and value states for the cache) or [None].  The two
    normalisations of a layer are fields.  The attention and the
    feed-forward block draw their dropout from [rng_attn] and [rng_mlp]. *)

Inductive tuple_item : Type :=
| TensorItem (t : Tensor A)
| PairItem (key value : Tensor A)
| NoneItem.

Definition tensor_or_none (t : option (Tensor A)) : tuple_item :=
  match t with Some t => TensorItem t | None => NoneItem end.

Definition pair_or_none (p : option (Tensor A * Tensor A)) : tuple_item :=
  match p with Some (k, v) => PairItem k v | None => NoneItem end.

Record ClvpEncoderLayer : Type := {
  self_attn : ClvpSelfAttention;
  mlp : ClvpEncoderMLP;
  input_rmsnorm : Tensor A → result (Tensor A);
  post_attention_rmsnorm : Tensor A → result (Tensor A)
}.

Definition ClvpEncoderLayer_forward (self : ClvpEncoderLayer) (rng_attn rng_mlp : nat → bool)
    (hidden_states : Tensor A) (rotary_pos_emb attention_mask : option (Tensor A))
    (position_ids : option (Tensor Z)) (output_attentions : bool)
    : result (list tuple_item) :=
  let residual := hidden_states in
  hidden_states ← input_rmsnorm self hidden_states;
  attention_outputs ←
    ClvpSelfAttention_forward (self_attn self) rng_attn hidden_states rotary_pos_emb
      attention_mask position_ids None false None output_attentions;
  let '(hidden_states, _, attn_weights) := attention_outputs in
  hidden_states ← add residual hidden_states;
  let residual := hidden_states in
  hidden_states ← post_attention_rmsnorm self hidden_states;
  hidden_states ← ClvpEncoderMLP_forward (mlp self) rng_mlp hidden_states;
  hidden_states ← add residual hidden_states;
  let outputs := [TensorItem hidden_states] in
  Ok (if output_attentions then outputs ++ [tensor_or_none attn_weights] else outputs).

Record ClvpDecoderLayer : Type := {
  input_layernorm : Tensor A → result (Tensor A);
  attn : ClvpSelfAttention;
  post_attention_layernorm : Tensor A → result (Tensor A);
  layer_mlp : ClvpDecoderMLP
}.

Definition ClvpDecoderLayer_forward (self : ClvpDecoderLayer) (rng_attn rng_mlp : nat → bool)
    (hidden_states : Tensor A) (past_key_value : option (Tensor A * Tensor A))
    (attention_mask : option (Tensor A)) (position_ids : option (Tensor Z))
    (head_mask : option (Tensor A)) (use_cache output_attentions : bool)
    : result (list tuple_item) :=
  let residual := hidden_states in
  hidden_states ← input_layernorm self hidden_states;
  attn_outputs ←
    ClvpSelfAttention_forward (attn self) rng_attn hidden_states None attention_mask
      position_ids past_key_value use_cache head_mask output_attentions;
  let '(attn_output, present, attn_weights) := attn_outputs in
  let outputs := [pair_or_none present; tensor_or_none attn_weights] in
  hidden_states ← add attn_output residual;
  let residual := hidden_states in
  hidden_states ← post_attention_layernorm self hidden_states;
  feed_forward_hidden_states ← ClvpDecoderMLP_forward (layer_mlp self) rng_mlp hidden_states;
  hidden_states ← add residual feed_forward_hidden_states;
  Ok (if use_cache then TensorItem hidden_states :: outputs
      else TensorItem hidden_states :: drop 1 outputs).

(** [ClvpDecoder.forward], lines 1086 to 1095: what the loop over the
    layers takes from the tuple of a layer.  [presents],
    [all_self_attentions] and [all_cross_attentions] are the tuples
    collected so far ([None] when they are not collected). *)
Definition tuple_get {X} (t : list X) (i : nat) : result X :=
  match t !! i with
  | Some x => Ok x
  | None => Raise (IndexError "tuple index out of range")
  end.

Record DecoderCollected : Type := {
  collected_hidden_states : tuple_item;
  presents : option (list tuple_item);
  all_self_attentions : option (list tuple_item);
  all_cross_attentions : option (list tuple_item)
}.

Definition tuple_append (t : option (list tuple_item)) (x : tuple_item)
    : result (option (list tuple_item)) :=
  match t with
  | Some t => Ok (Some (t ++ [x]))
  | None => Raise (TypeError "unsupported operand type(s) for +: 'NoneType' and 'tuple'")
  end.

Definition ClvpDecoder_collect (use_cache output_attentions add_cross_attention : bool)
    (outputs : list tuple_item) (so_far : DecoderCollected) : result DecoderCollected :=
  hidden_states ← tuple_get outputs 0;
  presents ←
    (if use_cache then
       present ← tuple_get outputs 1;
       tuple_append (presents so_far) present
     else Ok (presents so_far));
  '(all_self_attentions, all_cross_attentions) ←
    (if output_attentions then
       weights ← tuple_get outputs (if use_cache then 2 else 1);
       all_self_attentions ← tuple_append (all_self_attentions so_far) weights;
       all_cross_attentions ←
         (if add_cross_attention then
            cross ← tuple_get outputs (if use_cache then 3 else 2);
            tuple_append (all_cross_attentions so_far) cross
          else Ok (all_cross_attentions so_far));
       Ok (all_self_attentions, all_cross_attentions)
     else Ok (all_self_attentions so_far, all_cross_attentions so_far));
  Ok {| collected_hidden_states := hidden_states;
        presents := presents;
        all_self_attentions := all_self_attentions;
        all_cross_attentions := all_cross_attentions |}.

(** Lines 1068 to 1071: the tuples before the first layer. *)
Definition ClvpDecoder_collect_init (use_cache output_attentions add_cross_attention : bool)
    (hidden_states : Tensor A) : DecoderCollected :=
  {| collected_hidden_states := TensorItem hidden_states;
     presents := if use_cache then Some [] else None;
     all_self_attentions := if output_attentions then Some [] else None;
     all_cross_attentions :=
       if output_attentions && add_cross_attention then Some [] else None |}.

(** *** [ClvpEncoder.forward], lines 896 to 920: the rotary embedding and
    the layers

    [rotary] is the rotary module of the encoder, or [None]; the call
    returns the module as it leaves it.  Layer [idx] draws the dropout of
    its attention from [rng_attn idx] and that of its feed-forward block
    from [rng_mlp idx].  An entry of the tuple of a layer that is passed
    on as hidden states has to be a tensor. *)






(** *** [ClvpForCausalLM.prepare_inputs_for_generation]

    The keyword arguments that the method reads ([token_type_ids],
    [attention_mask], [position_ids] and [use_cache]) are arguments that
    are [None] when the keyword is absent.  [past_key_values] is [None] or
    a tuple of pairs of key and value states; the empty tuple is not
    [None] but counts as false.  The dict that is returned holds either
    ["inputs_embeds"] or ["input_ids"]: the field [mi_inputs].  What the
    statement [position_ids.masked_fill(attention_mask == 0, 1)] leaves in
    [position_ids] is the parameter [after_masked_fill]. *)

Definition truthy_cache (past_key_values : option (list (Tensor A * Tensor A))) : bool :=
  match past_key_values with
  | Some (_ :: _) => true
  | _ => false
  end.

(** Lines 1284 to 1296: only the tokens that the cache does not hold. *)
Definition generation_trim_inputs (input_ids : Tensor Z)
    (past_key_values : option (list (Tensor A * Tensor A)))
    (token_type_ids : option (Tensor Z)) : result (Tensor Z * option (Tensor Z)) :=
  match past_key_values with
  | Some ((key, _) :: _) =>
      past_length ← size key 2;
      n ← size input_ids 1;
      let remove_prefix_length :=
        if decide (past_length < n)%nat then Z.of_nat past_length else Z.of_nat n - 1 in
      input_ids ← slice_dim1_from remove_prefix_length input_ids;
      token_type_ids ←
        match token_type_ids with
        | Some token_type_ids =>
            n' ← size input_ids 1;
            Some <$> slice_dim1_from (- Z.of_nat n') token_type_ids
        | None => Ok None
        end;
      Ok (input_ids, token_type_ids)
  | _ => Ok (input_ids, token_type_ids)
  end.

(** Lines 1298 to 1308: the position ids from the attention mask. *)
Definition generation_position_ids (after_masked_fill : Tensor Z → Tensor Z → Tensor Z)
    (past_key_values : option (list (Tensor A * Tensor A)))
    (attention_mask position_ids : option (Tensor Z)) : result (option (Tensor Z)) :=
  match attention_mask, position_ids with
  | Some attention_mask, None =>
      let position_ids := sub_int 1 (cumsum_last attention_mask) in
      let position_ids := after_masked_fill position_ids attention_mask in
      if truthy_cache past_key_values
      then last_position ← select_dim1 (-1) position_ids;
           Some <$> unsqueeze (-1) last_position
      else Ok (Some position_ids)
  | _, _ => Ok None
  end.

Record ModelInputs : Type := {
  mi_inputs : Tensor A + Tensor Z;
  mi_past_key_values : option (list (Tensor A * Tensor A));
  mi_use_cache : option bool;
  mi_position_ids : option (Tensor Z);
  mi_token_type_ids : option (Tensor Z)
}.

Definition ClvpForCausalLM_prepare_inputs_for_generation
    (after_masked_fill : Tensor Z → Tensor Z → Tensor Z)
    (input_ids : Tensor Z) (past_key_values : option (list (Tensor A * Tensor A)))
    (inputs_embeds conditioning_embeds : option (Tensor A))
    (token_type_ids attention_mask position_ids : option (Tensor Z))
    (use_cache : option bool) : result ModelInputs :=
  input_ids_length ← tuple_last (shape input_ids);
  '(input_ids, token_type_ids) ←
    generation_trim_inputs input_ids past_key_values token_type_ids;
  position_ids ←
    generation_position_ids after_masked_fill past_key_values attention_mask position_ids;
  let position_ids :=
    match conditioning_embeds, past_key_values with
    | Some _, Some _ => Some (mkTensor [1%nat] [Z.of_nat input_ids_length])
    | _, _ => position_ids
    end in
  let model_inputs :=
    match inputs_embeds, past_key_values with
    | Some inputs_embeds, None => inl inputs_embeds
    | _, _ => inr input_ids
    end in
  Ok {| mi_inputs := model_inputs;
        mi_past_key_values := past_key_values;
        mi_use_cache := use_cache;
        mi_position_ids := position_ids;
        mi_token_type_ids := token_type_ids |}.

End Functions.

(** *** [ClvpConditioningEncoder.compute_groupnorm_groups]

    The [while] loop runs on fuel; [None] says that the fuel ran out with
    the loop still running.  [int(groups / 2)] truncates towards zero (the
    float division is exact for the group counts below [2^53]), and [%]
    raises on a zero divisor. *)

Definition groups_msg (groups : Z) : string :=
  "Number of groups for the GroupNorm must be greater than 2, but it is "
    +:+ pretty groups +:+ ".Please consider using a different `hidden_size`".

Fixpoint halve_until_divides (fuel : nat) (channels groups : Z) : option (result Z) :=
  match fuel with
  | O => None
  | S fuel' =>
      if decide (groups = 0) then Some (Raise (ZeroDivisionError "integer modulo by zero"))
      else if decide (channels mod groups ≠ 0)
           then halve_until_divides fuel' channels (groups `quot` 2)
           else Some (Ok groups)
  end.

(** Lines 645 to 648: the group count that the loop starts from. *)
Definition initial_groups (channels groups : Z) : Z :=
  if decide (channels ≤ 16) then 8 else if decide (channels ≤ 64) then 16 else groups.

Definition compute_groupnorm_groups (fuel : nat) (channels : Z) (groups : Z)
    : option (result Z) :=
  let groups := initial_groups channels groups in
  match halve_until_divides fuel channels groups with
  | None => None
  | Some (Raise e) => Some (Raise e)
  | Some (Ok groups) =>
      if decide (groups ≤ 2) then Some (Raise (ValueError (groups_msg groups)))
      else Some (Ok groups)
  end.

(** The default of the parameter [groups]. *)
Definition default_groups : Z := 32.

(** *** The [input_ids] / [inputs_embeds] arguments of the [forward]
    methods

    Each [forward] starts by resolving the two optional arguments; what
    the method does afterwards is the continuation [rest].  The call of
    [warn_if_padding_and_no_attention_mask] only logs. *)

Definition both_msg : string :=
  "You cannot specify both input_ids and inputs_embeds at the same time".

Definition neither_msg : string :=
  "You have to specify either input_ids or inputs_embeds".

(** A result is one of the two errors of the check. *)
Definition input_error {X} (r : result X) : Prop :=
  r = Raise (ValueError both_msg) ∨ r = Raise (ValueError neither_msg).

Section Forward.
Context {A Out : Type}.

(** [ClvpConditioningEncoder.forward], lines 668 to 677. *)
Definition ClvpConditioningEncoder_text_dims
    (input_ids : option (Tensor Z)) (inputs_embeds : option (Tensor A))
    : result (nat * nat) :=
  match input_ids, inputs_embeds with
  | Some _, Some _ => Raise (ValueError both_msg)
  | Some input_ids, None => unpack2 (shape input_ids)
  | None, Some inputs_embeds => unpack2 (tuple_init (shape inputs_embeds))
  | None, None => Raise (ValueError neither_msg)
  end.

Definition ClvpConditioningEncoder_forward
    (rest : nat → nat → option (Tensor Z) → result Out)
    (input_ids : option (Tensor Z)) (inputs_embeds : option (Tensor A)) : result Out :=
  '(batch_size, seq_length) ← ClvpConditioningEncoder_text_dims input_ids inputs_embeds;
  rest batch_size seq_length input_ids.

(** [ClvpEncoder.forward], lines 870 to 883. *)
Definition ClvpEncoder_inputs (token_embedding : Tensor Z → result (Tensor A))
    (input_ids : option (Tensor Z)) (inputs_embeds : option (Tensor A))
    : result (list nat * Tensor A) :=
  match input_ids, inputs_embeds with
  | Some _, Some _ => Raise (ValueError both_msg)
  | Some input_ids, None =>
      let input_shape := shape input_ids in
      n ← tuple_last input_shape;
      input_ids ← view [-1; Z.of_nat n] input_ids;
      inputs_embeds ← token_embedding input_ids;
      Ok (input_shape, inputs_embeds)
  | None, Some inputs_embeds => Ok (tuple_init (shape inputs_embeds), inputs_embeds)
  | None, None => Raise (ValueError neither_msg)
  end.

Definition ClvpEncoder_forward (token_embedding : Tensor Z → result (Tensor A))
    (rest : list nat → Tensor A → result Out)
    (input_ids : option (Tensor Z)) (inputs_embeds : option (Tensor A)) : result Out :=
  '(input_shape, inputs_embeds) ← ClvpEncoder_inputs token_embedding input_ids inputs_embeds;
  rest input_shape inputs_embeds.

(** [ClvpDecoder.forward], lines 1005 to 1019. *)
Definition ClvpDecoder_inputs
    (input_ids : option (Tensor Z)) (inputs_embeds : option (Tensor A))
    : result (list nat * option (Tensor Z)) :=
  match input_ids, inputs_embeds with
  | Some _, Some _ => Raise (ValueError both_msg)
  | Some input_ids, None =>
      let input_shape := shape input_ids in
      n ← tuple_last input_shape;
      input_ids ← view [-1; Z.of_nat n] input_ids;
      Ok (input_shape, Some input_ids)
  | None, Some inputs_embeds => Ok (tuple_init (shape inputs_embeds), None)
  | None, None => Raise (ValueError neither_msg)
  end.

Definition ClvpDecoder_forward
    (rest : list nat → option (Tensor Z) → option (Tensor A) → result Out)
    (input_ids : option (Tensor Z)) (inputs_embeds : option (Tensor A)) : result Out :=
  '(input_shape, input_ids) ← ClvpDecoder_inputs input_ids inputs_embeds;
  rest input_shape input_ids inputs_embeds.

End Forward.

(** *** [ClvpSelfAttention.__init__], lines 291 to 299: the sizes and
    the scale

    [//] is the floor division of Python, which raises on a zero
    divisor.  [head_dim ** -0.5] raises for the base zero; for another
    base its value is what [power_minus_half] gives. *)

Definition embed_dim_msg (embed_dim num_heads : Z) : string :=
  "embed_dim must be divisible by num_heads (got `embed_dim`: " +:+ pretty embed_dim
    +:+ " and `num_heads`: " +:+ pretty num_heads +:+ ").".

Definition ClvpSelfAttention_sizes {A} (power_minus_half : Z → A)
    (hidden_size num_attention_heads : Z) : result (Z * Z * Z * A) :=
  let embed_dim := hidden_size in
  let num_heads := num_attention_heads in
  if decide (num_heads = 0) then Raise (ZeroDivisionError "integer division or modulo by zero")
  else
    let head_dim := embed_dim `div` num_heads in
    if decide (head_dim * num_heads ≠ embed_dim)
    then Raise (ValueError (embed_dim_msg embed_dim num_heads))
    else if decide (head_dim = 0)
    then Raise (ZeroDivisionError "0.0 cannot be raised to a negative power")
    else Ok (embed_dim, num_heads, head_dim, power_minus_half head_dim).

(** *** [ClvpConditioningEncoder.forward]: the text tokens and the
    concatenation *)

(** Modelled from the spec: the forward method of [nn.Embedding], which
    looks up the rows of the weight matrix for a tensor of indices and
    accepts no index outside the rows. *)
Definition embedding {A} (weight : Tensor A) (ids : Tensor Z) : result (Tensor A) :=
  match shape weight with
  | [n; dim] =>
      looked_up ← mapM (λ i,
                    if decide (0 ≤ i < Z.of_nat n)
                    then Ok (take dim (drop (Z.to_nat i * dim) (data weight)))
                    else Raise (IndexError "index out of range in self")) (data ids);
      Ok (mkTensor (shape ids ++ [dim]) (concat looked_up))
  | _ => Raise (RuntimeError "'weight' must be 2-D")
  end.

(** Lines 679 to 694, for [input_ids] that are given: the token ids with
    the bos and eos tokens, and the position ids. *)
Definition ClvpConditioningEncoder_text_inputs (bos_token_id eos_token_id : Z)
    (batch_size seq_length : nat) (input_ids : Tensor Z) (attention_mask : option (Tensor Z))
    : result (Tensor Z * Tensor Z) :=
  let attention_mask := default (ones [batch_size; seq_length]) attention_mask in
  '(input_ids, attention_mask) ←
    _pad_extra_bos_eos_tokens input_ids (Some attention_mask) 0 bos_token_id eos_token_id
      true true;
  match attention_mask with
  | Some attention_mask => Ok (input_ids, sub_int 1 (cumsum_last attention_mask))
  | None => Raise (AttributeError "'NoneType' object has no attribute 'cumsum'")
  end.

(** Lines 693 to 696: the embeddings of the text. *)
Definition ClvpConditioningEncoder_text_embeds {A} `{Scalar A}
    (text_token_embedding text_position_embedding : Tensor A)
    (bos_token_id eos_token_id : Z) (batch_size seq_length : nat)
    (input_ids : Tensor Z) (attention_mask : option (Tensor Z)) : result (Tensor A) :=
  '(input_ids, position_ids) ←
    ClvpConditioningEncoder_text_inputs bos_token_id eos_token_id batch_size seq_length
      input_ids attention_mask;
  inputs_embeds ← embedding text_token_embedding input_ids;
  position_embeds ← embedding text_position_embedding position_ids;
  add inputs_embeds position_embeds.

(** Lines 711 to 723: one text for several audios, or several texts for
    one audio, is repeated; then the audio vector is put in front of the
    text. *)
Definition texts_audios_msg (texts audios : nat) : string :=
  "The number of texts and number of audios must be same. Found "
    +:+ pretty texts +:+ " texts vs " +:+ pretty audios +:+ " audios".

Definition ClvpConditioningEncoder_concat {A} (text_embeds mel_spec : Tensor A)
    : result (Tensor A) :=
  texts ← size text_embeds 0;
  audios ← size mel_spec 0;
  '(text_embeds, mel_spec) ←
    (if decide (texts = 1%nat ∧ audios ≠ 1%nat)
     then Ok (tile_third_last audios text_embeds, mel_spec)
     else if decide (texts ≠ 1%nat ∧ audios = 1%nat)
     then Ok (text_embeds, tile_third_last texts mel_spec)
     else if decide (texts ≠ audios)
     then Raise (ValueError (texts_audios_msg texts audios))
     else Ok (text_embeds, mel_spec));
  cat 1 mel_spec text_embeds.

(** *** [ClvpEncoder.forward], lines 891 to 894: the position ids *)

Definition ClvpEncoder_position_ids (position_ids : option (Tensor Z))
    (input_shape : list nat) : result (Tensor Z) :=
  match position_ids with
  | Some position_ids => Ok position_ids
  | None =>
      match input_shape !! 1%nat with
      | Some n => unsqueeze 0 (arange n)
      | None => Raise (IndexError "tuple index out of range")
      end
  end.

(** *** [ClvpModelForConditionalGeneration.fix_speech_decoder_output]

    [speech_ids] is the [(batch, length)] tensor of generated tokens, as
    [forward] (which reduces an output of rank three by [argmax]) and
    [generate] pass it; the loop over its rows is [mapM].  In a row with a
    stop token, [stm] is its first position. *)

Definition fix_speech_decoder_output_row (decoder_fixing_codes : list Z) (eos_token_id : Z)
    (each_seq : list Z) : result (list Z) :=
  match decoder_fixing_codes with
  | [] => Raise (IndexError "list index out of range")
  | code :: last_codes =>
      let each_seq_stop_token_index :=
        (λ x, if decide (x = eos_token_id) then 1 else 0) <$> each_seq in
      let each_seq := (λ x, if decide (x = eos_token_id) then code else x) <$> each_seq in
      if decide (foldr Z.add 0 each_seq_stop_token_index = 0) then Ok each_seq
      else
        let stm := int_argmax each_seq_stop_token_index in
        let each_seq := take stm each_seq ++ replicate (length each_seq - stm) code in
        if decide (Z.of_nat stm - 3 < Z.of_nat (length each_seq)) then
          let kept := (length each_seq - 3)%nat in
          let width := (length each_seq - kept)%nat in
          if decide (length last_codes = width) then Ok (take kept each_seq ++ last_codes)
          else if decide (length last_codes = 1%nat)
          then Ok (take kept each_seq ++ concat (replicate width last_codes))
          else Raise (ValueError "could not broadcast the value to the shape of the slice")
        else Ok each_seq
  end.

Definition ClvpModelForConditionalGeneration_fix_speech_decoder_output
    (decoder_fixing_codes : list Z) (eos_token_id : Z) (speech_ids : Tensor Z)
    : result (Tensor Z) :=
  match shape speech_ids with
  | [batch; length] =>
      match decoder_fixing_codes with
      | [] => Raise (IndexError "list index out of range")
      | _ =>
          fixed ← mapM (λ each_seq,
                          fix_speech_decoder_output_row decoder_fixing_codes eos_token_id
                            (drop 1 each_seq)) (rows speech_ids);
          Ok (mkTensor [batch; (length - 1)%nat] (concat fixed))
      end
  | _ => Raise (IndexError "too many indices for tensor")
  end.

(** *** [ClvpModelForConditionalGeneration.generate]

    The sub-models and the generation utilities are fields of the model;
    every call of one of them, and the padding of the text tokens, is
    recorded, so that the result of [generate] comes with the list of the
    stages that ran. *)

Inductive stage : Type :=
| GenerationConfigStage
| PadTokensStage
| ConditioningEncoderStage
| SpeechDecoderStage
| FixSpeechOutputStage
| SpeechEncoderStage
| TextEncoderStage
| LogitsStage.

Section Generate.
Context {A Cfg Dec Enc Out : Type}.

Record ClvpModelForConditionalGeneration : Type := {
  max_text_tokens : Z;
  bos_token_id : Z;
  eos_token_id : Z;
  prepare_generation_config : option Cfg → result Cfg;
  conditioning_encoder :
    option (Tensor A) → Tensor Z → option (Tensor Z) → result (Tensor A);
  speech_decoder_generate : Tensor A → Cfg → result Dec;
  fix_speech_decoder_output : Dec → option Z → result (Tensor Z);
  speech_encoder_model : Tensor Z → Cfg → result Enc;
  text_encoder_model : Tensor Z → option (Tensor Z) → Cfg → result Enc;
  similarity_outputs : Cfg → Tensor Z → Dec → Enc → Enc → result Out
}.

Definition traced (X : Type) : Type := list stage * result X.

(** Run a stage and go on with its result; an exception ends the run. *)
Definition run {X Y} (s : stage) (r : result X) (k : X → traced Y) : traced Y :=
  match r with
  | Ok x => let '(tr, y) := k x in (s :: tr, y)
  | Raise e => ([s], Raise e)
  end.

Definition max_length_msg (sequence_length : nat) (limit : Z) : string :=
  "Maximum sequence length reached! Found input_ids of length "
    +:+ pretty sequence_length
    +:+ ".Please make sure that the maximum length of input_ids is " +:+ pretty limit.

(** Lines 1832 to 1932. *)
Definition generate_body (self : ClvpModelForConditionalGeneration)
    (input_ids : Tensor Z) (input_features : option (Tensor A))
    (attention_mask : option (Tensor Z)) (generation_config : option Cfg)
    (pad_to_max_mel_tokens : option Z) : traced Out :=
  run GenerationConfigStage (prepare_generation_config self generation_config) (λ cfg,
  run PadTokensStage
    (_pad_extra_bos_eos_tokens input_ids attention_mask 0 (bos_token_id self)
       (eos_token_id self) false true) (λ padded,
  run ConditioningEncoderStage (conditioning_encoder self input_features padded.1 padded.2) (λ conditioning_embeds,
  run SpeechDecoderStage (speech_decoder_generate self conditioning_embeds cfg) (λ decoder_outputs,
  run FixSpeechOutputStage (fix_speech_decoder_output self decoder_outputs pad_to_max_mel_tokens) (λ speech_ids,
  run SpeechEncoderStage (speech_encoder_model self speech_ids cfg) (λ speech_outputs,
  run TextEncoderStage (text_encoder_model self padded.1 padded.2 cfg) (λ text_outputs,
  run LogitsStage (similarity_outputs self cfg speech_ids decoder_outputs text_outputs speech_outputs)
    (λ out, ([], Ok out))))))))).

(** Lines 1825 to 1830, then the body. *)
Definition generate (self : ClvpModelForConditionalGeneration)
    (input_ids : option (Tensor Z)) (input_features : option (Tensor A))
    (attention_mask : option (Tensor Z)) (generation_config : option Cfg)
    (pad_to_max_mel_tokens : option Z) : traced Out :=
  match input_ids with
  | None => ([], Raise (AttributeError "'NoneType' object has no attribute 'shape'"))
  | Some input_ids =>
      match size input_ids (-1) with
      | Raise e => ([], Raise e)
      | Ok sequence_length =>
          if decide (Z.of_nat sequence_length > max_text_tokens self - 3)
          then ([], Raise (ValueError (max_length_msg sequence_length (max_text_tokens self - 3))))
          else generate_body self input_ids input_features attention_mask
                 generation_config pad_to_max_mel_tokens
      end
  end.

End Generate.

End Clvp.

(** ** [configuration_llava.py] *)

Module Llava.

(** A configuration of a backbone is the bag of its attributes.  The
    argument [vision_config] / [text_config] is a [dict], an object, or
    [None].  A [dict] is an object of the caller that [__init__] writes
    into: the argument is the name of the [dict] in the store of the
    caller's [dict] objects, the constructor returns the store as it
    leaves it (also when it raises), and the two arguments may name the
    same [dict].  The store gives every name its [dict].
    [base_attributes] is what [PretrainedConfig.__init__] sets from the
    remaining keywords. *)
Inductive config_arg : Type :=
| ConfigDict (name : nat)
| ConfigObject (c : gmap string pyobj).

Record LlavaConfig : Type := {
  ignore_index : pyobj;
  image_token_index : pyobj;
  projector_hidden_act : pyobj;
  vision_feature_select_strategy : pyobj;
  vision_feature_layer : pyobj;
  vision_config : gmap string pyobj;
  text_config : gmap string pyobj;
  _vocab_size : pyobj;
  base_attributes : gmap string pyobj
}.

Definition strategy_msg (got : pyobj) : string :=
  "vision_feature_select_strategy should be one of 'default', 'full'."
    +:+ "Got: " +:+ py_str got.

Definition vocab_size_warning : string :=
  "The `vocab_size` argument is deprecated and will be removed in v4.42, since it can be inferred from the `text_config`. Passing this argument has no effect".

(** [CONFIG_MAPPING[key]] called with the keywords [kwargs]. *)
Definition config_for
    (CONFIG_MAPPING : gmap string (gmap string pyobj → result (gmap string pyobj)))
    (model_type : pyobj) (kwargs : gmap string pyobj) : result (gmap string pyobj) :=
  match model_type with
  | PyStr key =>
      match CONFIG_MAPPING !! key with
      | Some make => make kwargs
      | None => Raise (KeyError key)
      end
  | other => Raise (KeyError (py_str other))
  end.

(** The keywords of the default vision backbone (lines 145 to 154). *)
Definition default_vision_kwargs : gmap string pyobj :=
  <["intermediate_size" := PyInt 4096]> (
  <["hidden_size" := PyInt 1024]> (
  <["patch_size" := PyInt 14]> (
  <["image_size" := PyInt 336]> (
  <["num_hidden_layers" := PyInt 24]> (
  <["num_attention_heads" := PyInt 16]> (
  <["vocab_size" := PyInt 32000]> (
  <["projection_dim" := PyInt 768]> ∅))))))).

(** Lines 138 to 154 and 158 to 163: the backbone from its argument.
    For a [dict], ["model_type"] is first written into the caller's
    [dict]; the class is then looked up and called with the entries of the
    [dict] as keywords. *)
Definition resolve_config
    (CONFIG_MAPPING : gmap string (gmap string pyobj → result (gmap string pyobj)))
    (default_type : string) (default_kwargs : gmap string pyobj)
    (arg : option config_arg) (dicts : nat → gmap string pyobj)
    : result (gmap string pyobj) * (nat → gmap string pyobj) :=
  match arg with
  | Some (ConfigDict name) =>
      let model_type := default (PyStr default_type) (dicts name !! "model_type") in
      let dicts := <[name := <["model_type" := model_type]> (dicts name)]> dicts in
      (config_for CONFIG_MAPPING model_type (dicts name), dicts)
  | None => (config_for CONFIG_MAPPING (PyStr default_type) default_kwargs, dicts)
  | Some (ConfigObject c) => (Ok c, dicts)
  end.

(** The values that [vision_feature_select_strategy] may take. *)
Definition strategies : list pyobj := [PyStr "default"; PyStr "full"].

(** [LlavaConfig.__init__], lines 129 to 168: what follows the check of
    the strategy.  The result is the new object and the warnings issued,
    together with the caller's [dict] objects as the call leaves them.
    The text backbone is resolved in the store that the vision backbone
    left. *)
Definition LlavaConfig_attributes
    (CONFIG_MAPPING : gmap string (gmap string pyobj → result (gmap string pyobj)))
    (PretrainedConfig_init : gmap string pyobj → result (gmap string pyobj))
    (vision_config text_config : option config_arg)
    (ignore_index image_token_index projector_hidden_act
     vision_feature_select_strategy vision_feature_layer : pyobj)
    (kwargs : gmap string pyobj) (dicts : nat → gmap string pyobj)
    : result (LlavaConfig * list string) * (nat → gmap string pyobj) :=
  let warnings := if decide (is_Some (kwargs !! "vocab_size")) then [vocab_size_warning] else [] in
  let '(vision_config, dicts) :=
    resolve_config CONFIG_MAPPING "clip_vision_model" default_vision_kwargs vision_config dicts in
  match vision_config with
  | Raise e => (Raise e, dicts)
  | Ok vision_config =>
      let '(text_config, dicts) := resolve_config CONFIG_MAPPING "llama" ∅ text_config dicts in
      (text_config ← text_config;
       vocab_size ← match text_config !! "vocab_size" with
                    | Some v => Ok v
                    | None => Raise (AttributeError "object has no attribute 'vocab_size'")
                    end;
       base ← PretrainedConfig_init kwargs;
       Ok ({| ignore_index := ignore_index;
              image_token_index := image_token_index;
              projector_hidden_act := projector_hidden_act;
              vision_feature_select_strategy := vision_feature_select_strategy;
              vision_feature_layer := vision_feature_layer;
              vision_config := vision_config;
              text_config := text_config;
              _vocab_size := vocab_size;
              base_attributes := base |}, warnings),
       dicts)
  end.

(** [LlavaConfig.__init__] *)
Definition LlavaConfig_init
    (CONFIG_MAPPING : gmap string (gmap string pyobj → result (gmap string pyobj)))
    (PretrainedConfig_init : gmap string pyobj → result (gmap string pyobj))
    (vision_config text_config : option config_arg)
    (ignore_index image_token_index projector_hidden_act
     vision_feature_select_strategy vision_feature_layer : pyobj)
    (kwargs : gmap string pyobj) (dicts : nat → gmap string pyobj)
    : result (LlavaConfig * list string) * (nat → gmap string pyobj) :=
  if decide (vision_feature_select_strategy ∉ strategies)
  then (Raise (ValueError (strategy_msg vision_feature_select_strategy)), dicts)
  else LlavaConfig_attributes CONFIG_MAPPING PretrainedConfig_init vision_config text_config
         ignore_index image_token_index projector_hidden_act
         vision_feature_select_strategy vision_feature_layer kwargs dicts.

End Llava.

(** ** [feature_extraction_musicgen_melody.py] *)

Module MusicgenMelody.
Import Ops.

Section Extractor.
Context {A : Type} `{Scalar A}.

Record MusicgenMelodyFeatureExtractor : Type := {
  feature_size : Z;
  sampling_rate : Z;
  n_fft : Z;
  hop_length : Z;
  chunk_length : Z;
  n_samples : Z;
  chroma_filters : Tensor A;
  spectrogram : Tensor A → result (Tensor A)
}.

(** [__init__].  The chroma filter bank of [audio_utils] and the
    [Spectrogram] transform of the runtime are arguments. *)
Definition MusicgenMelodyFeatureExtractor_init
    (chroma_filter_bank : Z → Z → Z → Tensor A)
    (Spectrogram : Z → Z → Tensor A → result (Tensor A))
    (feature_size sampling_rate hop_length chunk_length n_fft num_chroma : Z)
    : MusicgenMelodyFeatureExtractor :=
  {| feature_size := feature_size;
     sampling_rate := sampling_rate;
     n_fft := n_fft;
     hop_length := hop_length;
     chunk_length := chunk_length;
     n_samples := chunk_length * sampling_rate;
     chroma_filters := chroma_filter_bank sampling_rate n_fft num_chroma;
     spectrogram := Spectrogram n_fft hop_length |}.

(** The default values of the arguments of [__init__]. *)
Definition default_extractor
    (chroma_filter_bank : Z → Z → Z → Tensor A)
    (Spectrogram : Z → Z → Tensor A → result (Tensor A))
    : MusicgenMelodyFeatureExtractor :=
  MusicgenMelodyFeatureExtractor_init chroma_filter_bank Spectrogram 12 32000 4096 30 16384 12.

(** [_ms_extract_fbank_features], lines 142 to 158: the normalised chroma,
    as [(batch, time, chroma)]. *)
Definition normalised_chroma (self : MusicgenMelodyFeatureExtractor) (waveform : Tensor A)
    : result (Tensor A) :=
  wav_length ← size waveform (-1);
  waveform ←
    (if decide (Z.of_nat wav_length < n_fft self) then
       let pad := n_fft self - Z.of_nat wav_length in
       let rest := if decide (pad mod 2 = 0) then 0 else 1 in
       pad_last (Z.to_nat (pad / 2)) (Z.to_nat (pad / 2 + rest)) s0 waveform
     else Ok waveform);
  spec ← spectrogram self waveform;
  raw_chroma ← einsum_cf_ft (chroma_filters self) spec;
  norm_chroma ← normalize_inf_dim2 (of_Q (1 # 1000000)) raw_chroma;
  swapaxes 1 2 norm_chroma.

(** Lines 160 to 165. *)
Definition one_hot_of_max (norm_chroma : Tensor A) : result (Tensor A) :=
  idx ← argmax_last_keepdims norm_chroma;
  let norm_chroma := fill s0 norm_chroma in
  scatter_last norm_chroma idx (tmap (λ _, s1) idx).

Definition _ms_extract_fbank_features (self : MusicgenMelodyFeatureExtractor)
    (waveform : Tensor A) : result (Tensor A) :=
  normalised_chroma self waveform ≫= one_hot_of_max.

(** Modelled from the spec: the strided slice [t[:, ::step]] of the
    runtime. *)
Fixpoint every_nth {X} (fuel step : nat) (l : list X) : list X :=
  match fuel, l with
  | S fuel', x :: _ => x :: every_nth fuel' step (drop step l)
  | _, _ => []
  end.

Definition stride_dim1 {X} (step : Z) (t : Tensor X) : result (Tensor X) :=
  match shape t with
  | b :: l :: inner =>
      if decide (step = 0) then Raise (ValueError "slice step cannot be zero")
      else if decide (step < 0) then Raise (ValueError "slice step must be positive")
      else
        let st := Z.to_nat step in
        let l' := ((l + st - 1) / st)%nat in
        Ok (mkTensor (b :: l' :: inner)
              (concat ((λ row, concat (every_nth l st (chunks (numel inner) l row)))
                         <$> chunks (l * numel inner) b (data t))))
  | _ => Raise (IndexError "too many indices for tensor")
  end.

(** [__call__], lines 328 to 339.  Everything before (resampling,
    batching, padding) is [prepare]; [convert_to_tensors] is the method of
    [BatchFeature]. *)
Definition MusicgenMelodyFeatureExtractor_call {Audio TensorType : Type}
    (self : MusicgenMelodyFeatureExtractor)
    (prepare : Audio → result (gmap string (Tensor A)))
    (convert_to_tensors : TensorType → gmap string (Tensor A) → result (gmap string (Tensor A)))
    (audio : Audio) (return_tensors : option TensorType) (return_attention_mask : bool)
    : result (gmap string (Tensor A)) :=
  padded_inputs ← prepare audio;
  input_features ←
    match padded_inputs !! "input_features" with
    | Some x => squeeze (-1) x ≫= _ms_extract_fbank_features self
    | None => Raise (KeyError "input_features")
    end;
  let padded_inputs := <["input_features" := input_features]> padded_inputs in
  padded_inputs ←
    (if return_attention_mask then
       match padded_inputs !! "attention_mask" with
       | Some m =>
           m ← stride_dim1 (hop_length self) m;
           Ok (<["attention_mask" := m]> padded_inputs)
       | None => Raise (KeyError "attention_mask")
       end
     else Ok padded_inputs);
  match return_tensors with
  | Some tensor_type => convert_to_tensors tensor_type padded_inputs
  | None => Ok padded_inputs
  end.

End Extractor.

End MusicgenMelody.

(** ** Concrete objects for the examples *)

Module Examples.
Import Ops QScalar.

(** A model whose sub-models do nothing, with room for seven text
    tokens. *)
Definition small_model : Clvp.ClvpModelForConditionalGeneration
    (A := Z) (Cfg := unit) (Dec := unit) (Enc := unit) (Out := unit) :=
  {| Clvp.max_text_tokens := 7;
     Clvp.bos_token_id := 255;
     Clvp.eos_token_id := 0;
     Clvp.prepare_generation_config := λ _, Ok ();
     Clvp.conditioning_encoder := λ _ ids _, Ok (tmap id ids);
     Clvp.speech_decoder_generate := λ _ _, Ok ();
     Clvp.fix_speech_decoder_output := λ _ _, Ok (mkTensor [1%nat; 1%nat] [0]);
     Clvp.speech_encoder_model := λ _ _, Ok ();
     Clvp.text_encoder_model := λ _ _ _, Ok ();
     Clvp.similarity_outputs := λ _ _ _ _ _, Ok () |}.

Definition five_tokens : Tensor Z := mkTensor [1%nat; 5%nat] [11; 12; 13; 14; 15].
Definition four_tokens : Tensor Z := mkTensor [1%nat; 4%nat] [11; 12; 13; 14].

(** A caller without [dict] objects of interest, and callers who hold one
    [dict], named [0]: one with an unknown model type, one with a
    vocabulary size only. *)
Definition no_dicts : nat → gmap string pyobj := λ _, ∅.

Definition siglip_dict : nat → gmap string pyobj :=
  <[0%nat := <["model_type" := PyStr "siglip"]> ∅]> no_dicts.

Definition small_vocabulary_dict : nat → gmap string pyobj :=
  <[0%nat := <["vocab_size" := PyInt 5]> ∅]> no_dicts.

(** A registry with the two default backbones. *)
Definition small_mapping : gmap string (gmap string pyobj → result (gmap string pyobj)) :=
  <["clip_vision_model" := λ kw, Ok kw]> (
  <["llama" := λ kw, Ok (<["vocab_size" := PyInt 32000]> kw)]> ∅).

(** The power [d ** -0.5] of a positive integer, exact on the perfect
    squares. *)
Definition inverse_root (d : Z) : Q := (1 # Pos.sqrt (Z.to_pos d))%Q.

(** A one-head attention module over vectors of size two whose four
    projections are the identity (unit weight matrices, no bias), in
    evaluation mode. *)
Definition small_attention : Clvp.ClvpSelfAttention (A := Q) :=
  {| Clvp.embed_dim := 2;
     Clvp.num_heads := 1;
     Clvp.head_dim := 2;
     Clvp.scale := 1%Q;
     Clvp.dropout_p := (1 # 2)%Q;
     Clvp.training := false;
     Clvp.q_proj := Ok;
     Clvp.k_proj := Ok;
     Clvp.v_proj := Ok;
     Clvp.out_proj := Ok |}.

(** Two tokens of one sequence, a mask that hides the second token from
    the first, and a mask of the wrong shape. *)
Definition two_tokens : Tensor Q := mkTensor [1; 2; 2]%nat [1; 0; 0; 1]%Q.
Definition causal_mask : Tensor Q := mkTensor [1; 1; 2; 2]%nat [0; -1000; 0; 0]%Q.
Definition flat_mask : Tensor Q := mkTensor [2; 2]%nat [0; -1000; 0; 0]%Q.


Definition evaluation_mlp : Clvp.ClvpDecoderMLP (A := Q) :=
  {| Clvp.c_fc := Ok; Clvp.c_proj := Ok; Clvp.act := Ok;
     Clvp.resid_pdrop := (1 # 2)%Q; Clvp.mlp_training := false |}.

(** One query / key / value vector [(5, 0)] at position 0, and the cosine
    and sine tables of the angle whose cosine is 3/5. *)
Definition one_vector : Tensor Q := mkTensor [1; 1; 1; 2]%nat [5; 0]%Q.
Definition cos_table : Tensor Q := mkTensor [1; 2]%nat [3 # 5; 3 # 5]%Q.
Definition sin_table : Tensor Q := mkTensor [1; 2]%nat [4 # 5; 4 # 5]%Q.
Definition position_zero : Tensor Z := mkTensor [1; 1]%nat [0].
Definition unit_angles : Tensor Q := mkTensor [1; 1; 2]%nat [1; 1]%Q.


(** A state vector with one entry beyond the rotary dimension. *)
Definition three_entries : Tensor Q := mkTensor [1; 1; 1; 3]%nat [5; 0; 7]%Q.

(** A chroma filter bank over two frequency bins: chroma [i] weighs the
    first bin by [i] and the second by one. *)
Definition two_bin_filter_bank (sampling_rate num_frequency_bins num_chroma : Z) : Tensor Q :=
  mkTensor [Z.to_nat num_chroma; 2%nat]
    (concat ((λ i, [inject_Z (Z.of_nat i); 1%Q]) <$> seq 0 (Z.to_nat num_chroma))).

(** A power spectrogram of one frame and two bins: the squared sum and the
    squared alternating sum of every waveform, which are the powers of
    its discrete Fourier transform at frequency zero and at the Nyquist
    frequency. *)
Definition two_bin_spectrogram (n_fft hop_length : Z) (w : Tensor Q) : result (Tensor Q) :=
  match shape w with
  | [] => Raise (RuntimeError "Spectrogram: the input has no time dimension")
  | _ =>
      Ok (mkTensor (lead_dims (shape w) ++ [2; 1]%nat)
            (concat ((λ r, let dc := foldr (λ x acc, Qred (x + acc)%Q) 0%Q r in
                           let ny := foldr (λ x acc, Qred (x - acc)%Q) 0%Q r in
                           [Qred (dc * dc)%Q; Qred (ny * ny)%Q]) <$> rows w)))
  end.

(** Two waveforms of four samples, the second one silent. *)
Definition two_waveforms : Tensor Q := mkTensor [2; 4]%nat [1; 1; 1; 0; 0; 0; 0; 0]%Q.

(** Two texts of three tokens, the first one ending in the pad token [0],
    and their attention mask. *)
Definition two_texts : Tensor Z := mkTensor [2; 3]%nat [5; 6; 0; 7; 8; 9].
Definition two_texts_mask : Tensor Z := mkTensor [2; 3]%nat [1; 1; 0; 1; 1; 1].

(** An extractor with a Fourier transform of six samples and a hop of two
    samples. *)
Definition small_extractor : MusicgenMelody.MusicgenMelodyFeatureExtractor (A := Q) :=
  MusicgenMelody.MusicgenMelodyFeatureExtractor_init two_bin_filter_bank two_bin_spectrogram
    12 32000 2 30 6 12.

(** What padding returns for two waveforms of four samples, the second
    one padded by two samples. *)
Definition padded_waveforms : gmap string (Tensor Q) :=
  <["input_features" := mkTensor [2; 4; 1]%nat [1; 1; 1; 0; 0; 0; 0; 0]%Q]> (
  <["attention_mask" := mkTensor [2; 4]%nat [1; 1; 1; 1; 1; 1; 0; 0]%Q]> ∅).

(** A decoder layer around the attention module above, with identity
    normalisations and the feed-forward block in evaluation mode. *)
Definition small_decoder_layer : Clvp.ClvpDecoderLayer (A := Q) :=
  {| Clvp.input_layernorm := Ok;
     Clvp.attn := small_attention;
     Clvp.post_attention_layernorm := Ok;
     Clvp.layer_mlp := evaluation_mlp |}.

(** Two generated sequences of six tokens; the second one holds the stop
    token [9] twice. *)
Definition two_speech_sequences : Tensor Z :=
  mkTensor [2; 6]%nat [0; 1; 2; 3; 4; 5;  0; 1; 9; 3; 9; 5].

(** A gated linear unit whose projection and activation are identities,
    and an input of two rows of four entries. *)
Definition identity_glu : Clvp.ClvpGatedLinearUnit (A := Q) :=
  {| Clvp.activation_fn := Ok; Clvp.proj := Ok |}.

Definition two_rows_of_four : Tensor Q :=
  mkTensor [2; 4]%nat [1; 2; 3; 4;  5; 6; 7; 8]%Q.

(** One text of two tokens, a token embedding of three rows and a
    position embedding of four rows, both of dimension one. *)
Definition one_text : Tensor Z := mkTensor [1; 2]%nat [1; 2].
Definition token_table : Tensor Q := mkTensor [3; 1]%nat [10; 20; 30]%Q.
Definition four_positions : Tensor Q := mkTensor [4; 1]%nat [0; 1; 2; 3]%Q.

(** An encoder layer around the attention module above, with identity
    normalisations and a feed-forward block of the identity gated linear
    unit and an identity output layer, in evaluation mode. *)
Definition small_encoder_layer : Clvp.ClvpEncoderLayer (A := Q) :=
  {| Clvp.self_attn := small_attention;
     Clvp.mlp := {| Clvp.fc1 := identity_glu; Clvp.fc2 := Ok;
                    Clvp.dropout_layer_p := (1 # 2)%Q;
                    Clvp.encoder_mlp_training := false |};
     Clvp.input_rmsnorm := Ok;
     Clvp.post_attention_rmsnorm := Ok |}.

(** The key (and value) states of a cache that holds three positions. *)
Definition three_cached_positions : Tensor Q :=
  mkTensor [1; 1; 3; 2]%nat [1; 0; 0; 1; 1; 1]%Q.

End Examples.

(** * Properties *)

(** ** Facts about the tensor runtime *)

Module OpsFacts.
Import Ops.

Lemma norm_index_nonneg (n i : nat) :
  (i < n)%nat → norm_index n (Z.of_nat i) = Some i.
Proof.
  intros Hi. unfold norm_index. rewrite decide_True by lia. by rewrite Nat2Z.id.
Qed.

Lemma norm_index_last (n : nat) : norm_index (S n) (-1) = Some n.
Proof.
  unfold norm_index. rewrite decide_False by lia. rewrite decide_True by lia.
  f_equal. lia.
Qed.

(** A shape broadcasts to itself against a shape that agrees with it or is
    one in every dimension. *)
Lemma broadcast_rev_onto (a b : list nat) :
  Forall2 (λ x y, y = x ∨ y = 1%nat) a b → broadcast_rev a b = Ok a.
Proof.
  induction 1 as [|x y a b Hxy _ IH]; [done|].
  cbn [broadcast_rev]. rewrite IH. cbn [mbind result_bind].
  destruct (decide (x = y)); [done|].
  destruct Hxy as [->| ->]; [done|].
  rewrite decide_False by done. by rewrite decide_True.
Qed.

(** *** Shapes, chunks and rows *)

Lemma numel_app (a b : list nat) : numel (a ++ b) = (numel a * numel b)%nat.
Proof.
  unfold numel. induction a as [|x a IH]; cbn [app foldr]; [lia|].
  rewrite IH. lia.
Qed.

Lemma numel_cons (x : nat) (a : list nat) : numel (x :: a) = (x * numel a)%nat.
Proof. reflexivity. Qed.

Lemma numel_reverse (a : list nat) : numel (reverse a) = numel a.
Proof.
  induction a as [|x a IH]; [done|].
  rewrite reverse_cons, numel_app, IH. unfold numel. cbn [foldr]. lia.
Qed.

Lemma lead_dims_snoc (l : list nat) (d : nat) : lead_dims (l ++ [d]) = l.
Proof.
  unfold lead_dims. rewrite length_app. cbn.
  replace (length l + 1 - 1)%nat with (length l) by lia.
  by rewrite take_app_length.
Qed.

Lemma last_dim_snoc (l : list nat) (d : nat) : last_dim (l ++ [d]) = d.
Proof. unfold last_dim. by rewrite last_snoc. Qed.

Lemma shape_snoc (s : list nat) : s ≠ [] → s = lead_dims s ++ [last_dim s].
Proof.
  destruct s as [|x s _] using rev_ind; [done|]. intros _.
  by rewrite lead_dims_snoc, last_dim_snoc.
Qed.

Lemma numel_lead_last (s : list nat) : numel s = (numel (lead_dims s) * last_dim s)%nat.
Proof.
  destruct (decide (s = [])) as [->|Hs]; [done|].
  rewrite (shape_snoc s Hs) at 1. rewrite numel_app. unfold numel. cbn [foldr]. lia.
Qed.

Lemma length_lead_dims_snoc (s : list nat) (d : nat) :
  s ≠ [] → length (lead_dims s ++ [d]) = length s.
Proof.
  intros Hs. rewrite (shape_snoc s Hs) at 2. by rewrite !length_app.
Qed.

Lemma chunks_length {X} (n k : nat) (l : list X) : length (chunks n k l) = k.
Proof. revert l. induction k as [|k IH]; intros l; cbn; [done|]. by rewrite IH. Qed.

Lemma chunks_uniform {X} (n k : nat) (l : list X) :
  (k * n ≤ length l)%nat → Forall (λ r, length r = n) (chunks n k l).
Proof.
  revert l. induction k as [|k IH]; intros l Hl; cbn; constructor.
  - rewrite length_take. lia.
  - apply IH. rewrite length_drop. lia.
Qed.

Lemma chunks_concat {X} (n : nat) (ls : list (list X)) :
  Forall (λ r, length r = n) ls → chunks n (length ls) (concat ls) = ls.
Proof.
  induction 1 as [|r ls Hr _ IH]; [done|]. cbn.
  rewrite take_app_length' by done. rewrite drop_app_length' by done.
  by rewrite IH.
Qed.

Lemma chunks_concat_fmap {X Y} (f : X → list Y) (n : nat) (l : list X) :
  Forall (λ x, length (f x) = n) l → chunks n (length l) (concat (f <$> l)) = f <$> l.
Proof.
  intros Hl. rewrite <- (length_fmap f l). by apply chunks_concat, Forall_fmap.
Qed.

Lemma chunks_fmap {X Y} (f : X → Y) (n k : nat) (l : list X) :
  chunks n k (f <$> l) = (λ r : list X, f <$> r) <$> chunks n k l.
Proof.
  revert l. induction k as [|k IH]; intros l; cbn; [done|].
  by rewrite fmap_take, <- fmap_drop, IH.
Qed.

Lemma concat_length_uniform {X} (n : nat) (ls : list (list X)) :
  Forall (λ r, length r = n) ls → length (concat ls) = (length ls * n)%nat.
Proof.
  induction 1 as [|r ls Hr _ IH]; [done|]. cbn. rewrite length_app, IH, Hr. lia.
Qed.

Lemma rows_length {X} (t : Tensor X) : length (rows t) = numel (lead_dims (shape t)).
Proof. apply chunks_length. Qed.

Lemma rows_uniform {X} (t : Tensor X) :
  wf t → Forall (λ r, length r = last_dim (shape t)) (rows t).
Proof.
  intros Hwf. apply chunks_uniform. rewrite Hwf, (numel_lead_last (shape t)). lia.
Qed.

Lemma zip_fmap_same {X Y Y'} (f : X → Y) (g : X → Y') (l : list X) :
  zip (f <$> l) (g <$> l) = (λ x, (f x, g x)) <$> l.
Proof. induction l as [|x l IH]; cbn; [done|]. by rewrite <- IH. Qed.

Lemma zip_with_fmap_same {X Y Y' W} (h : Y → Y' → W) (f : X → Y) (g : X → Y')
    (l : list X) :
  zip_with h (f <$> l) (g <$> l) = (λ x, h (f x) (g x)) <$> l.
Proof. induction l as [|x l IH]; cbn; [done|]. by rewrite <- IH. Qed.

Lemma fmap_concat {X Y} (f : X → Y) (ls : list (list X)) :
  f <$> concat ls = concat ((λ r : list X, f <$> r) <$> ls).
Proof.
  induction ls as [|r ls IH]; cbn; [done|]. by rewrite fmap_app, IH.
Qed.

Lemma shape_last_lookup (s : list nat) :
  s ≠ [] → s !! length (lead_dims s) = Some (last_dim s).
Proof.
  destruct s as [|x s _] using rev_ind; [done|]. intros _.
  rewrite lead_dims_snoc, last_dim_snoc. by apply list_lookup_middle.
Qed.

Lemma length_lead_dims (s : list nat) : s ≠ [] → S (length (lead_dims s)) = length s.
Proof.
  destruct s as [|x s _] using rev_ind; [done|]. intros _.
  rewrite lead_dims_snoc, length_app. cbn. lia.
Qed.

Lemma mapM_Ok {X Y} (f : X → result Y) (g : X → Y) (l : list X) :
  Forall (λ x, f x = Ok (g x)) l → mapM f l = Ok (g <$> l).
Proof.
  induction 1 as [|x l Hx _ IH]; [done|]. cbn. rewrite Hx. cbn. by rewrite IH.
Qed.

Lemma Ok_inj {X} (a b : X) : Ok a = Ok b → a = b.
Proof. by intros [= ->]. Qed.

(** *** Lengths of the results of the kernels *)

Lemma expand_length {X} (src tgt : list nat) :
  Forall2 (λ s t, s = t ∨ s = 1%nat) src tgt →
  ∀ l : list X, length l = numel src → length (expand src tgt l) = numel tgt.
Proof.
  induction 1 as [|s t src tgt Hst _ IH]; intros l Hl; [done|].
  cbn [expand]. rewrite numel_cons in Hl. rewrite numel_cons.
  assert (Forall (λ r : list X, length r = numel tgt)
            (expand src tgt <$> chunks (numel src) s l)) as Hparts.
  { apply Forall_fmap. eapply Forall_impl; [apply chunks_uniform; lia|].
    intros r Hr. by apply IH. }
  assert (length (concat (expand src tgt <$> chunks (numel src) s l))
          = (s * numel tgt)%nat) as Hcat.
  { rewrite (concat_length_uniform _ _ Hparts), length_fmap, chunks_length. lia. }
  destruct (decide (s = t)) as [->|Hne]; [done|].
  destruct Hst as [->| ->]; [done|].
  rewrite (concat_length_uniform (numel tgt)).
  - rewrite length_replicate. lia.
  - apply Forall_replicate. rewrite Hcat. lia.
Qed.

Lemma Forall2_same_shape (s : list nat) : Forall2 (λ s t, s = t ∨ s = 1%nat) s s.
Proof. induction s; constructor; auto. Qed.

Lemma concat_chunks {X} (n k : nat) (l : list X) :
  length l = (k * n)%nat → concat (chunks n k l) = l.
Proof.
  revert l. induction k as [|k IH]; intros l Hl; cbn.
  - by destruct l.
  - rewrite IH by (rewrite length_drop; lia). apply take_drop.
Qed.

(** Operands of one shape are not repeated. *)
Lemma expand_same {X} (s : list nat) :
  ∀ l : list X, length l = numel s → expand s s l = l.
Proof.
  induction s as [|x s IH]; intros l Hl; [done|].
  cbn [expand]. rewrite decide_True by done. rewrite numel_cons in Hl.
  transitivity (concat (chunks (numel s) x l)); [|by apply concat_chunks].
  f_equal. rewrite <- (list_fmap_id (chunks (numel s) x l)) at 2.
  apply Forall_fmap_ext. eapply Forall_impl; [apply chunks_uniform; lia|].
  intros r Hr. by apply IH.
Qed.

Lemma broadcast_shapes_same (s : list nat) : broadcast_shapes s s = Ok s.
Proof.
  unfold broadcast_shapes. rewrite broadcast_rev_onto.
  - cbn. by rewrite reverse_involutive.
  - induction (reverse s); constructor; auto.
Qed.

Lemma binop_same_shape {X Y W} (f : X → Y → W) (a : Tensor X) (b : Tensor Y) :
  shape a = shape b → wf a → wf b →
  binop f a b = Ok (mkTensor (shape a) (zip_with f (data a) (data b))).
Proof.
  intros Hs Ha Hb. unfold binop. rewrite <- Hs, broadcast_shapes_same.
  cbn [mbind result_bind]. unfold pad_shape.
  replace (length (shape a) - length (shape a))%nat with O by lia. cbn [replicate app].
  rewrite !expand_same; [done| |done]. unfold wf in Hb. by rewrite Hs.
Qed.

Section KernelFacts.
Context {A : Type} `{Scalar A}.

Lemma foldr_zip_with_length (f : A → A → A) (p : nat) (z : A) (ls : list (list A)) :
  Forall (λ r, length r = p) ls →
  length (foldr (zip_with f) (replicate p z) ls) = p.
Proof.
  induction 1 as [|r ls Hr _ IH]; cbn [foldr]; [apply length_replicate|].
  rewrite length_zip_with, IH, Hr. lia.
Qed.

Lemma mat_mul_uniform (p : nat) (ra rb : list (list A)) :
  Forall (λ r, length r = p) rb → Forall (λ r, length r = p) (mat_mul p ra rb).
Proof.
  intros Hrb. unfold mat_mul. apply Forall_fmap, Forall_forall. intros row _. cbn.
  apply foldr_zip_with_length.
  revert row. induction Hrb as [|r rb Hr _ IH]; intros [|a row]; cbn; try constructor.
  - by rewrite length_fmap.
  - apply IH.
Qed.

Lemma mat_mul_length (p : nat) (ra rb : list (list A)) :
  length (mat_mul p ra rb) = length ra.
Proof. unfold mat_mul. apply length_fmap. Qed.

(** [einsum("cf, ...ft->...ct")] on a batch of spectrograms. *)
Lemma einsum_cf_ft_batch (w x r : Tensor A) (c f b f' t : nat) :
  shape w = [c; f] → shape x = [b; f'; t] → einsum_cf_ft w x = Ok r →
  shape r = [b; c; t] ∧ (wf x → wf r).
Proof.
  intros Hw Hx. unfold einsum_cf_ft, matmul, ndim. rewrite Hw, Hx. cbn [length].
  rewrite decide_True by lia. cbn [reverse rev_append].
  destruct (decide (f = f')) as [<-|]; [|done].
  cbn [broadcast_rev fmap result_fmap mbind result_bind reverse rev_append length app].
  intros Hr. apply Ok_inj in Hr. subst r.
  split; [done|]. intros Hwf. unfold wf in *. cbn [shape data].
  rewrite Hx in Hwf.
  set (da := expand _ _ (data w)). set (db := expand _ _ (data x)).
  assert (length db = numel [b; f; t]) as Hdb.
  { subst db. apply expand_length; [apply Forall2_same_shape|done]. }
  rewrite (concat_length_uniform (c * t)).
  - rewrite length_zip_with, !chunks_length. unfold numel. cbn [foldr]. lia.
  - apply Forall_forall. intros y Hy.
    apply elem_of_lookup_zip_with in Hy as (i & a' & b' & -> & _ & Hb').
    rewrite (concat_length_uniform t).
    + by rewrite mat_mul_length, chunks_length.
    + apply mat_mul_uniform, chunks_uniform.
      assert (Forall (λ r : list A, length r = (f * t)%nat) (chunks (f * t) (numel [b]) db))
        as Hchunks.
      { apply chunks_uniform. rewrite Hdb. unfold numel. cbn [foldr]. lia. }
      rewrite Forall_lookup in Hchunks. rewrite (Hchunks _ _ Hb'). lia.
Qed.

(** [normalize] keeps the shape and the number of elements. *)
Lemma normalize_inf_mat_uniform (eps : A) (tl : nat) (m : list (list A)) :
  Forall (λ r, length r = tl) m →
  Forall (λ r, length r = tl) (normalize_inf_mat eps tl m)
  ∧ length (normalize_inf_mat eps tl m) = length m.
Proof.
  intros Hm. unfold normalize_inf_mat. split; [|apply length_fmap].
  apply Forall_fmap. eapply Forall_impl; [exact Hm|]. intros r Hr. cbn.
  rewrite length_zip_with, foldr_zip_with_length, Hr; [lia|].
  apply Forall_fmap. eapply Forall_impl; [exact Hm|]. intros r' Hr'. cbn.
  by rewrite length_fmap.
Qed.

Lemma normalize_inf_dim2_keeps (eps : A) (t r : Tensor A) :
  normalize_inf_dim2 eps t = Ok r → shape r = shape t ∧ (wf t → wf r).
Proof.
  unfold normalize_inf_dim2.
  destruct (reverse (shape t)) as [|tl [|c b]] eqn:Hrev; try done.
  intros Hr. apply Ok_inj in Hr. subst r.
  split; [done|]. unfold wf. cbn [shape data]. intros Hwf.
  assert (numel (shape t) = (numel b * (c * tl))%nat) as Hnumel.
  { rewrite <- numel_reverse, Hrev. unfold numel. cbn [foldr]. lia. }
  rewrite (concat_length_uniform (c * tl)).
  - rewrite length_fmap, chunks_length. lia.
  - apply Forall_fmap. eapply Forall_impl; [apply chunks_uniform; lia|].
    intros m Hm. cbn in Hm. cbn.
    destruct (normalize_inf_mat_uniform eps tl (chunks tl c m)) as [Hu Hl].
    { apply chunks_uniform. lia. }
    by rewrite (concat_length_uniform _ _ Hu), Hl, chunks_length.
Qed.

(** [swapaxes(1, 2)] of a tensor of rank three. *)
Lemma swapaxes_1_2_rank3 (t r : Tensor A) (b c tl : nat) :
  shape t = [b; c; tl] → swapaxes 1 2 t = Ok r →
  shape r = [b; tl; c] ∧ (wf t → wf r).
Proof.
  intros Hs. unfold swapaxes, ndim. rewrite Hs. cbn [length].
  replace (norm_index 3 1) with (Some 1%nat)
    by (symmetry; apply (norm_index_nonneg 3 1); lia).
  replace (norm_index 3 2) with (Some 2%nat)
    by (symmetry; apply (norm_index_nonneg 3 2); lia).
  cbn [swap_list lookup list_lookup list_insert insert].
  intros Hr. apply Ok_inj in Hr. subst r.
  split; [done|]. unfold wf. cbn [shape data]. rewrite Hs.
  unfold numel. cbn [foldr]. intros Hwf.
  destruct (data t) as [|d0 d]; cbn [length] in *; [lia|].
  rewrite length_fmap, length_seq. lia.
Qed.

Lemma argmax_from_bound (l : list A) :
  ∀ best_i best i, (best_i < i)%nat → (argmax_from best_i best i l < i + length l)%nat.
Proof.
  induction l as [|x l IH]; intros best_i best i Hi; cbn [argmax_from length]; [lia|].
  destruct (sgtb x best).
  - specialize (IH i x (S i)). lia.
  - specialize (IH best_i best (S i)). lia.
Qed.

Lemma argmax_row_lt (l : list A) : l ≠ [] → (argmax_row l < length l)%nat.
Proof.
  destruct l as [|x l]; [done|]. intros _. cbn [argmax_row length].
  pose proof (argmax_from_bound l 0 x 1). lia.
Qed.

Lemma one_hot_length (n k : nat) : length (one_hot n k) = n.
Proof. unfold one_hot. by rewrite length_insert, length_replicate. Qed.

Lemma one_hot_lookup (n k j : nat) :
  (k < n)%nat → (j < n)%nat →
  one_hot n k !! j = Some (if decide (j = k) then s1 else s0).
Proof.
  intros Hk Hj. unfold one_hot. destruct (decide (j = k)) as [->|Hne].
  - apply list_lookup_insert_eq. by rewrite length_replicate.
  - rewrite list_lookup_insert_ne by done. by apply lookup_replicate_2.
Qed.

Lemma fill_row (v : A) (r : list A) : (λ _, v) <$> r = replicate (length r) v.
Proof. induction r as [|x r IH]; cbn; [done|]. by rewrite IH. Qed.

End KernelFacts.

Lemma bind_Ok {X Y} (m : result X) (f : X → result Y) (y : Y) :
  m ≫= f = Ok y → ∃ x, m = Ok x ∧ f x = Ok y.
Proof. destruct m as [x|e]; [eauto|discriminate]. Qed.

End OpsFacts.

(** ** Group-norm groups *)

Module GroupNorm.
Import Clvp.

(** One iteration of the loop brings a positive [groups] strictly closer
    to one. *)
Lemma halving_decreases (channels groups : Z) :
  0 < groups → channels mod groups ≠ 0 → 0 < groups `quot` 2 < groups.
Proof.
  intros Hpos Hmod.
  assert (groups ≠ 1) by (intros ->; apply Hmod, Z.mod_1_r).
  rewrite Z.quot_div_nonneg by lia.
  split.
  - apply Z.div_str_pos; lia.
  - apply Z.div_lt; lia.
Qed.

(** With more fuel than [log2 groups] the loop ends, on a positive divisor
    of [channels] that is at most the initial [groups]. *)
Lemma halve_until_divides_ends (fuel : nat) :
  ∀ channels groups,
    0 < groups → Z.log2 groups < Z.of_nat fuel →
    ∃ g, halve_until_divides fuel channels groups = Some (Ok g)
         ∧ 0 < g ≤ groups ∧ channels mod g = 0.
Proof.
  induction fuel as [|fuel IH]; intros channels groups Hpos Hlog.
  - pose proof (Z.log2_nonneg groups). lia.
  - cbn [halve_until_divides].
    destruct (decide (groups = 0)) as [->|_]; [lia|].
    destruct (decide (channels mod groups ≠ 0)) as [Hmod|Hmod].
    + destruct (halving_decreases channels groups Hpos Hmod) as [Hq1 Hq2].
      destruct (IH channels (groups `quot` 2)) as (g & Hg & Hrange & Hdiv); [lia| |].
      * rewrite Z.quot_div_nonneg by lia.
        rewrite <- Z.shiftr_div_pow2 with (n := 1) by lia.
        rewrite Z.log2_shiftr by lia.
        assert (groups ≠ 1) by (intros ->; apply Hmod, Z.mod_1_r).
        assert (1 ≤ Z.log2 groups) by (apply Z.log2_le_pow2; simpl; lia).
        lia.
      * exists g. split; [exact Hg|]. split; [lia|exact Hdiv].
    + exists groups. split; [reflexivity|]. split; [lia|].
      destruct (decide (channels mod groups = 0)); [assumption|contradiction].
Qed.

Lemma initial_groups_default (channels : Z) :
  0 < initial_groups channels default_groups ∧
  Z.log2 (initial_groups channels default_groups) ≤ 5.
Proof.
  unfold initial_groups, default_groups.
  repeat case_decide; split; try lia; by vm_compute.
Qed.

(** C9.  For every positive [channels], [compute_groupnorm_groups] called
    with the default [groups] terminates: six iterations of the halving
    loop are enough, every iteration that does not stop strictly decreases
    the positive group count, and the method either returns some [g > 2]
    with [channels % g == 0] or raises [ValueError] because the loop
    stopped on a divisor [g <= 2]. *)
Theorem compute_groupnorm_groups_terminates (channels : Z) (fuel : nat) :
  0 < channels → (6 ≤ fuel)%nat →
  (∀ groups, 0 < groups → channels mod groups ≠ 0 → 0 < groups `quot` 2 < groups)
  ∧ ∃ g, halve_until_divides fuel channels (initial_groups channels default_groups) = Some (Ok g)
         ∧ channels mod g = 0
         ∧ ((2 < g ∧ compute_groupnorm_groups fuel channels default_groups = Some (Ok g))
            ∨ (g ≤ 2 ∧ compute_groupnorm_groups fuel channels default_groups
                         = Some (Raise (ValueError (groups_msg g))))).
Proof.
  intros Hch Hfuel. split; [intros groups; apply halving_decreases|].
  destruct (initial_groups_default channels) as [Hpos Hlog].
  destruct (halve_until_divides_ends fuel channels (initial_groups channels default_groups))
    as (g & Hrun & Hrange & Hdiv); [exact Hpos|lia|].
  exists g. split; [exact Hrun|]. split; [exact Hdiv|].
  unfold compute_groupnorm_groups. cbv zeta. rewrite Hrun.
  destruct (decide (g ≤ 2)); [right|left]; split; auto; lia.
Qed.

Lemma compute_groupnorm_groups_terminates_witness :
  (∀ groups, 0 < groups → 1024 mod groups ≠ 0 → 0 < groups `quot` 2 < groups)
  ∧ ∃ g, halve_until_divides 6 1024 (initial_groups 1024 default_groups) = Some (Ok g)
         ∧ 1024 mod g = 0
         ∧ ((2 < g ∧ compute_groupnorm_groups 6 1024 default_groups = Some (Ok g))
            ∨ (g ≤ 2 ∧ compute_groupnorm_groups 6 1024 default_groups
                         = Some (Raise (ValueError (groups_msg g))))).
Proof. apply (compute_groupnorm_groups_terminates 1024 6); lia. Defined.

(** The two outcomes both occur. *)
Example compute_groupnorm_groups_1024 :
  compute_groupnorm_groups 6 1024 default_groups = Some (Ok 32).
Proof. reflexivity. Qed.

Example compute_groupnorm_groups_6 :
  compute_groupnorm_groups 6 6 default_groups = Some (Raise (ValueError (groups_msg 2))).
Proof. reflexivity. Qed.

Example compute_groupnorm_groups_100 :
  compute_groupnorm_groups 6 100 default_groups = Some (Ok 4).
Proof. reflexivity. Qed.

End GroupNorm.

(** ** Argument checks of the CLVP [forward] methods and of [generate] *)

Module ClvpArguments.
Import Ops Clvp.

Lemma unpack2_not_input_error {X} (t : list X) : ¬ input_error (unpack2 t).
Proof.
  destruct t as [|a [|b [|c t]]]; intros [E|E]; cbn in E; discriminate E.
Qed.

Lemma view_not_ValueError {X} (sizes : list Z) (t : Tensor X) (msg : string) :
  view sizes t ≠ Raise (ValueError msg).
Proof.
  unfold view. repeat (case_decide || case_match); discriminate.
Qed.

Lemma ClvpDecoder_inputs_ids_not_input_error {X} (ids : Tensor Z) :
  ¬ input_error (ClvpDecoder_inputs (A := X) (Some ids) None).
Proof.
  unfold ClvpDecoder_inputs, tuple_last.
  destruct (last (shape ids)) as [n|]; cbn.
  - destruct (view [-1; Z.of_nat n] ids) as [t|e] eqn:Hv; cbn.
    + intros [E|E]; discriminate E.
    + intros [E|E]; injection E as ->; exact (view_not_ValueError _ _ _ Hv).
  - intros [E|E]; discriminate E.
Qed.

(** C1.  In each of [ClvpConditioningEncoder.forward],
    [ClvpEncoder.forward] and [ClvpDecoder.forward]: with both
    [input_ids] and [inputs_embeds] given the call raises [ValueError],
    with neither given it raises [ValueError], and with exactly one given
    the check raises neither of the two errors: the method goes on with
    the branch of the argument that was given. *)
Theorem forward_input_ids_xor_inputs_embeds
    {A Out : Type} (ids : Tensor Z) (emb : Tensor A)
    (rest_c : nat → nat → option (Tensor Z) → result Out)
    (token_embedding : Tensor Z → result (Tensor A))
    (rest_e : list nat → Tensor A → result Out)
    (rest_d : list nat → option (Tensor Z) → option (Tensor A) → result Out) :
  (* both *)
  (ClvpConditioningEncoder_forward rest_c (Some ids) (Some emb) = Raise (ValueError both_msg)
   ∧ ClvpEncoder_forward token_embedding rest_e (Some ids) (Some emb) = Raise (ValueError both_msg)
   ∧ ClvpDecoder_forward rest_d (Some ids) (Some emb) = Raise (ValueError both_msg))
  (* neither *)
  ∧ (ClvpConditioningEncoder_forward (A := A) rest_c None None = Raise (ValueError neither_msg)
     ∧ ClvpEncoder_forward token_embedding rest_e None None = Raise (ValueError neither_msg)
     ∧ ClvpDecoder_forward rest_d None None = Raise (ValueError neither_msg))
  (* only [input_ids] *)
  ∧ (¬ input_error (ClvpConditioningEncoder_text_dims (A := A) (Some ids) None)
     ∧ ClvpConditioningEncoder_forward (A := A) rest_c (Some ids) None
       = ('(batch_size, seq_length) ← unpack2 (shape ids);
          rest_c batch_size seq_length (Some ids))
     ∧ ClvpEncoder_forward token_embedding rest_e (Some ids) None
       = (n ← tuple_last (shape ids);
          input_ids ← view [-1; Z.of_nat n] ids;
          inputs_embeds ← token_embedding input_ids;
          rest_e (shape ids) inputs_embeds)
     ∧ ¬ input_error (ClvpDecoder_inputs (A := A) (Some ids) None)
     ∧ ClvpDecoder_forward (A := A) rest_d (Some ids) None
       = (n ← tuple_last (shape ids);
          input_ids ← view [-1; Z.of_nat n] ids;
          rest_d (shape ids) (Some input_ids) None))
  (* only [inputs_embeds] *)
  ∧ (¬ input_error (ClvpConditioningEncoder_text_dims None (Some emb))
     ∧ ClvpConditioningEncoder_forward rest_c None (Some emb)
       = ('(batch_size, seq_length) ← unpack2 (tuple_init (shape emb));
          rest_c batch_size seq_length None)
     ∧ ClvpEncoder_inputs token_embedding None (Some emb) = Ok (tuple_init (shape emb), emb)
     ∧ ClvpEncoder_forward token_embedding rest_e None (Some emb)
       = rest_e (tuple_init (shape emb)) emb
     ∧ ClvpDecoder_inputs None (Some emb) = Ok (tuple_init (shape emb), None)
     ∧ ClvpDecoder_forward rest_d None (Some emb)
       = rest_d (tuple_init (shape emb)) None (Some emb)).
Proof.
  repeat split; try reflexivity;
    try apply unpack2_not_input_error;
    try apply ClvpDecoder_inputs_ids_not_input_error.
  - unfold ClvpEncoder_forward, ClvpEncoder_inputs.
    destruct (tuple_last (shape ids)) as [n|]; [cbn|done].
    destruct (view [-1; Z.of_nat n] ids) as [t|]; [cbn|done].
    by destruct (token_embedding t).
  - unfold ClvpDecoder_forward, ClvpDecoder_inputs.
    destruct (tuple_last (shape ids)) as [n|]; [cbn|done].
    by destruct (view [-1; Z.of_nat n] ids) as [t|].
Qed.

(** C3.  When [input_ids] has a last dimension of length [n], [generate]
    raises [ValueError] if [n > max_text_tokens - 3], with no stage of the
    model run, and goes on with the body of the method (which starts at
    least one stage) if [n <= max_text_tokens - 3]. *)
Theorem generate_checks_length_first
    {A Cfg Dec Enc Out : Type}
    (self : ClvpModelForConditionalGeneration (A := A) (Cfg := Cfg) (Dec := Dec) (Enc := Enc) (Out := Out))
    (input_ids : Tensor Z) (n : nat)
    (input_features : option (Tensor A)) (attention_mask : option (Tensor Z))
    (generation_config : option Cfg) (pad_to_max_mel_tokens : option Z) :
  size input_ids (-1) = Ok n →
  let run := generate self (Some input_ids) input_features attention_mask
               generation_config pad_to_max_mel_tokens in
  (Z.of_nat n > max_text_tokens self - 3 →
     run = ([], Raise (ValueError (max_length_msg n (max_text_tokens self - 3)))))
  ∧ (Z.of_nat n ≤ max_text_tokens self - 3 →
       run = generate_body self input_ids input_features attention_mask
               generation_config pad_to_max_mel_tokens
       ∧ run.1 ≠ []).
Proof.
  intros Hsize run. subst run. unfold generate. rewrite Hsize. split; intros Hn.
  - by rewrite decide_True.
  - rewrite decide_False by lia. split; [reflexivity|].
    unfold generate_body, Clvp.run.
    destruct (prepare_generation_config self generation_config); [|done].
    by case_match.
Qed.

Lemma generate_checks_length_first_witness :
  generate Examples.small_model (Some Examples.five_tokens) None None None None
    = ([], Raise (ValueError (max_length_msg 5 4)))
  ∧ generate Examples.small_model (Some Examples.four_tokens) None None None None
    = generate_body Examples.small_model Examples.four_tokens None None None None
  ∧ (generate Examples.small_model (Some Examples.four_tokens) None None None None).1 ≠ [].
Proof.
  split.
  - apply (generate_checks_length_first Examples.small_model Examples.five_tokens 5
             None None None None eq_refl). cbn. lia.
  - apply (generate_checks_length_first Examples.small_model Examples.four_tokens 4
             None None None None eq_refl). cbn. lia.
Defined.

End ClvpArguments.

(** ** The Llava configuration *)

Module LlavaChecks.
Import Llava.

(** C2.  [LlavaConfig.__init__] raises [ValueError] when
    [vision_feature_select_strategy] is neither ["default"] nor ["full"]
    (before it touches a [dict] of the caller).  For a value that is one
    of the two, the check passes (the constructor goes on to set its
    attributes), every object it returns has the value unchanged in
    [vision_feature_select_strategy], and it does return an object when
    the backbones and the base class accept their arguments. *)
Theorem LlavaConfig_strategy_checked
    (CONFIG_MAPPING : gmap string (gmap string pyobj → result (gmap string pyobj)))
    (PretrainedConfig_init : gmap string pyobj → result (gmap string pyobj))
    (vision_config text_config : option config_arg)
    (ignore_index image_token_index projector_hidden_act strategy vision_feature_layer : pyobj)
    (kwargs : gmap string pyobj) (dicts : nat → gmap string pyobj) :
  let init := LlavaConfig_init CONFIG_MAPPING PretrainedConfig_init vision_config text_config
                ignore_index image_token_index projector_hidden_act strategy
                vision_feature_layer kwargs dicts in
  (strategy ≠ PyStr "default" → strategy ≠ PyStr "full" →
     init = (Raise (ValueError (strategy_msg strategy)), dicts))
  ∧ (strategy = PyStr "default" ∨ strategy = PyStr "full" →
       init = LlavaConfig_attributes CONFIG_MAPPING PretrainedConfig_init vision_config
                text_config ignore_index image_token_index projector_hidden_act strategy
                vision_feature_layer kwargs dicts
       ∧ (∀ c w, init.1 = Ok (c, w) → vision_feature_select_strategy c = strategy)
       ∧ (∀ v t n b dicts1 dicts2,
            resolve_config CONFIG_MAPPING "clip_vision_model" default_vision_kwargs vision_config
              dicts = (Ok v, dicts1) →
            resolve_config CONFIG_MAPPING "llama" ∅ text_config dicts1 = (Ok t, dicts2) →
            t !! "vocab_size" = Some n →
            PretrainedConfig_init kwargs = Ok b →
            ∃ c w, init = (Ok (c, w), dicts2) ∧ vision_feature_select_strategy c = strategy)).
Proof.
  intros init. subst init. unfold LlavaConfig_init, strategies. split.
  - intros Hd Hf. rewrite decide_True; [done|].
    rewrite !not_elem_of_cons. repeat split; try done. apply not_elem_of_nil.
  - intros Hs. rewrite decide_False by (intros Hn; apply Hn; rewrite !elem_of_cons; tauto).
    split; [done|]. unfold LlavaConfig_attributes. split.
    + intros c w Hinit.
      destruct (resolve_config _ "clip_vision_model" _ _ _) as [[v|] dicts1]; [|done].
      destruct (resolve_config _ "llama" _ _ _) as [[t|] dicts2]; [cbn in Hinit|done].
      destruct (t !! "vocab_size") as [n|]; [cbn in Hinit|done].
      destruct (PretrainedConfig_init kwargs) as [b|]; [cbn in Hinit|done].
      by simplify_eq.
    + intros v t n b dicts1 dicts2 -> -> Hn ->. cbn. rewrite Hn. cbn. eauto.
Qed.

Lemma LlavaConfig_strategy_checked_witness :
  ((LlavaConfig_init Examples.small_mapping Ok None None (PyInt (-100)) (PyInt 32000)
      (PyStr "gelu") (PyStr "pad") (PyInt (-2)) ∅ Examples.no_dicts).1
   = Raise (ValueError (strategy_msg (PyStr "pad"))))
  ∧ ∃ c w, (LlavaConfig_init Examples.small_mapping Ok None None (PyInt (-100)) (PyInt 32000)
              (PyStr "gelu") (PyStr "full") (PyInt (-2)) ∅ Examples.no_dicts).1 = Ok (c, w)
           ∧ vision_feature_select_strategy c = PyStr "full".
Proof.
  split.
  - rewrite (proj1 (LlavaConfig_strategy_checked Examples.small_mapping Ok None None
               (PyInt (-100)) (PyInt 32000) (PyStr "gelu") (PyStr "pad") (PyInt (-2)) ∅
               Examples.no_dicts)); [reflexivity|discriminate..].
  - destruct (proj2 (proj2 (proj2 (LlavaConfig_strategy_checked Examples.small_mapping Ok
                None None (PyInt (-100)) (PyInt 32000) (PyStr "gelu") (PyStr "full")
                (PyInt (-2)) ∅ Examples.no_dicts) (or_intror eq_refl)))
                default_vision_kwargs (<["vocab_size" := PyInt 32000]> ∅) (PyInt 32000) ∅
                Examples.no_dicts Examples.no_dicts eq_refl eq_refl eq_refl eq_refl)
      as (c & w & Hinit & Hstrategy).
    exists c, w. split; [by rewrite Hinit|exact Hstrategy].
Defined.

End LlavaChecks.

(** ** The cache of the rotary positional embedding *)

Module RotaryCache.
Import Ops OpsFacts Clvp QScalar.

Section Cache.
Context {A : Type} `{Scalar A}.

(** Whether the embedding can be computed depends on [inv_freq] alone. *)
Lemma rotary_embeddings_ok (f : Tensor A) (n m : nat) :
  is_ok (rotary_embeddings f n) = true → is_ok (rotary_embeddings f m) = true.
Proof.
  unfold rotary_embeddings, einsum_outer. cbn.
  destruct (shape f) as [|k [|??]]; try done.
  intros _. unfold cat, ndim. cbn [shape length mbind result_bind].
  rewrite (norm_index_last 1). cbn. by rewrite decide_True.
Qed.

Lemma cache_ok_init (f : Tensor A) : cache_ok f (ClvpRotaryPositionalEmbedding_init f).
Proof. by split. Qed.

(** One call from a state that satisfies the invariant returns what the
    cache-free method returns, and keeps the invariant. *)
Lemma forward_step (f : Tensor A) (self : ClvpRotaryPositionalEmbedding) (x : Tensor A) :
  cache_ok f self →
  (ClvpRotaryPositionalEmbedding_forward self x).1 = forward_uncached f x
  ∧ cache_ok f (ClvpRotaryPositionalEmbedding_forward self x).2.
Proof.
  intros [Hf Hc]. unfold ClvpRotaryPositionalEmbedding_forward, forward_uncached.
  destruct (size x 1) as [n|e]; cbn -[rotary_embeddings]; [|by split].
  destruct (cached_rotary_positional_embedding self) as [cached|] eqn:Hcached.
  - destruct Hc as (n0 & Hlen & Hemb).
    destruct (decide (Some n = cached_sequence_length self)) as [Heq|Hne];
      cbn -[rotary_embeddings].
    + assert (n0 = n) as -> by congruence. split; [by rewrite Hemb|].
      split; [done|]. rewrite Hcached. eauto.
    + rewrite Hf.
      destruct (rotary_embeddings f n) as [e|e] eqn:Hn; cbn -[rotary_embeddings].
      * split; [done|]. split; [done|]. cbn -[rotary_embeddings]. eauto.
      * pose proof (rotary_embeddings_ok f n0 n) as Hok.
        rewrite Hemb, Hn in Hok. by specialize (Hok eq_refl).
  - rewrite Hf.
    destruct (rotary_embeddings f n) as [e|e] eqn:Hn; cbn -[rotary_embeddings].
    + split; [done|]. split; [done|]. cbn -[rotary_embeddings]. eauto.
    + split; [done|]. split; [done|]. cbn -[rotary_embeddings]. by rewrite Hcached.
Qed.

Lemma forward_calls_from (f : Tensor A) (inputs : list (Tensor A)) :
  ∀ self, cache_ok f self → forward_calls self inputs = forward_uncached f <$> inputs.
Proof.
  induction inputs as [|x inputs IH]; intros self Hself; [done|].
  cbn [forward_calls fmap list_fmap].
  destruct (forward_step f self x Hself) as [Hres Hnext].
  destruct (ClvpRotaryPositionalEmbedding_forward self x) as [r self'].
  cbn in Hres, Hnext. rewrite Hres. f_equal. by apply IH.
Qed.

(** C8.  For every sequence of calls of
    [ClvpRotaryPositionalEmbedding.forward] on a new object, the result of
    every call is the result of the method without the cache, which
    computes the embedding from [inv_freq] and [hidden_states.shape[1]]
    alone. *)
Theorem rotary_cache_transparent (inv_freq : Tensor A) (inputs : list (Tensor A)) :
  forward_calls (ClvpRotaryPositionalEmbedding_init inv_freq) inputs
  = (λ hidden_states, size hidden_states 1 ≫= rotary_embeddings inv_freq) <$> inputs.
Proof.
  rewrite (forward_calls_from inv_freq); [done|]. apply cache_ok_init.
Qed.

End Cache.

(** Three calls, the second one served from the cache. *)
Example rotary_cache_three_calls :
  let inv_freq := mkTensor [2%nat] [1; 1 # 2]%Q in
  let h2 := mkTensor [1; 2; 1]%nat [0; 0]%Q in
  let h3 := mkTensor [1; 3; 1]%nat [0; 0; 0]%Q in
  forward_calls (ClvpRotaryPositionalEmbedding_init inv_freq) [h2; h2; h3]
  = [Ok (mkTensor [1; 2; 4]%nat [0; 0; 0; 0; 1; 1 # 2; 1; 1 # 2]%Q);
     Ok (mkTensor [1; 2; 4]%nat [0; 0; 0; 0; 1; 1 # 2; 1; 1 # 2]%Q);
     Ok (mkTensor [1; 3; 4]%nat [0; 0; 0; 0; 1; 1 # 2; 1; 1 # 2; 2; 1; 2; 1]%Q)].
Proof. vm_compute. reflexivity. Qed.

End RotaryCache.

(** ** Self-attention: the rotary step, the attention mask, dropout *)

Module Attention.
Import Ops OpsFacts Clvp QScalar.

Section Generic.
Context {A : Type} `{Scalar A}.

Lemma apply_rotary_pos_emb_Ok (q k v cos sin : Tensor A) (position_ids : Tensor Z)
    (unsqueeze_dim : Z) (q' k' v' : Tensor A) :
  apply_rotary_pos_emb q k v cos sin position_ids unsqueeze_dim = Ok (q', k', v') →
  ∃ c s,
    getitem cos position_ids ≫= unsqueeze unsqueeze_dim = Ok c
    ∧ getitem sin position_ids ≫= unsqueeze unsqueeze_dim = Ok s
    ∧ rotary_embed q c s = Ok q'
    ∧ rotary_embed k c s = Ok k'
    ∧ rotary_embed v c s = Ok v'.
Proof.
  unfold apply_rotary_pos_emb. intros Hrun.
  apply bind_Ok in Hrun as (c & Hc & Hrun).
  apply bind_Ok in Hrun as (s & Hs & Hrun).
  apply bind_Ok in Hrun as (q1 & Hq & Hrun).
  apply bind_Ok in Hrun as (k1 & Hk & Hrun).
  apply bind_Ok in Hrun as (v1 & Hv & Hrun).
  exists c, s. by simplify_eq.
Qed.

(** C4, as the code has it.  When the rotary step of
    [ClvpSelfAttention.forward] succeeds, each of the query, key and value
    states is the concatenation of its first [rotary_emb_dim] entries [x]
    turned into [x * cos + rotate_half(x) * sin] and of its remaining
    entries unchanged, with the same [cos] and [sin] (the tables at
    [position_ids]) for all three: the values are rotated like the queries
    and the keys. *)
Theorem rotary_step_rotates_query_key_value
    (rotary_pos_emb : Tensor A) (position_ids : Tensor Z)
    (query_states key_states value_states q' k' v' : Tensor A) :
  rotary_states rotary_pos_emb position_ids query_states key_states value_states
    = Ok (q', k', v') →
  ∃ d c s,
    size rotary_pos_emb (-1) = Ok d
    ∧ (squeeze 0 (cos rotary_pos_emb) ≫= λ t, getitem t position_ids ≫= unsqueeze 1) = Ok c
    ∧ (squeeze 0 (sin rotary_pos_emb) ≫= λ t, getitem t position_ids ≫= unsqueeze 1) = Ok s
    ∧ ∀ x x', (x, x') ∈ [(query_states, q'); (key_states, k'); (value_states, v')] →
        ∃ x_rot x_pass x_cos x_half x_sin x_embed,
          slice_last_to d x = Ok x_rot
          ∧ slice_last_from d x = Ok x_pass
          ∧ mul x_rot c = Ok x_cos
          ∧ rotate_half x_rot = Ok x_half
          ∧ mul x_half s = Ok x_sin
          ∧ add x_cos x_sin = Ok x_embed
          ∧ cat (-1) x_embed x_pass = Ok x'.
Proof.
  unfold rotary_states. intros Hrun.
  apply bind_Ok in Hrun as (d & Hd & Hrun).
  apply bind_Ok in Hrun as (q_rot & Hqr & Hrun).
  apply bind_Ok in Hrun as (q_pass & Hqp & Hrun).
  apply bind_Ok in Hrun as (k_rot & Hkr & Hrun).
  apply bind_Ok in Hrun as (k_pass & Hkp & Hrun).
  apply bind_Ok in Hrun as (v_rot & Hvr & Hrun).
  apply bind_Ok in Hrun as (v_pass & Hvp & Hrun).
  apply bind_Ok in Hrun as (c0 & Hc0 & Hrun).
  apply bind_Ok in Hrun as (s0' & Hs0 & Hrun).
  apply bind_Ok in Hrun as ([[q1 k1] v1] & Hrot & Hrun).
  apply bind_Ok in Hrun as (q2 & Hq2 & Hrun).
  apply bind_Ok in Hrun as (k2 & Hk2 & Hrun).
  apply bind_Ok in Hrun as (v2 & Hv2 & Hrun).
  simplify_eq.
  apply apply_rotary_pos_emb_Ok in Hrot as (c & s & Hc & Hs & Hq & Hk & Hv).
  exists d, c, s. rewrite Hc0, Hs0. cbn [mbind result_bind].
  repeat split; [done..|].
  assert (∀ x x_rot x_pass x_e x',
            slice_last_to d x = Ok x_rot → slice_last_from d x = Ok x_pass →
            rotary_embed x_rot c s = Ok x_e → cat (-1) x_e x_pass = Ok x' →
            ∃ x_rot x_pass x_cos x_half x_sin x_embed,
              slice_last_to d x = Ok x_rot
              ∧ slice_last_from d x = Ok x_pass
              ∧ mul x_rot c = Ok x_cos
              ∧ rotate_half x_rot = Ok x_half
              ∧ mul x_half s = Ok x_sin
              ∧ add x_cos x_sin = Ok x_embed
              ∧ cat (-1) x_embed x_pass = Ok x') as Hone.
  { intros x x_rot x_pass x_e x' Hr Hp He Hcat. unfold rotary_embed in He.
    apply bind_Ok in He as (x_cos & Hxc & He).
    apply bind_Ok in He as (x_half & Hxh & He).
    apply bind_Ok in He as (x_sin & Hxs & He).
    by exists x_rot, x_pass, x_cos, x_half, x_sin, x_e. }
  intros x x' Hin.
  rewrite !elem_of_cons in Hin.
  destruct Hin as [Hin|[Hin|[Hin|Hin]]]; [| | |by apply elem_of_nil in Hin];
    simplify_eq; eauto.
Qed.

Lemma slice_last_to_rows (r : nat) (t : Tensor A) :
  shape t ≠ [] →
  slice_last_to r t = Ok (map_rows (Nat.min r (last_dim (shape t))) (take r) t).
Proof. unfold slice_last_to. by destruct (shape t). Qed.

Lemma slice_last_from_rows (r : nat) (t : Tensor A) :
  shape t ≠ [] →
  slice_last_from r t = Ok (map_rows (last_dim (shape t) - r)%nat (drop r) t).
Proof. unfold slice_last_from. by destruct (shape t). Qed.

(** [rotate_half] row by row: the second half of every row negated, then
    the first half. *)
Lemma rotate_half_rows (x : Tensor A) :
  shape x ≠ [] → wf x →
  rotate_half x
  = Ok (mkTensor (shape x)
          (concat ((λ r, (sneg <$> drop (last_dim (shape x) / 2) r)
                           ++ take (last_dim (shape x) / 2) r) <$> rows x))).
Proof.
  intros Hs Hwf. unfold rotate_half.
  set (d := last_dim (shape x)). set (h := (d / 2)%nat).
  set (lead := lead_dims (shape x)).
  assert (h ≤ d)%nat as Hh.
  { subst h. pose proof (Nat.div_mod_eq d 2). lia. }
  assert (size x (-1) = Ok d) as ->.
  { unfold size, ndim. rewrite <- (length_lead_dims _ Hs), norm_index_last.
    by rewrite shape_last_lookup. }
  cbn [mbind result_bind].
  rewrite slice_last_to_rows, slice_last_from_rows by done.
  cbn [mbind result_bind]. fold d. fold h.
  pose proof (rows_uniform x Hwf) as Hrows. fold d in Hrows.
  unfold cat, ndim, neg, tmap, map_rows. cbn [shape data]. fold lead.
  rewrite length_app. cbn [length]. rewrite Nat.add_1_r, norm_index_last.
  rewrite !list_lookup_middle by done.
  rewrite !take_app_length, !drop_ge by (rewrite length_app; cbn; lia).
  rewrite decide_True by done. change (numel []) with 1%nat.
  rewrite !Nat.mul_1_r. f_equal. f_equal.
  - replace (d - h + h `min` d)%nat with d by lia.
    subst lead d. symmetry. by apply shape_snoc.
  - rewrite fmap_concat, <- list_fmap_compose.
    assert (numel lead = length (rows x)) as -> by (by rewrite rows_length).
    rewrite !chunks_concat_fmap.
    + by rewrite zip_with_fmap_same.
    + eapply Forall_impl; [exact Hrows|].
      intros r Hr. cbn in Hr. rewrite length_take. lia.
    + eapply Forall_impl; [exact Hrows|].
      intros r Hr. cbn in *. rewrite length_fmap, length_drop. lia.
Qed.

(** The rotary embedding of operands of one shape, entry by entry: entry
    [i] of the result is [x_i * cos_i + r_i * sin_i], where [r] is [x]
    with the halves of every row swapped and the second half negated. *)
Lemma rotary_embed_same_shape (x c s : Tensor A) :
  shape x ≠ [] → shape c = shape x → shape s = shape x → wf x → wf c → wf s →
  rotary_embed x c s
  = Ok (mkTensor (shape x)
          (zip_with sadd
             (zip_with smul (data x) (data c))
             (zip_with smul
                (concat ((λ r, (sneg <$> drop (last_dim (shape x) / 2) r)
                                 ++ take (last_dim (shape x) / 2) r) <$> rows x))
                (data s)))).
Proof.
  intros Hs Hc Hss Hx Hwc Hws. unfold rotary_embed, mul, add.
  rewrite (binop_same_shape smul x c) by done. cbn [mbind result_bind].
  rewrite rotate_half_rows by done. cbn [mbind result_bind].
  set (d := last_dim (shape x)) in *. set (h := (d / 2)%nat).
  assert (h ≤ d)%nat as Hh.
  { subst h. pose proof (Nat.div_mod_eq d 2). lia. }
  assert (length (concat ((λ r, (sneg <$> drop h r) ++ take h r) <$> rows x))
          = numel (shape x)) as Hrot.
  { rewrite (concat_length_uniform d).
    - rewrite length_fmap, rows_length, (numel_lead_last (shape x)). done.
    - apply Forall_fmap. eapply Forall_impl; [exact (rows_uniform x Hx)|].
      intros r Hr. cbn. rewrite length_app, length_fmap, length_drop, length_take.
      cbn in Hr. fold d in Hr. lia. }
  rewrite (binop_same_shape smul) by done. cbn [mbind result_bind shape data].
  rewrite (binop_same_shape sadd); [done|done| |].
  - unfold wf in *. cbn [shape data]. rewrite length_zip_with, Hx, Hwc, Hc. lia.
  - unfold wf in *. cbn [shape data]. rewrite length_zip_with, Hrot, Hws, Hss. lia.
Qed.


(** C5.  When [ClvpSelfAttention.forward] has computed the attention
    weights (state [st]) and is given an attention mask: if the shape of
    the mask is not [(bsz, 1, tgt_len, src_len)] the call raises
    [ValueError]; if it is, the mask is added to the attention weights and
    the softmax is taken of the sum, and the sum exists whenever the
    weights have shape [(bsz, heads, tgt_len, src_len)]. *)
Theorem attention_mask_shape_checked
    (self : ClvpSelfAttention) (rng : nat → bool) (hidden_states : Tensor A)
    (rotary_pos_emb : option (Tensor A)) (attention_mask : Tensor A)
    (position_ids : option (Tensor Z)) (past_key_value : option (Tensor A * Tensor A))
    (use_cache : bool) (head_mask : option (Tensor A)) (output_attentions : bool)
    (st : AttentionStates) :
  attention_states self hidden_states rotary_pos_emb position_ids past_key_value use_cache
    = Ok st →
  let expected := [st_bsz st; 1%nat; st_tgt_len st; st_src_len st] in
  let forward := ClvpSelfAttention_forward self rng hidden_states rotary_pos_emb
                   (Some attention_mask) position_ids past_key_value use_cache
                   head_mask output_attentions in
  (shape attention_mask ≠ expected →
     forward = Raise (ValueError (mask_size_msg (st_bsz st) (st_tgt_len st) (st_src_len st)
                                    (shape attention_mask))))
  ∧ (shape attention_mask = expected →
       forward = (attn_weights ← add (st_attn_weights st) attention_mask;
                  attention_output self rng st (softmax_last attn_weights)
                    head_mask output_attentions)
       ∧ ∀ heads, shape (st_attn_weights st) = [st_bsz st; heads; st_tgt_len st; st_src_len st] →
           ∃ sum, add (st_attn_weights st) attention_mask = Ok sum
                  ∧ shape sum = shape (st_attn_weights st)).
Proof.
  intros Hst expected forward. subst expected forward.
  unfold ClvpSelfAttention_forward. rewrite Hst. cbn [mbind result_bind].
  unfold apply_attention_mask. split; intros Hshape.
  - by rewrite decide_True.
  - rewrite decide_False by (by intros ?). split; [done|].
    intros heads Hw. unfold add, binop, broadcast_shapes. rewrite Hw, Hshape.
    cbn [reverse rev_append].
    rewrite broadcast_rev_onto by (repeat constructor; auto).
    cbn. eauto.
Qed.







End Generic.

(** *** On concrete tensors *)

(** [rotate_half] of the row [(1, 2, 3, 4)]. *)
Example rotate_half_1_2_3_4 :
  rotate_half (mkTensor [1; 4]%nat [1; 2; 3; 4]%Q)
  = Ok (mkTensor [1; 4]%nat [-3; -4; 1; 2]%Q).
Proof. vm_compute. reflexivity. Qed.

(** The rotary embedding of the vector [(5, 0)] with cosine 3/5 and sine
    4/5 is [(3, 4)], for the values as for the queries and the keys. *)
Example apply_rotary_pos_emb_3_4 :
  apply_rotary_pos_emb Examples.one_vector Examples.one_vector Examples.one_vector
    Examples.cos_table Examples.sin_table Examples.position_zero 1
  = Ok (mkTensor [1; 1; 1; 2]%nat [3; 4]%Q,
        mkTensor [1; 1; 1; 2]%nat [3; 4]%Q,
        mkTensor [1; 1; 1; 2]%nat [3; 4]%Q).
Proof. vm_compute. reflexivity. Qed.

(** C4 as stated fails: the values do not pass through
    [apply_rotary_pos_emb] unchanged.  With cosine 3/5 and sine 4/5 the
    value vector [(5, 0)] comes back as [(3, 4)]. *)
Lemma values_do_not_pass_unchanged :
  let rotated := mkTensor [1; 1; 1; 2]%nat [3; 4]%Q in
  apply_rotary_pos_emb Examples.one_vector Examples.one_vector Examples.one_vector
    Examples.cos_table Examples.sin_table Examples.position_zero 1
  = Ok (rotated, rotated, rotated)
  ∧ rotated ≠ Examples.one_vector.
Proof. split; [vm_compute; reflexivity|discriminate]. Qed.

Lemma rotary_step_rotates_query_key_value_witness :
  ∃ d c s,
    size Examples.unit_angles (-1) = Ok d
    ∧ (squeeze 0 (cos Examples.unit_angles)
         ≫= λ t, getitem t Examples.position_zero ≫= unsqueeze 1) = Ok c
    ∧ (squeeze 0 (sin Examples.unit_angles)
         ≫= λ t, getitem t Examples.position_zero ≫= unsqueeze 1) = Ok s
    ∧ ∀ x x', (x, x') ∈ [(Examples.three_entries, mkTensor [1; 1; 1; 3]%nat [3; 4; 7]%Q);
                          (Examples.three_entries, mkTensor [1; 1; 1; 3]%nat [3; 4; 7]%Q);
                          (Examples.three_entries, mkTensor [1; 1; 1; 3]%nat [3; 4; 7]%Q)] →
        ∃ x_rot x_pass x_cos x_half x_sin x_embed,
          slice_last_to d x = Ok x_rot
          ∧ slice_last_from d x = Ok x_pass
          ∧ mul x_rot c = Ok x_cos
          ∧ rotate_half x_rot = Ok x_half
          ∧ mul x_half s = Ok x_sin
          ∧ add x_cos x_sin = Ok x_embed
          ∧ cat (-1) x_embed x_pass = Ok x'.
Proof.
  apply (rotary_step_rotates_query_key_value Examples.unit_angles Examples.position_zero
           Examples.three_entries Examples.three_entries Examples.three_entries).
  vm_compute. reflexivity.
Defined.

Lemma attention_mask_shape_checked_witness :
  ∃ st,
    attention_states Examples.small_attention Examples.two_tokens None None None false = Ok st
    ∧ ClvpSelfAttention_forward Examples.small_attention (λ _, true) Examples.two_tokens
        None (Some Examples.flat_mask) None None false None true
      = Raise (ValueError "Attention mask should be of size (1, 1, 2, 2), but is (2, 2)")
    ∧ ClvpSelfAttention_forward Examples.small_attention (λ _, true) Examples.two_tokens
        None (Some Examples.causal_mask) None None false None true
      = (attn_weights ← add (st_attn_weights st) Examples.causal_mask;
         attention_output Examples.small_attention (λ _, true) st
           (softmax_last attn_weights) None true).
Proof.
  eexists. split; [vm_compute; reflexivity|].
  split.
  - refine (proj1 (attention_mask_shape_checked Examples.small_attention (λ _, true)
                     Examples.two_tokens None Examples.flat_mask None None false None true
                     _ eq_refl) _).
    vm_compute. discriminate.
  - refine (proj1 (proj2 (attention_mask_shape_checked Examples.small_attention (λ _, true)
                     Examples.two_tokens None Examples.causal_mask None None false None true
                     _ eq_refl) _)).
    vm_compute. reflexivity.
Defined.



End Attention.

(** ** The chroma features of Musicgen Melody *)

Module Chroma.
Import Ops OpsFacts MusicgenMelody QScalar.

Section Extractor.
Context {A : Type} `{Scalar A}.

(** Padding a waveform that is too short keeps its rank. *)
Lemma pad_last_ndim (l r : nat) (v : A) (t t' : Tensor A) :
  pad_last l r v t = Ok t' → ndim t' = ndim t.
Proof.
  unfold pad_last, ndim. destruct (shape t) as [|x s] eqn:Hs; [done|].
  intros Ht. apply Ok_inj in Ht. subst t'. unfold map_rows. cbn [shape].
  rewrite Hs. by apply length_lead_dims_snoc.
Qed.

(** The normalised chroma of a batch of waveforms has the shape
    [(batch, time, chroma)], and as many elements as its shape says when
    the spectrogram has. *)
Lemma normalised_chroma_shape (self : MusicgenMelodyFeatureExtractor)
    (waveform norm : Tensor A) (c f : nat) :
  shape (chroma_filters self) = [c; f] →
  (∀ w s, spectrogram self w = Ok s → ndim s = S (ndim w)) →
  ndim waveform = 2%nat →
  normalised_chroma self waveform = Ok norm →
  ∃ b t, shape norm = [b; t; c]
         ∧ ((∀ w s, spectrogram self w = Ok s → wf s) → wf norm).
Proof.
  intros Hcf Hspec Hrank. unfold normalised_chroma. intros Hrun.
  apply bind_Ok in Hrun as (wav_length & _ & Hrun).
  apply bind_Ok in Hrun as (padded & Hpad & Hrun).
  apply bind_Ok in Hrun as (spec & Hs & Hrun).
  apply bind_Ok in Hrun as (raw & Hraw & Hrun).
  apply bind_Ok in Hrun as (normed & Hnormed & Hrun).
  assert (ndim padded = 2%nat) as Hprank.
  { case_decide; [|by apply Ok_inj in Hpad; subst].
    by rewrite (pad_last_ndim _ _ _ _ _ Hpad). }
  pose proof (Hspec _ _ Hs) as Hsrank. rewrite Hprank in Hsrank.
  unfold ndim in Hsrank.
  destruct (shape spec) as [|b [|f' [|t [|??]]]] eqn:Hshape; try done.
  destruct (einsum_cf_ft_batch _ _ _ _ _ _ _ _ Hcf Hshape Hraw) as [Hrs Hrw].
  destruct (normalize_inf_dim2_keeps _ _ _ Hnormed) as [Hns Hnw].
  rewrite Hrs in Hns.
  destruct (swapaxes_1_2_rank3 _ _ _ _ _ Hns Hrun) as [Hfinal Hfw].
  exists b, t. split; [done|]. intros Hwf. eauto.
Qed.

(** The last step keeps the shape. *)
Lemma one_hot_of_max_shape (norm feats : Tensor A) :
  one_hot_of_max norm = Ok feats → shape feats = shape norm.
Proof.
  unfold one_hot_of_max. intros Hrun.
  apply bind_Ok in Hrun as (idx & _ & Hrun).
  unfold scatter_last in Hrun. case_decide; [|done].
  apply bind_Ok in Hrun as (rs & _ & Hrun).
  apply Ok_inj in Hrun. by subst feats.
Qed.

(** The last step on a well-formed tensor with a non-empty last
    dimension: every row becomes the one-hot row of its first greatest
    entry. *)
Lemma one_hot_of_max_rows (norm : Tensor A) :
  wf norm → shape norm ≠ [] → last_dim (shape norm) ≠ O →
  one_hot_of_max norm
  = Ok (mkTensor (shape norm)
          (concat ((λ r, one_hot (length r) (argmax_row r)) <$> rows norm))).
Proof.
  intros Hwf Hs Hd. unfold one_hot_of_max, argmax_last_keepdims.
  destruct (shape norm) as [|x s] eqn:Hshape; [done|]. rewrite <- Hshape in *.
  rewrite decide_False by done. cbn [mbind result_bind].
  set (idx := map_rows 1 _ norm).
  assert (rows idx = (λ r, [Z.of_nat (argmax_row r)]) <$> rows norm) as Hidx.
  { unfold rows at 1. subst idx. unfold map_rows. cbn [shape data].
    rewrite lead_dims_snoc, last_dim_snoc, <- (rows_length norm).
    rewrite <- (length_fmap (λ r, [Z.of_nat (argmax_row r)]) (rows norm)).
    apply chunks_concat, Forall_fmap, Forall_forall. by intros. }
  assert (rows (fill s0 norm) = (λ r : list A, (λ _, s0) <$> r) <$> rows norm) as Hfill.
  { unfold rows, fill, tmap. cbn [shape data]. apply chunks_fmap. }
  assert (rows (tmap (λ _, s1) idx) = (λ r : list A, [s1]) <$> rows norm) as Hsrc.
  { unfold rows at 1, tmap. cbn [shape data]. rewrite chunks_fmap.
    fold (rows idx). rewrite Hidx, <- list_fmap_compose. done. }
  unfold scatter_last. rewrite decide_True; last first.
  { subst idx. unfold map_rows, fill, tmap, ndim. cbn [shape].
    rewrite lead_dims_snoc. repeat split; [done..|].
    by apply length_lead_dims_snoc. }
  rewrite Hfill, Hidx, Hsrc.
  rewrite !zip_fmap_same.
  rewrite (mapM_Ok _ (λ p, one_hot (length p.1.1) (Z.to_nat (default 0 (head p.1.2))))).
  - cbn [mbind result_bind fill tmap shape]. do 3 f_equal.
    rewrite <- list_fmap_compose. apply list_fmap_ext. intros i r _. cbn.
    by rewrite length_fmap, Nat2Z.id.
  - apply Forall_fmap, Forall_forall. intros r Hr. cbn.
    pose proof (rows_uniform norm Hwf) as Hrows. rewrite Forall_forall in Hrows.
    specialize (Hrows r Hr).
    assert (r ≠ []) as Hne by (intros ->; cbn in Hrows; lia).
    pose proof (argmax_row_lt r Hne) as Hlt.
    unfold scatter_row. cbn. rewrite decide_True by (rewrite length_fmap; lia).
    rewrite Nat2Z.id, length_fmap. unfold one_hot. by rewrite fill_row.
Qed.

(** C10.  For a batch of waveforms whose normalised chroma [norm] (shape
    [(batch, time, chroma)]) has been computed: the features returned by
    [_ms_extract_fbank_features] have the shape of [norm], and their frame
    [i] is the one-hot row of the first greatest entry of frame [i] of
    [norm]: one at that position and zero at every other.  With at least
    one chroma bin the features are returned. *)
Theorem chroma_frames_are_one_hot (self : MusicgenMelodyFeatureExtractor)
    (waveform norm : Tensor A) (c f : nat) :
  shape (chroma_filters self) = [c; f] →
  (∀ w s, spectrogram self w = Ok s → ndim s = S (ndim w) ∧ wf s) →
  ndim waveform = 2%nat →
  normalised_chroma self waveform = Ok norm →
  (c ≠ O → is_ok (_ms_extract_fbank_features self waveform) = true)
  ∧ ∀ feats, _ms_extract_fbank_features self waveform = Ok feats →
      shape feats = shape norm
      ∧ length (rows feats) = length (rows norm)
      ∧ ∀ i frame, rows norm !! i = Some frame →
          length frame = c
          ∧ (argmax_row frame < c)%nat
          ∧ rows feats !! i = Some (one_hot c (argmax_row frame))
          ∧ ∀ j, (j < c)%nat →
              one_hot c (argmax_row frame) !! j
              = Some (if decide (j = argmax_row frame) then s1 else s0).
Proof.
  intros Hcf Hspec Hrank Hnorm.
  destruct (normalised_chroma_shape self waveform norm c f Hcf) as (b & t & Hshape & Hwf);
    [intros w s Hs; by apply Hspec|done|done|].
  specialize (Hwf (λ w s Hs, proj2 (Hspec w s Hs))).
  unfold _ms_extract_fbank_features. rewrite Hnorm. cbn [mbind result_bind].
  assert (last_dim (shape norm) = c) as Hlast by (by rewrite Hshape).
  destruct (decide (c = O)) as [Hc|Hc].
  - split; [done|]. intros feats.
    unfold one_hot_of_max, argmax_last_keepdims. rewrite Hshape at 1.
    rewrite decide_True by congruence. done.
  - rewrite one_hot_of_max_rows by (rewrite ?Hshape; congruence).
    split; [done|]. intros feats Hfeats. apply Ok_inj in Hfeats. subst feats.
    cbn [shape]. split; [done|].
    pose proof (rows_uniform norm Hwf) as Hrows. rewrite Hlast in Hrows.
    assert (rows (mkTensor (shape norm)
                    (concat ((λ r, one_hot (length r) (argmax_row r)) <$> rows norm)))
            = (λ r, one_hot (length r) (argmax_row r)) <$> rows norm) as Hout.
    { unfold rows at 1. cbn [shape data]. rewrite Hlast, <- (rows_length norm).
      rewrite <- (length_fmap (λ r, one_hot (length r) (argmax_row r)) (rows norm)).
      apply chunks_concat, Forall_fmap. eapply Forall_impl; [exact Hrows|].
      intros r Hr. cbn. by rewrite one_hot_length. }
    rewrite Hout. split; [by rewrite length_fmap|].
    intros i frame Hframe.
    rewrite Forall_lookup in Hrows. pose proof (Hrows _ _ Hframe) as Hlen. cbn in Hlen.
    assert (argmax_row frame < c)%nat as Hlt.
    { rewrite <- Hlen. apply argmax_row_lt. intros ->. cbn in Hlen. lia. }
    repeat split; [done|done| |].
    + by rewrite list_lookup_fmap, Hframe, <- Hlen.
    + intros j Hj. by apply one_hot_lookup.
Qed.

End Extractor.

Section DefaultConfiguration.
Context {A : Type} `{Scalar A}.

(** The chroma filter bank of [audio_utils] and the [Spectrogram]
    transform of the runtime: the filter bank has one row per chroma bin,
    and the spectrogram puts a frequency dimension before the time
    dimension of its input. *)
Variable chroma_filter_bank : Z → Z → Z → Tensor A.
Variable Spectrogram : Z → Z → Tensor A → result (Tensor A).

Hypothesis chroma_filter_bank_rows :
  ∀ sampling_rate num_frequency_bins num_chroma,
    ∃ f, shape (chroma_filter_bank sampling_rate num_frequency_bins num_chroma)
         = [Z.to_nat num_chroma; f].

Hypothesis Spectrogram_ndim :
  ∀ n_fft hop_length w s, Spectrogram n_fft hop_length w = Ok s → ndim s = S (ndim w).

(** C7.  With the default arguments of [__init__], the features that
    [_ms_extract_fbank_features] returns for a batch of waveforms have the
    shape [(batch, time, 12)]; so has the field [input_features] of what
    [__call__] returns, when the padded input is a batch of mono waveforms
    and the conversion of the batch keeps the shapes. *)
Theorem default_extractor_twelve_chroma_bins :
  let self := default_extractor chroma_filter_bank Spectrogram in
  (∀ waveform feats,
     ndim waveform = 2%nat →
     _ms_extract_fbank_features self waveform = Ok feats →
     ∃ b t, shape feats = [b; t; 12%nat])
  ∧ (∀ (Audio TensorType : Type)
       (prepare : Audio → result (gmap string (Tensor A)))
       (convert_to_tensors : TensorType → gmap string (Tensor A) → result (gmap string (Tensor A)))
       (audio : Audio) (return_tensors : option TensorType) (return_attention_mask : bool)
       (out : gmap string (Tensor A)) (feats : Tensor A),
       (∀ m x, prepare audio = Ok m → m !! "input_features" = Some x →
               ∃ b l, shape x = [b; l; 1%nat]) →
       (∀ tt m m', convert_to_tensors tt m = Ok m' →
                   ∀ key, shape <$> (m' !! key) = shape <$> (m !! key)) →
       MusicgenMelodyFeatureExtractor_call self prepare convert_to_tensors audio
         return_tensors return_attention_mask = Ok out →
       out !! "input_features" = Some feats →
       ∃ b t, shape feats = [b; t; 12%nat]).
Proof.
  intros self.
  assert (∀ waveform feats,
            ndim waveform = 2%nat →
            _ms_extract_fbank_features self waveform = Ok feats →
            ∃ b t, shape feats = [b; t; 12%nat]) as Hextract.
  { intros waveform feats Hrank Hrun. unfold _ms_extract_fbank_features in Hrun.
    apply bind_Ok in Hrun as (norm & Hnorm & Hrun).
    destruct (chroma_filter_bank_rows 32000 16384 12) as [f Hf].
    destruct (normalised_chroma_shape self waveform norm 12 f) as (b & t & Hshape & _);
      [exact Hf|intros w s; apply Spectrogram_ndim|done|done|].
    exists b, t. by rewrite (one_hot_of_max_shape _ _ Hrun). }
  split; [exact Hextract|].
  intros Audio TensorType prepare convert audio rt ram out feats Hprep Hconv Hcall Hout.
  unfold MusicgenMelodyFeatureExtractor_call in Hcall.
  apply bind_Ok in Hcall as (padded & Hpadded & Hcall).
  apply bind_Ok in Hcall as (feats0 & Hfeats0 & Hcall).
  apply bind_Ok in Hcall as (padded' & Hpadded' & Hcall).
  destruct (padded !! "input_features") as [x|] eqn:Hx; [|done].
  destruct (Hprep _ _ Hpadded Hx) as (b0 & l0 & Hxs).
  apply bind_Ok in Hfeats0 as (squeezed & Hsq & Hfeats0).
  assert (ndim squeezed = 2%nat) as Hrank.
  { unfold squeeze, ndim in Hsq. rewrite Hxs in Hsq. cbn [length] in Hsq.
    rewrite (norm_index_last 2) in Hsq. cbn in Hsq.
    apply Ok_inj in Hsq. by subst squeezed. }
  destruct (Hextract _ _ Hrank Hfeats0) as (b & t & Hshape).
  assert (padded' !! "input_features" = Some feats0) as Hkept.
  { destruct ram.
    - destruct (_ !! "attention_mask") as [m|]; [|done].
      apply bind_Ok in Hpadded' as (m' & _ & Hpadded').
      apply Ok_inj in Hpadded'. subst padded'.
      rewrite lookup_insert_ne by done. apply lookup_insert_eq.
    - apply Ok_inj in Hpadded'. subst padded'. apply lookup_insert_eq. }
  exists b, t. destruct rt as [tt|].
  - pose proof (Hconv _ _ _ Hcall "input_features") as Hsame.
    rewrite Hout, Hkept in Hsame. cbn in Hsame. congruence.
  - apply Ok_inj in Hcall. subst out. congruence.
Qed.

End DefaultConfiguration.

(** *** On two concrete waveforms *)

Lemma two_bin_filter_bank_rows (sampling_rate num_frequency_bins num_chroma : Z) :
  ∃ f, shape (Examples.two_bin_filter_bank sampling_rate num_frequency_bins num_chroma)
       = [Z.to_nat num_chroma; f].
Proof. by exists 2%nat. Qed.

Lemma two_bin_spectrogram_ndim (n_fft hop_length : Z) (w s : Tensor Q) :
  Examples.two_bin_spectrogram n_fft hop_length w = Ok s → ndim s = S (ndim w).
Proof.
  unfold Examples.two_bin_spectrogram, ndim.
  destruct (shape w) as [|x l] eqn:Hw; [done|].
  intros Hs. apply Ok_inj in Hs. subst s. cbn [shape].
  change [2%nat; 1%nat] with ([2%nat] ++ [1%nat]).
  rewrite app_assoc, length_app, length_lead_dims_snoc by done. cbn. lia.
Qed.

Lemma two_bin_spectrogram_wf (n_fft hop_length : Z) (w s : Tensor Q) :
  Examples.two_bin_spectrogram n_fft hop_length w = Ok s → wf s.
Proof.
  unfold Examples.two_bin_spectrogram, wf.
  destruct (shape w) as [|x l] eqn:Hw; [done|]. rewrite <- Hw.
  intros Hs. apply Ok_inj in Hs. subst s. cbn [shape data].
  rewrite (concat_length_uniform 2).
  - rewrite length_fmap, rows_length, numel_app. unfold numel. cbn [foldr]. lia.
  - apply Forall_fmap, Forall_forall. by intros.
Qed.

(** The features of the two waveforms: the first one has its greatest
    chroma in the last bin, the silent one in the first (all its chroma
    are equal). *)
Example two_waveforms_features :
  _ms_extract_fbank_features
    (default_extractor Examples.two_bin_filter_bank Examples.two_bin_spectrogram)
    Examples.two_waveforms
  = Ok (mkTensor [2; 1; 12]%nat
          [0; 0; 0; 0; 0; 0; 0; 0; 0; 0; 0; 1;
           1; 0; 0; 0; 0; 0; 0; 0; 0; 0; 0; 0]%Q).
Proof. vm_compute. reflexivity. Qed.

Lemma default_extractor_twelve_chroma_bins_witness :
  ∃ feats,
    _ms_extract_fbank_features
      (default_extractor Examples.two_bin_filter_bank Examples.two_bin_spectrogram)
      Examples.two_waveforms = Ok feats
    ∧ ∃ b t, shape feats = [b; t; 12%nat].
Proof.
  eexists. split; [vm_compute; reflexivity|].
  apply (proj1 (default_extractor_twelve_chroma_bins
                  Examples.two_bin_filter_bank Examples.two_bin_spectrogram
                  two_bin_filter_bank_rows two_bin_spectrogram_ndim)
           Examples.two_waveforms).
  - reflexivity.
  - vm_compute. reflexivity.
Defined.

Lemma chroma_frames_are_one_hot_witness :
  let self := default_extractor Examples.two_bin_filter_bank Examples.two_bin_spectrogram in
  ∃ norm,
    normalised_chroma self Examples.two_waveforms = Ok norm
    ∧ (12%nat ≠ O → is_ok (_ms_extract_fbank_features self Examples.two_waveforms) = true)
    ∧ ∀ feats, _ms_extract_fbank_features self Examples.two_waveforms = Ok feats →
        shape feats = shape norm
        ∧ length (rows feats) = length (rows norm)
        ∧ ∀ i frame, rows norm !! i = Some frame →
            length frame = 12%nat
            ∧ (argmax_row frame < 12)%nat
            ∧ rows feats !! i = Some (one_hot 12 (argmax_row frame))
            ∧ ∀ j, (j < 12)%nat →
                one_hot 12 (argmax_row frame) !! j
                = Some (if decide (j = argmax_row frame) then 1%Q else 0%Q).
Proof.
  intros self. eexists. split; [vm_compute; reflexivity|].
  refine (chroma_frames_are_one_hot self Examples.two_waveforms _ 12 2 eq_refl
            (λ w s Hs, conj (two_bin_spectrogram_ndim _ _ _ _ Hs)
                            (two_bin_spectrogram_wf _ _ _ _ Hs))
            eq_refl _).
  vm_compute. reflexivity.
Defined.

End Chroma.

(** ** Rows of rank-two tensors *)

Module TensorRows.
Import Ops OpsFacts.

Lemma rows_rank2 {X} (t : Tensor X) (n0 n1 : nat) :
  shape t = [n0; n1] → rows t = chunks n1 n0 (data t).
Proof.
  intros Hs. unfold rows. rewrite Hs. unfold lead_dims, last_dim, numel. cbn.
  by rewrite Nat.mul_1_r.
Qed.

Lemma size_rank2 {X} (t : Tensor X) (n0 n1 : nat) :
  shape t = [n0; n1] → size t 0 = Ok n0 ∧ size t 1 = Ok n1 ∧ ndim t = 2%nat.
Proof. intros Hs. unfold size, ndim. rewrite Hs. by cbn. Qed.

Lemma rows_map_rows {X Y} (d' : nat) (f : list X → list Y) (t : Tensor X) :
  Forall (λ r, length (f r) = d') (rows t) →
  rows (map_rows d' f t) = f <$> rows t.
Proof.
  intros Hf. unfold rows at 1, map_rows. cbn [shape data].
  rewrite lead_dims_snoc, last_dim_snoc, <- (rows_length t).
  by apply chunks_concat_fmap.
Qed.

Lemma wf_map_rows {X Y} (d' : nat) (f : list X → list Y) (t : Tensor X) :
  Forall (λ r, length (f r) = d') (rows t) →
  wf (map_rows d' f t).
Proof.
  intros Hf. unfold wf, map_rows. cbn [shape data].
  rewrite (concat_length_uniform d').
  - rewrite length_fmap, rows_length, numel_app. unfold numel. cbn [foldr]. lia.
  - by apply Forall_fmap.
Qed.

(** A tensor of shape [(n0, d)] built from [n0] rows of length [d]. *)
Lemma rows_of_concat {X} (n0 d : nat) (ls : list (list X)) :
  length ls = n0 → Forall (λ r, length r = d) ls →
  wf (mkTensor [n0; d] (concat ls)) ∧ rows (mkTensor [n0; d] (concat ls)) = ls.
Proof.
  intros Hn Hd. split.
  - unfold wf. cbn [shape data]. rewrite (concat_length_uniform d) by done.
    unfold numel. cbn. lia.
  - rewrite (rows_rank2 _ n0 d) by done. cbn [data]. rewrite <- Hn.
    by apply chunks_concat.
Qed.

Lemma length_rows_rank2 {X} (t : Tensor X) (n0 n1 : nat) :
  shape t = [n0; n1] → length (rows t) = n0.
Proof.
  intros Hs. rewrite rows_length, Hs. unfold lead_dims, numel. cbn. lia.
Qed.

Lemma rows_uniform_rank2 {X} (t : Tensor X) (n0 n1 : nat) :
  shape t = [n0; n1] → wf t → Forall (λ r, length r = n1) (rows t).
Proof.
  intros Hs Hwf. pose proof (rows_uniform t Hwf) as Hr. by rewrite Hs in Hr.
Qed.

Lemma pad_last_rank2 {X} (l r : nat) (v : X) (t : Tensor X) (n0 n1 : nat) :
  shape t = [n0; n1] → wf t →
  ∃ t', pad_last l r v t = Ok t'
        ∧ shape t' = [n0; (l + n1 + r)%nat]
        ∧ wf t'
        ∧ rows t' = (λ row, replicate l v ++ row ++ replicate r v) <$> rows t.
Proof.
  intros Hs Hwf. unfold pad_last. rewrite Hs. rewrite <- Hs.
  assert (Forall (λ row, length (replicate l v ++ row ++ replicate r v)
                         = (l + last_dim (shape t) + r)%nat) (rows t)) as Hf.
  { eapply Forall_impl; [by apply rows_uniform|]. intros row Hrow. cbn in Hrow.
    rewrite !length_app, !length_replicate. lia. }
  eexists. split; [done|]. split; [|split].
  - unfold map_rows. cbn [shape]. by rewrite Hs.
  - by apply wf_map_rows.
  - by apply rows_map_rows.
Qed.

End TensorRows.

(** ** [_pad_extra_bos_eos_tokens] on a batch of texts *)

Module PadTokens.
Import Ops OpsFacts Clvp TensorRows.

Lemma insert_length {X} (p : nat) (x : X) (l : list X) :
  length (take p l ++ [x] ++ drop p l) = S (length l).
Proof.
  rewrite !length_app, length_take, length_drop. cbn. lia.
Qed.

Lemma pad_attention_mask_rank2 (m : Tensor Z) (n0 n1 : nat) :
  shape m = [n0; n1] → wf m →
  ∃ m', pad_attention_mask (Some m) = Ok (Some m')
        ∧ shape m' = [n0; S n1] ∧ wf m' ∧ rows m' = (λ row, 1 :: row) <$> rows m.
Proof.
  intros Hs Hwf. destruct (pad_last_rank2 1 0 1 m n0 n1 Hs Hwf) as (m' & Hp & Hs' & Hwf' & Hr).
  exists m'. unfold pad_attention_mask. rewrite Hp. cbn. split; [done|].
  split; [by rewrite Hs', Nat.add_0_r|]. split; [done|].
  rewrite Hr. apply list_fmap_ext. intros i row _. cbn. by rewrite app_nil_r.
Qed.

(** The function row by row, on a batch of [n0] texts of [n1] tokens. *)
Lemma pad_extra_bos_eos_tokens_rows (input_ids : Tensor Z) (attention_mask : option (Tensor Z))
    (pad_token_id bos_token_id eos_token_id : Z) (add_bos_token add_eos_token : bool)
    (n0 n1 : nat) :
  shape input_ids = [n0; n1] → wf input_ids →
  (∀ m, attention_mask = Some m → shape m = [n0; n1] ∧ wf m) →
  let extra := (Nat.b2n add_bos_token + Nat.b2n add_eos_token)%nat in
  ∃ ids' mask',
    _pad_extra_bos_eos_tokens input_ids attention_mask pad_token_id bos_token_id eos_token_id
      add_bos_token add_eos_token = Ok (ids', mask')
    ∧ shape ids' = [n0; (n1 + extra)%nat] ∧ wf ids'
    ∧ rows ids'
      = (λ row,
           let row := if add_bos_token then bos_token_id :: row else row in
           if add_eos_token then
             if decide (pad_token_id ∈ row)
             then take (slice_start pad_token_id row) row ++ [eos_token_id]
                    ++ drop (slice_start pad_token_id row) row
             else row ++ [eos_token_id]
           else row) <$> rows input_ids
    ∧ match attention_mask with
      | None => mask' = None
      | Some m => ∃ m', mask' = Some m' ∧ shape m' = [n0; (n1 + extra)%nat] ∧ wf m'
                        ∧ rows m' = (λ row, replicate extra 1 ++ row) <$> rows m
      end.
Proof.
  intros Hs Hwf Hm extra.
  (* the bos step *)
  assert (∃ ids1 mask1,
    (if add_bos_token then
       input_ids ← pad_last 1 0 bos_token_id input_ids;
       attention_mask ← pad_attention_mask attention_mask;
       Ok (input_ids, attention_mask)
     else Ok (input_ids, attention_mask)) = Ok (ids1, mask1)
    ∧ shape ids1 = [n0; (n1 + Nat.b2n add_bos_token)%nat] ∧ wf ids1
    ∧ rows ids1 = (λ row, if add_bos_token then bos_token_id :: row else row) <$> rows input_ids
    ∧ match attention_mask with
      | None => mask1 = None
      | Some m => ∃ m', mask1 = Some m' ∧ shape m' = [n0; (n1 + Nat.b2n add_bos_token)%nat]
                        ∧ wf m'
                        ∧ rows m' = (λ row, replicate (Nat.b2n add_bos_token) 1 ++ row) <$> rows m
      end) as (ids1 & mask1 & Hbos & Hs1 & Hwf1 & Hr1 & Hm1).
  { destruct add_bos_token; cbn [Nat.b2n].
    - destruct (pad_last_rank2 1 0 bos_token_id input_ids n0 n1 Hs Hwf)
        as (ids1 & Hp & Hs1 & Hwf1 & Hr1).
      rewrite Hp. cbn [mbind result_bind].
      destruct attention_mask as [m|].
      + destruct (Hm m eq_refl) as [Hsm Hwfm].
        destruct (pad_attention_mask_rank2 m n0 n1 Hsm Hwfm) as (m' & Hpm & Hsm' & Hwfm' & Hrm).
        rewrite Hpm. cbn [mbind result_bind]. exists ids1, (Some m').
        split; [done|]. split; [rewrite Hs1; f_equal; f_equal; lia|]. split; [done|].
        split.
        { rewrite Hr1. apply list_fmap_ext. intros i row _. cbn. by rewrite app_nil_r. }
        exists m'. split; [done|]. split; [rewrite Hsm'; f_equal; f_equal; lia|].
        split; [done|]. by rewrite Hrm.
      + cbn. exists ids1, None. split; [done|].
        split; [rewrite Hs1; f_equal; f_equal; lia|]. split; [done|]. split; [|done].
        rewrite Hr1. apply list_fmap_ext. intros i row _. cbn. by rewrite app_nil_r.
    - exists input_ids, attention_mask. split; [done|].
      split; [by rewrite Hs, Nat.add_0_r|]. split; [done|].
      split; [by rewrite list_fmap_id|].
      destruct attention_mask as [m|]; [|done].
      destruct (Hm m eq_refl) as [Hsm Hwfm]. exists m. split; [done|].
      split; [by rewrite Hsm, Nat.add_0_r|]. split; [done|]. cbn. by rewrite list_fmap_id. }
  unfold _pad_extra_bos_eos_tokens. rewrite Hbos. cbn [mbind result_bind].
  destruct add_eos_token; cbn [Nat.b2n] in *.
  - destruct (size_rank2 ids1 _ _ Hs1) as (H0 & H1 & Hnd).
    rewrite H0, H1. cbn [mbind result_bind]. rewrite decide_True by done.
    set (g := λ each_input_id : list Z, if decide (pad_token_id ∈ each_input_id) then _ else _).
    assert (Forall (λ row, length (g row) = S (n1 + Nat.b2n add_bos_token)) (rows ids1)) as Hg.
    { eapply Forall_impl; [by apply (rows_uniform_rank2 ids1 n0 _ Hs1)|].
      intros row Hrow. cbn in Hrow. subst g. cbv beta.
      destruct (decide (pad_token_id ∈ row)).
      - rewrite insert_length. lia.
      - rewrite length_app. cbn. lia. }
    assert (∀ row, g row
             = if decide (pad_token_id ∈ row)
               then take (slice_start pad_token_id row) row ++ [eos_token_id]
                      ++ drop (slice_start pad_token_id row) row
               else row ++ [eos_token_id]) as Hgrow.
    { intros row. subst g. cbv beta. destruct (decide (pad_token_id ∈ row)) as [Hin|]; [|done].
      destruct row as [|x row]; [by apply elem_of_nil in Hin|].
      cbn [fmap list_fmap head default]. by destruct (decide (x = pad_token_id)) as [->|]. }
    destruct (rows_of_concat n0 (S (n1 + Nat.b2n add_bos_token)) (g <$> rows ids1))
      as [Hwf' Hrows'].
    { by rewrite length_fmap, (length_rows_rank2 ids1 n0 _ Hs1). }
    { by apply Forall_fmap. }
    assert (rows (mkTensor [n0; S (n1 + Nat.b2n add_bos_token)] (concat (g <$> rows ids1)))
            = (λ row,
                 let row := if add_bos_token then bos_token_id :: row else row in
                 if decide (pad_token_id ∈ row)
                 then take (slice_start pad_token_id row) row ++ [eos_token_id]
                        ++ drop (slice_start pad_token_id row) row
                 else row ++ [eos_token_id]) <$> rows input_ids) as Hrows.
    { rewrite Hrows', Hr1, <- list_fmap_compose. apply list_fmap_ext.
      intros i row _. cbn. apply Hgrow. }
    destruct attention_mask as [m|].
    + destruct Hm1 as (m1 & -> & Hsm1 & Hwfm1 & Hrm1).
      destruct (pad_attention_mask_rank2 m1 _ _ Hsm1 Hwfm1) as (m' & Hpm & Hsm' & Hwfm' & Hrm).
      rewrite Hpm. cbn [mbind result_bind]. eexists _, (Some m'). split; [done|].
      split; [cbn [shape]; f_equal; f_equal; subst extra; lia|]. split; [done|].
      split; [done|].
      exists m'. split; [done|]. split; [rewrite Hsm'; f_equal; f_equal; subst extra; lia|].
      split; [done|]. rewrite Hrm, Hrm1, <- list_fmap_compose. apply list_fmap_ext.
      intros i row _. cbn. subst extra. rewrite Nat.add_1_r. done.
    + subst mask1. cbn. eexists _, None. split; [done|].
      split; [cbn [shape]; f_equal; f_equal; subst extra; lia|]. by split.
  - exists ids1, mask1. split; [done|]. subst extra. rewrite Nat.add_0_r.
    split; [done|]. split; [done|]. split; [done|].
    destruct attention_mask as [m|]; [exact Hm1|done].
Qed.

(** X1.  On a batch of [n0] texts of [n1] tokens with an attention mask
    of the same shape, [_pad_extra_bos_eos_tokens] returns token ids and a
    mask of shape [(n0, n1 + extra)], where [extra] counts the tokens
    added (one for bos, one for eos), both holding as many elements as
    their shape says.  Every row of the new mask is the old row with
    [extra] ones in front: the mask is padded on the left for the eos
    token as well.  Without a mask, none is returned. *)
Theorem pad_extra_bos_eos_tokens_shapes (input_ids m : Tensor Z)
    (pad_token_id bos_token_id eos_token_id : Z) (add_bos_token add_eos_token : bool)
    (n0 n1 : nat) :
  shape input_ids = [n0; n1] → wf input_ids → shape m = [n0; n1] → wf m →
  let extra := (Nat.b2n add_bos_token + Nat.b2n add_eos_token)%nat in
  (∃ ids' m',
     _pad_extra_bos_eos_tokens input_ids (Some m) pad_token_id bos_token_id eos_token_id
       add_bos_token add_eos_token = Ok (ids', Some m')
     ∧ shape ids' = [n0; (n1 + extra)%nat] ∧ wf ids'
     ∧ shape m' = [n0; (n1 + extra)%nat] ∧ wf m'
     ∧ rows m' = (λ row, replicate extra 1 ++ row) <$> rows m)
  ∧ (∃ ids',
       _pad_extra_bos_eos_tokens input_ids None pad_token_id bos_token_id eos_token_id
         add_bos_token add_eos_token = Ok (ids', None)
       ∧ shape ids' = [n0; (n1 + extra)%nat] ∧ wf ids').
Proof.
  intros Hs Hwf Hsm Hwfm extra. split.
  - destruct (pad_extra_bos_eos_tokens_rows input_ids (Some m) pad_token_id bos_token_id
                eos_token_id add_bos_token add_eos_token n0 n1 Hs Hwf)
      as (ids' & mask' & Hpad & Hs' & Hwf' & _ & m' & -> & Hsm' & Hwfm' & Hrm).
    { by intros ? [= <-]. }
    by exists ids', m'.
  - destruct (pad_extra_bos_eos_tokens_rows input_ids None pad_token_id bos_token_id
                eos_token_id add_bos_token add_eos_token n0 n1 Hs Hwf)
      as (ids' & mask' & Hpad & Hs' & Hwf' & _ & ->); [done|].
    by exists ids'.
Qed.

(** X2.  With [add_eos_token], a row (after the bos token was put in
    front, when asked for) that does not hold the pad token gets the eos
    token appended. *)
Theorem eos_appended_to_rows_without_pad (input_ids : Tensor Z)
    (attention_mask : option (Tensor Z))
    (pad_token_id bos_token_id eos_token_id : Z) (add_bos_token : bool) (n0 n1 : nat) :
  shape input_ids = [n0; n1] → wf input_ids →
  (∀ m, attention_mask = Some m → shape m = [n0; n1] ∧ wf m) →
  ∃ ids' mask',
    _pad_extra_bos_eos_tokens input_ids attention_mask pad_token_id bos_token_id eos_token_id
      add_bos_token true = Ok (ids', mask')
    ∧ ∀ i row, rows input_ids !! i = Some row →
        let row' := if add_bos_token then bos_token_id :: row else row in
        pad_token_id ∉ row' →
        rows ids' !! i = Some (row' ++ [eos_token_id]).
Proof.
  intros Hs Hwf Hm.
  destruct (pad_extra_bos_eos_tokens_rows input_ids attention_mask pad_token_id bos_token_id
              eos_token_id add_bos_token true n0 n1 Hs Hwf Hm)
    as (ids' & mask' & Hpad & _ & _ & Hrows & _).
  exists ids', mask'. split; [done|]. intros i row Hrow row' Hnot.
  rewrite Hrows, list_lookup_fmap, Hrow. cbn [fmap option_fmap option_map].
  fold row'. by rewrite decide_False.
Qed.

(** X3.  With [add_eos_token], a row that holds the pad token gets the
    eos token inserted at the index [pad_token_id]: the position is the
    first entry of [ops.where(row == pad_token_id, row, pad_token_id)],
    which is the pad token itself, not the place of the first pad token.
    With the default [pad_token_id = 0] the eos token is put in front of
    the row. *)
Theorem eos_inserted_at_pad_token_id (input_ids : Tensor Z)
    (attention_mask : option (Tensor Z))
    (pad_token_id bos_token_id eos_token_id : Z) (add_bos_token : bool) (n0 n1 : nat) :
  shape input_ids = [n0; n1] → wf input_ids →
  (∀ m, attention_mask = Some m → shape m = [n0; n1] ∧ wf m) →
  0 ≤ pad_token_id →
  ∃ ids' mask',
    _pad_extra_bos_eos_tokens input_ids attention_mask pad_token_id bos_token_id eos_token_id
      add_bos_token true = Ok (ids', mask')
    ∧ ∀ i row, rows input_ids !! i = Some row →
        let row' := if add_bos_token then bos_token_id :: row else row in
        pad_token_id ∈ row' →
        rows ids' !! i
        = Some (take (Z.to_nat pad_token_id) row' ++ eos_token_id
                  :: drop (Z.to_nat pad_token_id) row')
        ∧ (pad_token_id = 0 → rows ids' !! i = Some (eos_token_id :: row')).
Proof.
  intros Hs Hwf Hm Hpos.
  destruct (pad_extra_bos_eos_tokens_rows input_ids attention_mask pad_token_id bos_token_id
              eos_token_id add_bos_token true n0 n1 Hs Hwf Hm)
    as (ids' & mask' & Hpad & _ & _ & Hrows & _).
  exists ids', mask'. split; [done|]. intros i row Hrow row' Hin.
  assert (rows ids' !! i
          = Some (take (Z.to_nat pad_token_id) row' ++ eos_token_id
                    :: drop (Z.to_nat pad_token_id) row')) as Hi.
  { rewrite Hrows, list_lookup_fmap, Hrow. cbn [fmap option_fmap option_map].
    fold row'. rewrite decide_True by done.
    unfold slice_start. by rewrite decide_False by lia. }
  split; [done|]. intros ->. by rewrite Hi.
Qed.

(** The two example texts with both tokens added, as
    [ClvpConditioningEncoder.forward] asks for, and with the eos token
    alone, as [generate] does. *)
Example two_texts_padded :
  _pad_extra_bos_eos_tokens Examples.two_texts (Some Examples.two_texts_mask) 0 255 0 true true
  = Ok (mkTensor [2; 5]%nat [0; 255; 5; 6; 0;  255; 7; 8; 9; 0],
        Some (mkTensor [2; 5]%nat [1; 1; 1; 1; 0;  1; 1; 1; 1; 1]))
  ∧ _pad_extra_bos_eos_tokens Examples.two_texts None 0 255 0 false true
    = Ok (mkTensor [2; 4]%nat [0; 5; 6; 0;  7; 8; 9; 0], None).
Proof. split; vm_compute; reflexivity. Qed.

Lemma pad_extra_bos_eos_tokens_shapes_witness :
  (∃ ids' m',
     _pad_extra_bos_eos_tokens Examples.two_texts (Some Examples.two_texts_mask) 0 255 0
       true true = Ok (ids', Some m')
     ∧ shape ids' = [2; 5]%nat ∧ wf ids'
     ∧ shape m' = [2; 5]%nat ∧ wf m'
     ∧ rows m' = (λ row, replicate 2 1 ++ row) <$> rows Examples.two_texts_mask)
  ∧ (∃ ids',
       _pad_extra_bos_eos_tokens Examples.two_texts None 0 255 0 true true = Ok (ids', None)
       ∧ shape ids' = [2; 5]%nat ∧ wf ids').
Proof.
  exact (pad_extra_bos_eos_tokens_shapes Examples.two_texts Examples.two_texts_mask 0 255 0
           true true 2 3 eq_refl eq_refl eq_refl eq_refl).
Defined.

Lemma eos_appended_to_rows_without_pad_witness :
  ∃ ids' mask',
    _pad_extra_bos_eos_tokens Examples.two_texts (Some Examples.two_texts_mask) 0 255 0
      false true = Ok (ids', mask')
    ∧ rows ids' !! 1%nat = Some [7; 8; 9; 0].
Proof.
  destruct (eos_appended_to_rows_without_pad Examples.two_texts
              (Some Examples.two_texts_mask) 0 255 0 false 2 3
              eq_refl eq_refl ltac:(intros m [= <-]; split; reflexivity))
    as (ids' & mask' & Hpad & Hrows).
  exists ids', mask'. split; [exact Hpad|].
  refine (Hrows 1%nat [7; 8; 9] eq_refl _).
  vm_compute. intros Hin. repeat (apply elem_of_cons in Hin as [Hin|Hin]; [discriminate|]).
  by apply elem_of_nil in Hin.
Defined.

Lemma eos_inserted_at_pad_token_id_witness :
  ∃ ids' mask',
    _pad_extra_bos_eos_tokens Examples.two_texts (Some Examples.two_texts_mask) 0 255 0
      false true = Ok (ids', mask')
    ∧ rows ids' !! 0%nat = Some [0; 5; 6; 0].
Proof.
  destruct (eos_inserted_at_pad_token_id Examples.two_texts
              (Some Examples.two_texts_mask) 0 255 0 false 2 3
              eq_refl eq_refl ltac:(intros m [= <-]; split; reflexivity) ltac:(lia))
    as (ids' & mask' & Hpad & Hrows).
  exists ids', mask'. split; [exact Hpad|].
  refine (proj1 (Hrows 0%nat [5; 6; 0] eq_refl _)).
  cbn. rewrite !elem_of_cons. tauto.
Defined.

End PadTokens.

(** ** The group count that [compute_groupnorm_groups] returns *)

Module GroupNormGroups.
Import Clvp.

Lemma halve_until_divides_step (fuel : nat) (channels groups : Z) :
  groups ≠ 0 →
  halve_until_divides (S fuel) channels groups
  = if decide (channels `mod` groups ≠ 0)
    then halve_until_divides fuel channels (groups `quot` 2)
    else Some (Ok groups).
Proof. intros Hg. cbn [halve_until_divides]. by rewrite decide_False. Qed.

(** X4.  With the default [groups = 32] and fuel for six iterations,
    [compute_groupnorm_groups] returns a group count exactly for the
    channel counts that are multiples of four.  The count is then the
    greatest of 4, 8, 16, 32 that divides [channels] and does not exceed
    the count the loop starts from (8 up to 16 channels, 16 up to 64, 32
    above).  For every other channel count the loop ends at 1 or 2 and the
    method raises [ValueError]. *)
Theorem compute_groupnorm_groups_multiples_of_four (channels : Z) (fuel : nat) :
  (6 ≤ fuel)%nat →
  (channels mod 4 = 0 →
     ∃ g, compute_groupnorm_groups fuel channels default_groups = Some (Ok g)
          ∧ g ∈ [4; 8; 16; 32]
          ∧ channels mod g = 0
          ∧ g ≤ initial_groups channels default_groups
          ∧ ∀ g', g' ∈ [4; 8; 16; 32] → g < g' ≤ initial_groups channels default_groups →
              channels mod g' ≠ 0)
  ∧ (channels mod 4 ≠ 0 →
       ∃ g, (g = 1 ∨ g = 2)
            ∧ compute_groupnorm_groups fuel channels default_groups
              = Some (Raise (ValueError (groups_msg g)))).
Proof.
  intros Hfuel. do 6 (destruct fuel as [|fuel]; [lia|]). clear Hfuel.
  unfold compute_groupnorm_groups, initial_groups, default_groups.
  assert (∀ g', g' ∈ [4; 8; 16; 32] → g' = 4 ∨ g' = 8 ∨ g' = 16 ∨ g' = 32) as Hin.
  { intros g'. rewrite !elem_of_cons, elem_of_nil. tauto. }
  assert (∀ g, (g = 4 ∨ g = 8 ∨ g = 16 ∨ g = 32) → g ∈ [4; 8; 16; 32]) as Hel.
  { intros g. rewrite !elem_of_cons, elem_of_nil. tauto. }
  pose proof (Z.mod_1_r channels) as H1.
  assert (∀ k, channels `mod` (4 * k) = 0 → channels `mod` 4 = 0) as Hdiv.
  { intros k Hk. destruct (decide (k = 0)) as [->|Hk0].
    - rewrite Z.mul_0_r, Z.mod_0_r in Hk. subst channels. done.
    - apply Z.mod_divide; [lia|]. apply Z.mod_divide in Hk; [|lia].
      etransitivity; [|exact Hk]. by exists k; lia. }
  pose proof (Hdiv 2) as Hdiv8. pose proof (Hdiv 4) as Hdiv16. pose proof (Hdiv 8) as Hdiv32.
  change (4 * 2) with 8 in Hdiv8. change (4 * 4) with 16 in Hdiv16.
  change (4 * 8) with 32 in Hdiv32. clear Hdiv.
  split; intros H4;
    (destruct (decide (channels ≤ 16)); [|destruct (decide (channels ≤ 64))]);
    repeat lazymatch goal with
      | |- context [halve_until_divides (S ?f) channels ?g] =>
          let Hg := fresh "Hg" in
          rewrite (halve_until_divides_step f channels g) by discriminate;
          destruct (decide (channels `mod` g ≠ 0)) as [Hg|Hg];
          [let h := eval cbv in (g `quot` 2) in change (g `quot` 2) with h
          |apply Z.eq_dne in Hg]
      end;
    try (exfalso; lia);
    lazymatch goal with
    | |- context [Some (Ok ?g)] =>
        first [rewrite (decide_False (P := g ≤ 2)) by lia
              |rewrite (decide_True (P := g ≤ 2)) by lia]; exists g
    end.
  all: try (split; [lia|done]).
  all: (split; [done|]); (split; [apply Hel; lia|]);
    (split; [lia|]); (split; [lia|]);
    intros g' Hg' Hlt; apply Hin in Hg'; destruct Hg' as [->|[->|[->| ->]]]; lia.
Qed.

Lemma compute_groupnorm_groups_multiples_of_four_witness :
  (∃ g, compute_groupnorm_groups 6 100 default_groups = Some (Ok g)
        ∧ g ∈ [4; 8; 16; 32]
        ∧ 100 mod g = 0
        ∧ g ≤ initial_groups 100 default_groups
        ∧ ∀ g', g' ∈ [4; 8; 16; 32] → g < g' ≤ initial_groups 100 default_groups →
            100 mod g' ≠ 0)
  ∧ (∃ g, (g = 1 ∨ g = 2)
          ∧ compute_groupnorm_groups 6 6 default_groups
            = Some (Raise (ValueError (groups_msg g)))).
Proof.
  split.
  - exact (proj1 (compute_groupnorm_groups_multiples_of_four 100 6 (le_n 6)) eq_refl).
  - refine (proj2 (compute_groupnorm_groups_multiples_of_four 6 6 (le_n 6)) _).
    vm_compute. discriminate.
Defined.

End GroupNormGroups.

(** ** The contrastive loss *)

Module ContrastiveLoss.
Import Ops OpsFacts Clvp QScalar.

Lemma mapM_is_ok {X Y} (f : X → result Y) (l : list X) :
  is_ok (mapM f l) = true ↔ Forall (λ x, is_ok (f x) = true) l.
Proof.
  induction l as [|x l IH]; [by split|]. cbn [mapM]. rewrite Forall_cons, <- IH.
  destruct (f x) as [y|e]; cbn [mbind result_bind is_ok]; [|by intuition].
  destruct (mapM f l); cbn; by intuition.
Qed.

Lemma is_ok_true {X} (r : result X) : is_ok r = true → ∃ x, r = Ok x.
Proof. destruct r as [x|e]; [by exists x|done]. Qed.

Section Loss.
Context {A : Type} `{Scalar A}.

(** [contrastive_loss] on [n] rows of [m] logits: row [i] has the target
    class [i], which has to be one of the [m] columns. *)
Lemma contrastive_loss_rows (logits : Tensor A) (n m : nat) :
  shape logits = [n; m] →
  ((n ≤ m)%nat → ∃ loss, contrastive_loss logits = Ok loss ∧ shape loss = [])
  ∧ ((m < n)%nat → is_ok (contrastive_loss logits) = false).
Proof.
  intros Hs. unfold contrastive_loss, cross_entropy. rewrite Hs.
  rewrite (decide_True (P := shape (arange n) = [n])) by done.
  set (f := λ p : list A * Z, if decide (0 ≤ p.2 < Z.of_nat m) then _ else _).
  assert (length (rows logits) = n) as Hrows.
  { rewrite rows_length, Hs. unfold lead_dims, numel. cbn. lia. }
  assert (is_ok (mapM f (zip (rows logits) (data (arange n)))) = bool_decide (n ≤ m)%nat)
    as Hok.
  { unfold arange. cbn [data]. case_bool_decide as Hnm.
    - apply mapM_is_ok, Forall_forall. intros [r z] Hp.
      apply elem_of_zip_r in Hp. apply list_elem_of_fmap in Hp as (i & Hi & Hin).
      apply elem_of_seq in Hin. subst f. cbn. rewrite Hi.
      by rewrite decide_True by lia.
    - apply not_true_is_false. intros Hall. rewrite mapM_is_ok, Forall_forall in Hall.
      destruct (lookup_lt_is_Some_2 (rows logits) m) as [r Hr]; [lia|].
      specialize (Hall (r, Z.of_nat m)). subst f. cbn in Hall.
      rewrite decide_False in Hall by lia. cbn in Hall.
      assert ((r, Z.of_nat m) ∈ zip (rows logits) (Z.of_nat <$> seq 0 n)) as Hin;
        [|by specialize (Hall Hin)].
      apply (list_elem_of_lookup_2 _ m).
      apply lookup_zip_with_Some. exists r, (Z.of_nat m). split; [done|]. split; [done|].
      rewrite list_lookup_fmap, lookup_seq_lt by lia. done. }
  split; intros Hnm.
  - rewrite bool_decide_eq_true_2 in Hok by done. apply is_ok_true in Hok as [ls Hls].
    rewrite Hls. cbn [mbind result_bind]. by eexists.
  - rewrite bool_decide_eq_false_2 in Hok by lia.
    by destruct (mapM f _).
Qed.

Lemma t_rank2 (a : Tensor A) (n m : nat) :
  shape a = [n; m] → ∃ a', t_ a = Ok a' ∧ shape a' = [m; n].
Proof.
  intros Hs. unfold t_, swapaxes, ndim. rewrite Hs. cbn. by eexists.
Qed.

Lemma add_scalars (a b : Tensor A) :
  shape a = [] → shape b = [] → ∃ c, add a b = Ok c ∧ shape c = [].
Proof.
  intros Ha Hb. unfold add, binop. rewrite Ha, Hb. cbn. by eexists.
Qed.

(** X5.  [clvp_loss] of a similarity matrix of [n] rows and [m] columns
    is computed exactly when the matrix is square: [contrastive_loss]
    gives row [i] the target class [i], once for the matrix and once for
    its transpose, and a target outside the columns is rejected.  The
    loss is a scalar. *)
Theorem clvp_loss_needs_square_similarity (similarity : Tensor A) (n m : nat) :
  shape similarity = [n; m] →
  (n = m → ∃ loss, clvp_loss similarity = Ok loss ∧ shape loss = [])
  ∧ (n ≠ m → is_ok (clvp_loss similarity) = false).
Proof.
  intros Hs. unfold clvp_loss.
  destruct (contrastive_loss_rows similarity n m Hs) as [Hle Hgt].
  destruct (t_rank2 similarity n m Hs) as (st & Ht & Hst).
  destruct (contrastive_loss_rows st m n Hst) as [Hle' Hgt'].
  split.
  - intros ->. destruct (Hle (le_n _)) as (l1 & -> & Hl1).
    cbn [mbind result_bind]. rewrite Ht. cbn [mbind result_bind].
    destruct (Hle' (le_n _)) as (l2 & -> & Hl2). cbn [mbind result_bind].
    destruct (add_scalars l1 l2 Hl1 Hl2) as (total & -> & Htotal).
    cbn [mbind result_bind]. eexists. split; [done|]. done.
  - intros Hnm. destruct (decide (m < n)%nat) as [Hlt|Hge].
    + specialize (Hgt Hlt). by destruct (contrastive_loss similarity).
    + destruct (Hle ltac:(lia)) as (l1 & -> & Hl1). cbn [mbind result_bind].
      rewrite Ht. cbn [mbind result_bind].
      specialize (Hgt' ltac:(lia)). by destruct (contrastive_loss st).
Qed.

End Loss.

Lemma clvp_loss_needs_square_similarity_witness :
  (∃ loss, clvp_loss (mkTensor [2; 2]%nat [1; 0; 0; 1]%Q) = Ok loss ∧ shape loss = [])
  ∧ is_ok (clvp_loss (mkTensor [2; 3]%nat [1; 0; 0; 0; 1; 0]%Q)) = false.
Proof.
  split.
  - exact (proj1 (clvp_loss_needs_square_similarity (mkTensor [2; 2]%nat [1; 0; 0; 1]%Q)
                    2 2 eq_refl) eq_refl).
  - refine (proj2 (clvp_loss_needs_square_similarity
                     (mkTensor [2; 3]%nat [1; 0; 0; 0; 1; 0]%Q) 2 3 eq_refl) _).
    lia.
Defined.

End ContrastiveLoss.

(** ** Rotating twice; the shape and the cache of the rotary embedding *)

Module Rotary.
Import Ops OpsFacts Clvp QScalar TensorRows.

Section Generic.
Context {A : Type} `{Scalar A}.

(** X6.  On a tensor whose last dimension is even, [rotate_half] applied
    twice negates every entry. *)
Theorem rotate_half_twice_negates (x : Tensor A) :
  shape x ≠ [] → wf x → (last_dim (shape x) mod 2 = 0)%nat →
  rotate_half x ≫= rotate_half = Ok (neg x).
Proof.
  intros Hs Hwf Heven.
  rewrite (Attention.rotate_half_rows x Hs Hwf). cbn [mbind result_bind].
  remember (last_dim (shape x) / 2)%nat as h eqn:Hh.
  set (g := λ r : list A, (sneg <$> drop h r) ++ take h r).
  set (y := mkTensor (shape x) (concat (g <$> rows x))).
  assert (last_dim (shape x) = (h + h)%nat) as Hd.
  { subst h. pose proof (Nat.div_mod_eq (last_dim (shape x)) 2). lia. }
  pose proof (rows_uniform x Hwf) as Hrows.
  assert (Forall (λ r, length (g r) = last_dim (shape x)) (rows x)) as Hg.
  { eapply Forall_impl; [exact Hrows|]. intros r Hr. cbn in Hr. subst g. cbn.
    rewrite length_app, length_fmap, length_drop, length_take. lia. }
  assert (rows y = g <$> rows x) as Hy.
  { unfold rows at 1. subst y. cbn [shape data]. rewrite <- (rows_length x).
    by apply chunks_concat_fmap. }
  assert (wf y) as Hwfy.
  { unfold wf. subst y. cbn [shape data].
    rewrite (concat_length_uniform (last_dim (shape x))) by (by apply Forall_fmap).
    rewrite length_fmap, rows_length. rewrite (numel_lead_last (shape x)). done. }
  rewrite (Attention.rotate_half_rows y) by done.
  subst y. cbn [shape]. rewrite <- Hh. fold g. rewrite Hy.
  unfold neg, tmap. do 2 f_equal.
  rewrite <- list_fmap_compose.
  transitivity (concat ((λ r : list A, sneg <$> r) <$> rows x)).
  - f_equal. apply Forall_fmap_ext_1. eapply Forall_impl; [exact Hrows|].
    intros r Hr. cbn in Hr. cbn. subst g. cbn.
    rewrite drop_app_length' by (rewrite length_fmap, length_drop; lia).
    rewrite take_app_length' by (rewrite length_fmap, length_drop; lia).
    rewrite <- fmap_app. by rewrite take_drop.
  - rewrite <- fmap_concat. f_equal. unfold rows. apply concat_chunks.
    rewrite Hwf, (numel_lead_last (shape x)). done.
Qed.

(** Concatenation of two matrices with the same number of rows along the
    last dimension. *)
Lemma cat_last_rank2 {X} (a b : Tensor X) (n m1 m2 : nat) :
  shape a = [n; m1] → shape b = [n; m2] →
  cat (-1) a b
  = Ok (mkTensor [n; (m1 + m2)%nat] (concat (zip_with app (rows a) (rows b)))).
Proof.
  intros Ha Hb. unfold cat, ndim. rewrite Ha, Hb. cbn [length].
  rewrite (norm_index_last 1). cbn [lookup list_lookup take drop].
  rewrite decide_True by done.
  rewrite (rows_rank2 a n m1 Ha), (rows_rank2 b n m2 Hb).
  unfold numel. cbn [foldr app]. by rewrite !Nat.mul_1_r.
Qed.

Lemma zip_with_diag {X Y} (f : X → X → Y) (l : list X) :
  zip_with f l l = (λ x, f x x) <$> l.
Proof. induction l as [|x l IH]; [done|]. cbn. by rewrite IH. Qed.

(** The embedding for a sequence length, from the frequencies. *)
Lemma rotary_embeddings_rows (inv_freq : Tensor A) (m n : nat) :
  shape inv_freq = [m] → wf inv_freq →
  rotary_embeddings inv_freq n
  = Ok (mkTensor [1%nat; n; (m + m)%nat]
          (concat ((λ i : nat,
                      let fr := (λ f, smul (of_Z (Z.of_nat i)) f) <$> data inv_freq in
                      fr ++ fr) <$> seq 0 n))).
Proof.
  intros Hs Hwf. unfold rotary_embeddings, einsum_outer, to_float, arange, tmap.
  cbn [shape data]. rewrite Hs. cbn [mbind result_bind].
  assert (length (data inv_freq) = m) as Hlen.
  { rewrite Hwf, Hs. unfold numel. cbn. lia. }
  rewrite (take_ge (data inv_freq)) by lia.
  rewrite take_ge by (rewrite !length_fmap, length_seq; lia).
  set (freqs := mkTensor [n; m] _).
  assert (rows freqs
          = (λ i : nat, (λ f, smul (of_Z (Z.of_nat i)) f) <$> data inv_freq) <$> seq 0 n)
    as Hrows.
  { rewrite (rows_rank2 freqs n m) by done. subst freqs. cbn [data].
    rewrite <- !list_fmap_compose.
    replace n with (length (seq 0 n)) at 1 by apply length_seq.
    apply chunks_concat_fmap, Forall_forall. intros i _. cbn. by rewrite length_fmap. }
  rewrite (cat_last_rank2 freqs freqs n m m) by done. cbn [mbind result_bind].
  rewrite Hrows, zip_with_diag, <- list_fmap_compose.
  unfold unsqueeze, ndim. cbn [shape length data].
  replace (norm_index 3 0) with (Some 0%nat) by (symmetry; apply (norm_index_nonneg 3 0); lia).
  done.
Qed.

(** X7.  For frequencies [inv_freq] of shape [(m,)], the embedding that
    [ClvpRotaryPositionalEmbedding.forward] returns for hidden states with
    [n] positions has the shape [(1, n, 2 m)], whatever the batch and the
    hidden size are, and its row for position [i] is the list of the
    products [i * f], for [f] in [inv_freq], twice. *)
Theorem rotary_embedding_shape (inv_freq hidden_states : Tensor A) (m n : nat) :
  shape inv_freq = [m] → wf inv_freq → size hidden_states 1 = Ok n →
  ∃ e,
    (ClvpRotaryPositionalEmbedding_forward
       (ClvpRotaryPositionalEmbedding_init inv_freq) hidden_states).1 = Ok e
    ∧ shape e = [1%nat; n; (m + m)%nat] ∧ wf e
    ∧ ∀ i, (i < n)%nat →
        rows e !! i
        = Some (let fr := (λ f, smul (of_Z (Z.of_nat i)) f) <$> data inv_freq in fr ++ fr).
Proof.
  intros Hs Hwf Hn. unfold ClvpRotaryPositionalEmbedding_forward.
  rewrite Hn. cbn -[rotary_embeddings].
  rewrite (rotary_embeddings_rows inv_freq m n Hs Hwf). cbn [fst].
  assert (length (data inv_freq) = m) as Hlen.
  { rewrite Hwf, Hs. unfold numel. cbn. lia. }
  set (row := λ i : nat, _).
  assert (Forall (λ i, length (row i) = (m + m)%nat) (seq 0 n)) as Hrow.
  { apply Forall_forall. intros i _. subst row. cbn.
    rewrite length_app, length_fmap. lia. }
  eexists. split; [done|]. split; [done|]. split.
  - unfold wf. cbn [shape data]. rewrite (concat_length_uniform (m + m)).
    + rewrite length_fmap, length_seq. unfold numel. cbn. lia.
    + by apply Forall_fmap.
  - intros i Hi. unfold rows. cbn [shape data]. unfold lead_dims, last_dim, numel.
    cbn [length last take foldr default Nat.sub].
    replace (1 * (n * 1))%nat with (length (seq 0 n)) by (rewrite length_seq; lia).
    rewrite chunks_concat_fmap by done.
    by rewrite list_lookup_fmap, lookup_seq_lt by lia.
Qed.

(** X8.  After a call of [ClvpRotaryPositionalEmbedding.forward] that
    returns an embedding, the object holds that embedding together with
    the sequence length of the call, and its frequencies are unchanged.
    Every later call with hidden states of the same sequence length
    returns the stored embedding and leaves the object as it is. *)
Theorem rotary_cache_holds_last_embedding (self self' : ClvpRotaryPositionalEmbedding)
    (hidden_states e : Tensor A) :
  ClvpRotaryPositionalEmbedding_forward self hidden_states = (Ok e, self') →
  (∃ n, size hidden_states 1 = Ok n ∧ cached_sequence_length self' = Some n)
  ∧ cached_rotary_positional_embedding self' = Some e
  ∧ inv_freq self' = inv_freq self
  ∧ ∀ later, size later 1 = size hidden_states 1 →
      ClvpRotaryPositionalEmbedding_forward self' later = (Ok e, self').
Proof.
  unfold ClvpRotaryPositionalEmbedding_forward at 1.
  destruct (size hidden_states 1) as [n|err] eqn:Hn; [|done].
  assert (∀ s : ClvpRotaryPositionalEmbedding,
            cached_sequence_length s = Some n →
            cached_rotary_positional_embedding s = Some e →
            ∀ later, size later 1 = Ok n →
              ClvpRotaryPositionalEmbedding_forward s later = (Ok e, s)) as Hhit.
  { intros s Hlen Hemb later Hlater. unfold ClvpRotaryPositionalEmbedding_forward.
    rewrite Hlater, Hemb, Hlen. by rewrite decide_True. }
  destruct (cached_rotary_positional_embedding self) as [cached|] eqn:Hcached.
  - destruct (decide (Some n = cached_sequence_length self)) as [Heq|Hne].
    + intros [= -> ->]. split; [by exists n|]. split; [done|]. split; [done|].
      intros later Hlater. by apply Hhit.
    + destruct (rotary_embeddings _ n) as [e'|err] eqn:He; [|done].
      intros [= -> <-]. split; [by exists n|]. split; [done|]. split; [done|].
      intros later Hlater. by apply Hhit.
  - destruct (rotary_embeddings _ n) as [e'|err] eqn:He; [|done].
    intros [= -> <-]. split; [by exists n|]. split; [done|]. split; [done|].
    intros later Hlater. by apply Hhit.
Qed.

End Generic.

Lemma rotary_embedding_shape_witness :
  ∃ e,
    (ClvpRotaryPositionalEmbedding_forward
       (ClvpRotaryPositionalEmbedding_init (mkTensor [2%nat] [1; 1 # 2]%Q))
       (mkTensor [1; 3; 1]%nat [0; 0; 0]%Q)).1 = Ok e
    ∧ shape e = [1; 3; 4]%nat ∧ wf e
    ∧ ∀ i, (i < 3)%nat →
        rows e !! i
        = Some (let fr := (λ f, smul (of_Z (Z.of_nat i)) f) <$> [1; 1 # 2]%Q in fr ++ fr).
Proof.
  exact (rotary_embedding_shape (mkTensor [2%nat] [1; 1 # 2]%Q)
           (mkTensor [1; 3; 1]%nat [0; 0; 0]%Q) 2 3 eq_refl eq_refl eq_refl).
Defined.

Lemma rotary_cache_holds_last_embedding_witness :
  let inv_freq := mkTensor [2%nat] [1; 1 # 2]%Q in
  let h2 := mkTensor [1; 2; 1]%nat [0; 0]%Q in
  let e := mkTensor [1; 2; 4]%nat [0; 0; 0; 0; 1; 1 # 2; 1; 1 # 2]%Q in
  let self' := (ClvpRotaryPositionalEmbedding_forward
                  (ClvpRotaryPositionalEmbedding_init inv_freq) h2).2 in
  cached_rotary_positional_embedding self' = Some e
  ∧ ∀ later, size later 1 = size h2 1 →
      ClvpRotaryPositionalEmbedding_forward self' later = (Ok e, self').
Proof.
  intros inv_freq h2 e self'.
  pose proof (rotary_cache_holds_last_embedding
                (ClvpRotaryPositionalEmbedding_init inv_freq) self' h2 e eq_refl)
    as (_ & Hemb & _ & Hlater).
  exact (conj Hemb Hlater).
Defined.

Lemma rotate_half_twice_negates_witness :
  rotate_half (mkTensor [1; 4]%nat [1; 2; 3; 4]%Q) ≫= rotate_half
  = Ok (neg (mkTensor [1; 4]%nat [1; 2; 3; 4]%Q)).
Proof.
  apply (rotate_half_twice_negates (mkTensor [1; 4]%nat [1; 2; 3; 4]%Q)).
  - discriminate.
  - reflexivity.
  - reflexivity.
Defined.

End Rotary.

(** ** The backbones of the Llava configuration *)

Module LlavaBackbones.
Import Llava.

(** What [resolve_config] does with a [dict] of the caller. *)
Lemma resolve_config_dict
    (CONFIG_MAPPING : gmap string (gmap string pyobj → result (gmap string pyobj)))
    (default_type : string) (default_kwargs : gmap string pyobj) (name : nat)
    (dicts : nat → gmap string pyobj) :
  let model_type := default (PyStr default_type) (dicts name !! "model_type") in
  let written := <["model_type" := model_type]> (dicts name) in
  resolve_config CONFIG_MAPPING default_type default_kwargs (Some (ConfigDict name)) dicts
  = (config_for CONFIG_MAPPING model_type written, <[name := written]> dicts).
Proof.
  intros model_type written. unfold resolve_config. cbv zeta.
  fold model_type. fold written. by rewrite fn_lookup_insert.
Qed.

Lemma config_for_missing
    (CONFIG_MAPPING : gmap string (gmap string pyobj → result (gmap string pyobj)))
    (model_type : pyobj) (kwargs : gmap string pyobj) :
  (∀ key, model_type = PyStr key → CONFIG_MAPPING !! key = None) →
  config_for CONFIG_MAPPING model_type kwargs = Raise (KeyError (py_str model_type)).
Proof.
  intros Hkey. unfold config_for. destruct model_type as [| | |key]; try done.
  by rewrite (Hkey key eq_refl).
Qed.

(** X9.  With a valid strategy, a backbone given as a [dict] is built by
    the class that [CONFIG_MAPPING] has for its ["model_type"] (for the
    default type when the [dict] has no such key), called with the
    entries of the [dict] after ["model_type"] was written into it; the
    caller's [dict] keeps that entry, also when the call raises.  When the
    mapping has no class for the type, [LlavaConfig.__init__] raises
    [KeyError] with the type; the vision backbone is looked up first, the
    text backbone only when the vision backbone was built, and in the
    store that the vision backbone left.  So one [dict] passed for both
    backbones gives the text backbone the type and the keywords of the
    vision backbone: without a ["model_type"] of its own that is
    ["clip_vision_model"], not ["llama"]. *)
Theorem LlavaConfig_backbone_from_dict
    (CONFIG_MAPPING : gmap string (gmap string pyobj → result (gmap string pyobj)))
    (PretrainedConfig_init : gmap string pyobj → result (gmap string pyobj))
    (vision_name text_name : nat)
    (ignore_index image_token_index projector_hidden_act strategy vision_feature_layer : pyobj)
    (kwargs : gmap string pyobj) (dicts : nat → gmap string pyobj) :
  strategy ∈ strategies →
  let init := λ vision_config text_config,
    LlavaConfig_init CONFIG_MAPPING PretrainedConfig_init vision_config text_config
      ignore_index image_token_index projector_hidden_act strategy vision_feature_layer
      kwargs dicts in
  let vision_type := default (PyStr "clip_vision_model") (dicts vision_name !! "model_type") in
  let vision_dict := <["model_type" := vision_type]> (dicts vision_name) in
  let text_type_in := λ dicts' : nat → gmap string pyobj,
    default (PyStr "llama") (dicts' text_name !! "model_type") in
  let text_dict_in := λ dicts' : nat → gmap string pyobj,
    <["model_type" := text_type_in dicts']> (dicts' text_name) in
  (∀ text_config,
     (∀ key, vision_type = PyStr key → CONFIG_MAPPING !! key = None) →
     init (Some (ConfigDict vision_name)) text_config
     = (Raise (KeyError (py_str vision_type)), <[vision_name := vision_dict]> dicts))
  ∧ (∀ vision_config v dicts1,
       resolve_config CONFIG_MAPPING "clip_vision_model" default_vision_kwargs vision_config
         dicts = (Ok v, dicts1) →
       (∀ key, text_type_in dicts1 = PyStr key → CONFIG_MAPPING !! key = None) →
       init vision_config (Some (ConfigDict text_name))
       = (Raise (KeyError (py_str (text_type_in dicts1))),
          <[text_name := text_dict_in dicts1]> dicts1))
  ∧ (∀ text_config c w dicts',
       init (Some (ConfigDict vision_name)) text_config = (Ok (c, w), dicts') →
       config_for CONFIG_MAPPING vision_type vision_dict = Ok (Llava.vision_config c))
  ∧ (∀ vision_config v dicts1 c w dicts',
       resolve_config CONFIG_MAPPING "clip_vision_model" default_vision_kwargs vision_config
         dicts = (Ok v, dicts1) →
       init vision_config (Some (ConfigDict text_name)) = (Ok (c, w), dicts') →
       config_for CONFIG_MAPPING (text_type_in dicts1) (text_dict_in dicts1)
       = Ok (Llava.text_config c)
       ∧ dicts' = <[text_name := text_dict_in dicts1]> dicts1)
  ∧ (∀ c w dicts',
       text_name = vision_name →
       init (Some (ConfigDict vision_name)) (Some (ConfigDict text_name)) = (Ok (c, w), dicts') →
       config_for CONFIG_MAPPING vision_type vision_dict = Ok (Llava.text_config c)
       ∧ Llava.text_config c = Llava.vision_config c
       ∧ dicts' vision_name = vision_dict).
Proof.
  intros Hs init vision_type vision_dict text_type_in text_dict_in.
  assert (∀ vc tc, init vc tc
                   = LlavaConfig_attributes CONFIG_MAPPING PretrainedConfig_init vc tc
                       ignore_index image_token_index projector_hidden_act strategy
                       vision_feature_layer kwargs dicts) as Hinit.
  { intros vc tc. subst init. cbv beta. unfold LlavaConfig_init.
    by rewrite decide_False by tauto. }
  assert (∀ vision_config v dicts1 c w dicts',
            resolve_config CONFIG_MAPPING "clip_vision_model" default_vision_kwargs
              vision_config dicts = (Ok v, dicts1) →
            init vision_config (Some (ConfigDict text_name)) = (Ok (c, w), dicts') →
            Llava.vision_config c = v
            ∧ config_for CONFIG_MAPPING (text_type_in dicts1) (text_dict_in dicts1)
              = Ok (Llava.text_config c)
            ∧ dicts' = <[text_name := text_dict_in dicts1]> dicts1) as Htext.
  { intros vision_config v dicts1 c w dicts' Hv. rewrite Hinit.
    unfold LlavaConfig_attributes. rewrite Hv, resolve_config_dict.
    fold (text_type_in dicts1). fold (text_dict_in dicts1).
    destruct (config_for _ _ _) as [t|]; [cbn [mbind result_bind]|by cbn].
    destruct (t !! "vocab_size") as [n|]; [cbn [mbind result_bind]|by cbn].
    destruct (PretrainedConfig_init kwargs) as [b|]; [cbn [mbind result_bind]|by cbn].
    by intros [= <- _ <-]. }
  split; [|split; [|split; [|split]]].
  - intros text_config Hkey. rewrite Hinit. unfold LlavaConfig_attributes.
    rewrite resolve_config_dict. fold vision_type. fold vision_dict.
    by rewrite (config_for_missing _ _ _ Hkey).
  - intros vision_config v dicts1 Hv Hkey. rewrite Hinit. unfold LlavaConfig_attributes.
    rewrite Hv, resolve_config_dict. fold (text_type_in dicts1). fold (text_dict_in dicts1).
    by rewrite (config_for_missing _ _ _ Hkey).
  - intros text_config c w dicts'. rewrite Hinit. unfold LlavaConfig_attributes.
    rewrite resolve_config_dict. fold vision_type. fold vision_dict.
    destruct (config_for _ vision_type vision_dict) as [v|]; [|by cbn].
    destruct (resolve_config _ "llama" _ _ _) as [[t|] dicts2]; [cbn [mbind result_bind]|by cbn].
    destruct (t !! "vocab_size") as [n|]; [cbn [mbind result_bind]|by cbn].
    destruct (PretrainedConfig_init kwargs) as [b|]; [cbn [mbind result_bind]|by cbn].
    by intros [= <- _ _].
  - intros vision_config v dicts1 c w dicts' Hv Hc.
    by destruct (Htext vision_config v dicts1 c w dicts' Hv Hc) as (_ & ? & ?).
  - intros c w dicts' -> Hc.
    pose proof (resolve_config_dict CONFIG_MAPPING "clip_vision_model" default_vision_kwargs
                  vision_name dicts) as Hv.
    cbv zeta in Hv. fold vision_type in Hv. fold vision_dict in Hv.
    destruct (config_for CONFIG_MAPPING vision_type vision_dict) as [v|e] eqn:Hmake.
    + destruct (Htext _ v _ c w dicts' Hv Hc) as (Hvc & Htc & ->).
      assert (text_type_in (<[vision_name := vision_dict]> dicts) = vision_type) as Htype.
      { subst text_type_in vision_dict. cbv beta.
        by rewrite fn_lookup_insert, lookup_insert_eq. }
      assert (text_dict_in (<[vision_name := vision_dict]> dicts) = vision_dict) as Hdict.
      { subst text_dict_in. cbv beta. rewrite Htype, fn_lookup_insert.
        subst vision_dict. by rewrite insert_insert_eq. }
      rewrite Htype, Hdict, Hmake in Htc. rewrite Hdict, fn_lookup_insert.
      split; [done|]. split; [|done]. apply OpsFacts.Ok_inj in Htc. by rewrite <- Htc, Hvc.
    + rewrite Hinit in Hc. unfold LlavaConfig_attributes in Hc.
      rewrite Hv in Hc. done.
Qed.

(** X10.  When [LlavaConfig.__init__] returns an object, the deprecation
    warning for [vocab_size] was issued exactly when that keyword was
    passed, a backbone that was given as a configuration object is stored
    as it is, and the five plain arguments are stored unchanged. *)
Theorem LlavaConfig_stores_arguments
    (CONFIG_MAPPING : gmap string (gmap string pyobj → result (gmap string pyobj)))
    (PretrainedConfig_init : gmap string pyobj → result (gmap string pyobj))
    (vision_config text_config : option config_arg)
    (ignore_index image_token_index projector_hidden_act strategy vision_feature_layer : pyobj)
    (kwargs : gmap string pyobj) (dicts : nat → gmap string pyobj) (c : LlavaConfig) (w : list string) :
  (LlavaConfig_init CONFIG_MAPPING PretrainedConfig_init vision_config text_config
     ignore_index image_token_index projector_hidden_act strategy vision_feature_layer kwargs
     dicts).1
  = Ok (c, w) →
  (kwargs !! "vocab_size" = None → w = [])
  ∧ (is_Some (kwargs !! "vocab_size") → w = [vocab_size_warning])
  ∧ (∀ cfg, vision_config = Some (ConfigObject cfg) → Llava.vision_config c = cfg)
  ∧ (∀ cfg, text_config = Some (ConfigObject cfg) → Llava.text_config c = cfg)
  ∧ Llava.ignore_index c = ignore_index
  ∧ Llava.image_token_index c = image_token_index
  ∧ Llava.projector_hidden_act c = projector_hidden_act
  ∧ Llava.vision_feature_layer c = vision_feature_layer
  ∧ PretrainedConfig_init kwargs = Ok (base_attributes c).
Proof.
  unfold LlavaConfig_init. destruct (decide (strategy ∉ strategies)); [done|].
  unfold LlavaConfig_attributes.
  destruct (resolve_config _ "clip_vision_model" _ _ _) as [[v|] dicts1] eqn:Hv; [|by cbn].
  destruct (resolve_config _ "llama" _ _ _) as [[t|] dicts2] eqn:Ht;
    [cbn [fst mbind result_bind]|by cbn].
  destruct (t !! "vocab_size") as [size|]; [cbn [mbind result_bind]|by cbn].
  destruct (PretrainedConfig_init kwargs) as [b|]; [cbn [mbind result_bind]|by cbn].
  intros [= <- <-]. cbn.
  split; [intros Hk; rewrite decide_False; [done|rewrite Hk; by intros [??]]|].
  split; [intros Hk; by rewrite decide_True|].
  split; [intros cfg ->; cbn in Hv; by simplify_eq|].
  split; [intros cfg ->; cbn in Ht; by simplify_eq|].
  done.
Qed.

Lemma LlavaConfig_stores_arguments_witness :
  ∃ c,
    (LlavaConfig_init Examples.small_mapping Ok None
       (Some (ConfigObject (<["vocab_size" := PyInt 5]> ∅)))
       (PyInt (-100)) (PyInt 32000) (PyStr "gelu") (PyStr "default") (PyInt (-2))
       (<["vocab_size" := PyInt 7]> ∅) Examples.no_dicts).1
    = Ok (c, [vocab_size_warning])
    ∧ Llava.text_config c = <["vocab_size" := PyInt 5]> ∅.
Proof.
  assert (∃ c, (LlavaConfig_init Examples.small_mapping Ok None
                  (Some (ConfigObject (<["vocab_size" := PyInt 5]> ∅)))
                  (PyInt (-100)) (PyInt 32000) (PyStr "gelu") (PyStr "default") (PyInt (-2))
                  (<["vocab_size" := PyInt 7]> ∅) Examples.no_dicts).1
               = Ok (c, [vocab_size_warning])) as [c Hc]
    by (eexists; vm_compute; reflexivity).
  exists c. split; [exact Hc|].
  exact (proj1 (proj2 (proj2 (proj2 (LlavaConfig_stores_arguments Examples.small_mapping Ok
           None (Some (ConfigObject (<["vocab_size" := PyInt 5]> ∅)))
           (PyInt (-100)) (PyInt 32000) (PyStr "gelu") (PyStr "default") (PyInt (-2))
           (<["vocab_size" := PyInt 7]> ∅) Examples.no_dicts c [vocab_size_warning] Hc)))) _
           eq_refl).
Defined.

Lemma LlavaConfig_backbone_from_dict_witness :
  (LlavaConfig_init Examples.small_mapping Ok (Some (ConfigDict 0)) None
     (PyInt (-100)) (PyInt 32000) (PyStr "gelu") (PyStr "default") (PyInt (-2)) ∅
     Examples.siglip_dict).1
  = Raise (KeyError "siglip")
  ∧ ∃ c w dicts',
      LlavaConfig_init Examples.small_mapping Ok (Some (ConfigDict 0)) (Some (ConfigDict 0))
        (PyInt (-100)) (PyInt 32000) (PyStr "gelu") (PyStr "default") (PyInt (-2)) ∅
        Examples.small_vocabulary_dict
      = (Ok (c, w), dicts')
      ∧ Llava.text_config c = Llava.vision_config c
      ∧ dicts' 0%nat
        = <["model_type" := PyStr "clip_vision_model"]> (<["vocab_size" := PyInt 5]> ∅).
Proof.
  assert (PyStr "default" ∈ strategies) as Hs by (apply elem_of_cons; by left).
  split.
  - rewrite (proj1 (LlavaConfig_backbone_from_dict Examples.small_mapping Ok 0 0
                      (PyInt (-100)) (PyInt 32000) (PyStr "gelu") (PyStr "default")
                      (PyInt (-2)) ∅ Examples.siglip_dict Hs) None); [reflexivity|].
    intros key [= <-]. vm_compute. reflexivity.
  - assert (∃ c w dicts',
              LlavaConfig_init Examples.small_mapping Ok (Some (ConfigDict 0))
                (Some (ConfigDict 0)) (PyInt (-100)) (PyInt 32000) (PyStr "gelu")
                (PyStr "default") (PyInt (-2)) ∅ Examples.small_vocabulary_dict
              = (Ok (c, w), dicts')) as (c & w & dicts' & Hinit)
      by (eexists _, _, _; reflexivity).
    destruct (proj2 (proj2 (proj2 (proj2 (LlavaConfig_backbone_from_dict
                Examples.small_mapping Ok 0 0 (PyInt (-100)) (PyInt 32000) (PyStr "gelu")
                (PyStr "default") (PyInt (-2)) ∅ Examples.small_vocabulary_dict Hs))))
                c w dicts' eq_refl Hinit) as (_ & Hsame & Hdict).
    exists c, w, dicts'. split; [exact Hinit|]. split; [exact Hsame|]. exact Hdict.
Defined.

End LlavaBackbones.

(** ** Padding of short waveforms and the attention mask of [__call__] *)


Module MusicgenCall.
Import Ops OpsFacts MusicgenMelody QScalar TensorRows.

(** The strided slice of a list. *)
Lemma every_nth_lookup {X} (step : nat) (fuel : nat) :
  (1 ≤ step)%nat →
  ∀ (l : list X) (j : nat),
    (length l ≤ fuel)%nat → every_nth fuel step l !! j = l !! (j * step)%nat.
Proof.
  intros Hstep. induction fuel as [|fuel IH]; intros l j Hlen.
  - destruct l; [|cbn in Hlen; lia]. done.
  - destruct l as [|x l]; [done|]. cbn [every_nth].
    destruct j as [|j]; [done|]. cbn [lookup list_lookup].
    change (every_nth fuel step (drop step (x :: l)) !! j = (x :: l) !! (S j * step)%nat).
    rewrite IH by (rewrite length_drop; cbn in *; lia).
    by rewrite lookup_drop.
Qed.

Lemma every_nth_length {X} (step : nat) (fuel : nat) :
  (1 ≤ step)%nat →
  ∀ l : list X,
    (length l ≤ fuel)%nat → length (every_nth fuel step l) = ((length l + step - 1) / step)%nat.
Proof.
  intros Hstep. induction fuel as [|fuel IH]; intros l Hlen.
  - destruct l; [|cbn in Hlen; lia]. cbn. symmetry. apply Nat.div_small. lia.
  - destruct l as [|x l]; [cbn; symmetry; apply Nat.div_small; lia|].
    cbn [every_nth length].
    rewrite IH by (rewrite length_drop; cbn in *; lia).
    rewrite length_drop. cbn [length].
    destruct (decide (step ≤ S (length l))%nat) as [Hle|Hgt].
    + replace (S (length l) + step - 1)%nat with ((S (length l) - step + step - 1) + 1 * step)%nat
        by lia.
      rewrite Nat.div_add by lia. lia.
    + replace (S (length l) - step)%nat with 0%nat by lia.
      rewrite (Nat.div_small (0 + step - 1)) by lia.
      apply (Nat.div_unique _ _ _ (length l)); lia.
Qed.

Lemma every_nth_fmap {X Y} (f : X → Y) (step fuel : nat) (l : list X) :
  every_nth fuel step (f <$> l) = f <$> every_nth fuel step l.
Proof.
  revert l. induction fuel as [|fuel IH]; intros l; [by destruct l|].
  destruct l as [|x l]; [done|]. cbn [every_nth fmap list_fmap].
  change (f x :: (f <$> l)) with (f <$> (x :: l)). by rewrite <- fmap_drop, IH.
Qed.

Lemma chunks_singletons {X} (k : nat) (l : list X) :
  length l = k → chunks 1 k l = (λ x, [x]) <$> l.
Proof.
  revert l. induction k as [|k IH]; intros l Hl.
  - by destruct l.
  - destruct l as [|x l]; [done|]. cbn. f_equal. apply IH. cbn in Hl. lia.
Qed.

Lemma concat_singletons {X} (l : list X) : concat ((λ x, [x]) <$> l) = l.
Proof. induction l as [|x l IH]; [done|]. cbn. by rewrite IH. Qed.

(** The slice [m[:, ::step]] of a matrix, row by row. *)
Lemma stride_dim1_rank2 {X} (step : Z) (m : Tensor X) (b l : nat) :
  shape m = [b; l] → wf m → 0 < step →
  ∃ m', stride_dim1 step m = Ok m'
        ∧ shape m' = [b; ((l + Z.to_nat step - 1) / Z.to_nat step)%nat]
        ∧ wf m'
        ∧ rows m' = every_nth l (Z.to_nat step) <$> rows m.
Proof.
  intros Hs Hwf Hstep. unfold stride_dim1. rewrite Hs.
  rewrite decide_False by lia. rewrite decide_False by lia.
  unfold numel. cbn [foldr]. rewrite Nat.mul_1_r.
  rewrite <- (rows_rank2 m b l Hs).
  pose proof (rows_uniform_rank2 m b l Hs Hwf) as Hrows.
  set (st := Z.to_nat step).
  assert ((λ row : list X, concat (every_nth l st (chunks 1 l row))) <$> rows m
          = every_nth l st <$> rows m) as Heq.
  { apply Forall_fmap_ext_1. eapply Forall_impl; [exact Hrows|]. intros row Hrow.
    cbn in Hrow. cbn. rewrite chunks_singletons by done.
    by rewrite every_nth_fmap, concat_singletons. }
  rewrite Heq.
  destruct (rows_of_concat b ((l + st - 1) / st)%nat (every_nth l st <$> rows m))
    as [Hwf' Hrows'].
  { by rewrite length_fmap, (length_rows_rank2 m b l Hs). }
  { apply Forall_fmap. eapply Forall_impl; [exact Hrows|]. intros row Hrow. cbn in Hrow.
    cbn. rewrite every_nth_length by (subst st; lia). by rewrite Hrow. }
  eexists. split; [done|]. by split.
Qed.

Section Extractor.
Context {A : Type} `{Scalar A}.

(** X11.  A batch of waveforms with fewer than [n_fft] samples is padded
    with zeros to exactly [n_fft] samples before the spectrogram is taken:
    half of the missing samples (rounded down) in front, the others
    behind.  The chroma and the features are those of the padded batch. *)
Theorem short_waveform_padded_to_n_fft (self : MusicgenMelodyFeatureExtractor)
    (waveform : Tensor A) (b l : nat) :
  shape waveform = [b; l] → wf waveform → Z.of_nat l < n_fft self →
  let pad := n_fft self - Z.of_nat l in
  ∃ padded,
    pad_last (Z.to_nat (pad / 2)) (Z.to_nat (pad - pad / 2)) s0 waveform = Ok padded
    ∧ shape padded = [b; Z.to_nat (n_fft self)] ∧ wf padded
    ∧ rows padded
      = (λ row, replicate (Z.to_nat (pad / 2)) s0 ++ row
                  ++ replicate (Z.to_nat (pad - pad / 2)) s0) <$> rows waveform
    ∧ normalised_chroma self waveform = normalised_chroma self padded
    ∧ _ms_extract_fbank_features self waveform = _ms_extract_fbank_features self padded.
Proof.
  intros Hs Hwf Hshort pad.
  destruct (pad_last_rank2 (Z.to_nat (pad / 2)) (Z.to_nat (pad - pad / 2)) s0 waveform b l
              Hs Hwf) as (padded & Hpad & Hs' & Hwf' & Hrows).
  assert ((Z.to_nat (pad / 2) + l + Z.to_nat (pad - pad / 2))%nat = Z.to_nat (n_fft self))
    as Hlen.
  { assert (0 ≤ pad / 2) by (apply Z.div_pos; subst pad; lia).
    assert (pad / 2 ≤ pad) by (apply Z.div_le_upper_bound; subst pad; lia).
    subst pad. lia. }
  rewrite Hlen in Hs'.
  assert (normalised_chroma self waveform = normalised_chroma self padded) as Hchroma.
  { unfold normalised_chroma.
    destruct (size_rank2 waveform b l Hs) as (_ & Hsize & _).
    destruct (size_rank2 padded b _ Hs') as (_ & Hsize' & _).
    unfold size, ndim in *. rewrite Hs in *. rewrite Hs' in *. cbn [length] in *.
    rewrite (norm_index_last 1). cbn [lookup list_lookup mbind result_bind].
    rewrite (decide_True (P := Z.of_nat l < n_fft self)) by done.
    rewrite (decide_False (P := Z.of_nat (Z.to_nat (n_fft self)) < n_fft self)) by lia.
    fold pad.
    replace (pad / 2 + (if decide (pad `mod` 2 = 0) then 0 else 1)) with (pad - pad / 2)
      by (pose proof (Z.div_mod pad 2 ltac:(lia));
          pose proof (Z.mod_pos_bound pad 2 ltac:(lia));
          destruct (decide (pad `mod` 2 = 0)); lia).
    rewrite Hpad. done. }
  exists padded. split; [done|]. split; [done|]. split; [done|]. split; [done|].
  split; [done|]. unfold _ms_extract_fbank_features. by rewrite Hchroma.
Qed.

(** X12.  [__call__] after padding: the chroma features replace
    ["input_features"].  When the attention mask is asked for, the mask
    [(batch, length)] that padding returned is replaced by its slice
    [[:, ::hop_length]]: [ceil(length / hop_length)] entries per row, entry
    [j] being entry [j * hop_length] of the old row; a missing mask raises
    [KeyError].  When the mask is not asked for, a mask that padding
    returned is left as it is. *)
Theorem call_rescales_attention_mask {Audio TensorType : Type}
    (self : MusicgenMelodyFeatureExtractor)
    (prepare : Audio → result (gmap string (Tensor A)))
    (convert_to_tensors : TensorType → gmap string (Tensor A) → result (gmap string (Tensor A)))
    (audio : Audio) (padded : gmap string (Tensor A)) (x feats : Tensor A) :
  prepare audio = Ok padded →
  padded !! "input_features" = Some x →
  squeeze (-1) x ≫= _ms_extract_fbank_features self = Ok feats →
  let call := MusicgenMelodyFeatureExtractor_call self prepare convert_to_tensors audio None in
  call false = Ok (<["input_features" := feats]> padded)
  ∧ (padded !! "attention_mask" = None → call true = Raise (KeyError "attention_mask"))
  ∧ (∀ m b l, padded !! "attention_mask" = Some m → shape m = [b; l] → wf m →
       0 < hop_length self →
       let hop := Z.to_nat (hop_length self) in
       ∃ m',
         call true = Ok (<["attention_mask" := m']> (<["input_features" := feats]> padded))
         ∧ shape m' = [b; ((l + hop - 1) / hop)%nat]
         ∧ ∀ i row, rows m !! i = Some row →
             ∃ row', rows m' !! i = Some row'
                     ∧ length row' = ((l + hop - 1) / hop)%nat
                     ∧ ∀ j, row' !! j = row !! (j * hop)%nat).
Proof.
  intros Hprepare Hx Hfeats call. subst call. unfold MusicgenMelodyFeatureExtractor_call.
  rewrite Hprepare. cbn [mbind result_bind]. rewrite Hx, Hfeats. cbn [mbind result_bind].
  split; [done|].
  rewrite lookup_insert_ne by done. split.
  - by intros ->.
  - intros m b l Hm Hs Hwf Hhop. set (hop := Z.to_nat (hop_length self)). rewrite Hm.
    destruct (stride_dim1_rank2 (hop_length self) m b l Hs Hwf Hhop)
      as (m' & Hstride & Hs' & Hwf' & Hrows').
    rewrite Hstride. cbn [mbind result_bind]. exists m'. split; [done|]. split; [done|].
    intros i row Hrow. exists (every_nth l hop row).
    pose proof (rows_uniform_rank2 m b l Hs Hwf) as Hlen.
    rewrite Forall_forall in Hlen. specialize (Hlen row (list_elem_of_lookup_2 _ _ _ Hrow)).
    split; [by rewrite Hrows', list_lookup_fmap, Hrow|].
    split.
    + rewrite every_nth_length by (subst hop; lia). by rewrite Hlen.
    + intros j. apply every_nth_lookup; subst hop; lia.
Qed.

End Extractor.

Lemma short_waveform_padded_to_n_fft_witness :
  ∃ padded,
    pad_last 1 1 0%Q Examples.two_waveforms = Ok padded
    ∧ shape padded = [2; 6]%nat ∧ wf padded
    ∧ rows padded = (λ row, [0%Q] ++ row ++ [0%Q]) <$> rows Examples.two_waveforms
    ∧ normalised_chroma Examples.small_extractor Examples.two_waveforms
      = normalised_chroma Examples.small_extractor padded
    ∧ _ms_extract_fbank_features Examples.small_extractor Examples.two_waveforms
      = _ms_extract_fbank_features Examples.small_extractor padded.
Proof.
  exact (short_waveform_padded_to_n_fft Examples.small_extractor Examples.two_waveforms 2 4
           eq_refl eq_refl eq_refl).
Defined.

Lemma call_rescales_attention_mask_witness :
  let call := MusicgenMelodyFeatureExtractor_call (TensorType := unit) Examples.small_extractor
                (λ audio : Tensor Q, Ok Examples.padded_waveforms) (λ _ out, Ok out)
                Examples.two_waveforms None in
  ∃ feats m',
    call false = Ok (<["input_features" := feats]> Examples.padded_waveforms)
    ∧ call true = Ok (<["attention_mask" := m']>
                        (<["input_features" := feats]> Examples.padded_waveforms))
    ∧ shape m' = [2; 2]%nat
    ∧ rows m' !! 0%nat = Some [1%Q; 1%Q]
    ∧ rows m' !! 1%nat = Some [1%Q; 0%Q].
Proof.
  intros call.
  pose proof (call_rescales_attention_mask (TensorType := unit) Examples.small_extractor
                (λ audio : Tensor Q, Ok Examples.padded_waveforms) (λ _ out, Ok out)
                Examples.two_waveforms Examples.padded_waveforms
                (mkTensor [2; 4; 1]%nat [1; 1; 1; 0; 0; 0; 0; 0]%Q)
                (mkTensor [2; 1; 12]%nat
                   [0; 0; 0; 0; 0; 0; 0; 0; 0; 0; 0; 1;
                    1; 0; 0; 0; 0; 0; 0; 0; 0; 0; 0; 0]%Q)
                eq_refl eq_refl eq_refl) as (Hfalse & _ & Htrue).
  destruct (Htrue (mkTensor [2; 4]%nat [1; 1; 1; 1; 1; 1; 0; 0]%Q) 2%nat 4%nat
              eq_refl eq_refl eq_refl eq_refl) as (m' & Hcall & Hs & Hrows).
  eexists _, m'. split; [exact Hfalse|]. split; [exact Hcall|]. split; [exact Hs|].
  split.
  - destruct (Hrows 0%nat [1; 1; 1; 1]%Q eq_refl) as (row' & -> & Hlen & Hrow').
    f_equal. apply list_eq. intros [|[|j]]; rewrite Hrow'; [done..|].
    cbn. apply lookup_ge_None. cbn. lia.
  - destruct (Hrows 1%nat [1; 1; 0; 0]%Q eq_refl) as (row' & -> & Hlen & Hrow').
    f_equal. apply list_eq. intros [|[|j]]; rewrite Hrow'; [done..|].
    cbn. apply lookup_ge_None. cbn. lia.
Defined.

End MusicgenCall.

(** ** Self-attention: the sizes of the heads and the optional outputs *)


Module AttentionOutputs.
Import Ops OpsFacts Clvp QScalar TensorRows.

Section Generic.
Context {A : Type} `{Scalar A}.

Lemma swapaxes_1_2_rank4 {X} (t : Tensor X) (b c d e : nat) :
  shape t = [b; c; d; e] →
  ∃ r, swapaxes 1 2 t = Ok r ∧ shape r = [b; d; c; e] ∧ (wf t → wf r).
Proof.
  intros Hs. unfold swapaxes, ndim. rewrite Hs. cbn [length].
  replace (norm_index 4 1) with (Some 1%nat)
    by (symmetry; apply (norm_index_nonneg 4 1); lia).
  replace (norm_index 4 2) with (Some 2%nat)
    by (symmetry; apply (norm_index_nonneg 4 2); lia).
  cbn [swap_list lookup list_lookup list_insert insert].
  eexists. split; [done|]. split; [done|].
  unfold wf. cbn [shape data]. rewrite Hs.
  unfold numel. cbn [foldr]. intros Hwf.
  destruct (data t) as [|d0 l]; cbn [length] in *; [lia|].
  rewrite length_fmap, length_seq. lia.
Qed.

(** [_shape] on the output of a projection: the embedding dimension is
    split into the heads. *)
Lemma shape_splits_heads (self : ClvpSelfAttention) (x : Tensor A) (b t : nat) :
  0 < num_heads self → 0 < head_dim self → (0 < b)%nat →
  shape x = [b; t; Z.to_nat (head_dim self * num_heads self)] → wf x →
  ∃ r, _shape self x (-1) b = Ok r
       ∧ shape r = [b; Z.to_nat (num_heads self); t; Z.to_nat (head_dim self)]
       ∧ wf r.
Proof.
  intros Hh Hd Hb Hs Hwf. unfold _shape, view.
  set (h := num_heads self) in *. set (d := head_dim self) in *.
  rewrite decide_False; last first.
  { rewrite !Exists_cons, Exists_nil. lia. }
  rewrite !filter_cons, !filter_nil.
  rewrite (decide_False (P := Z.of_nat b = -1)) by lia.
  rewrite (decide_True (P := -1 = -1)) by done.
  rewrite (decide_False (P := h = -1)) by lia.
  rewrite (decide_False (P := d = -1)) by lia.
  rewrite (decide_True (P := Z.of_nat b ≠ -1)) by lia.
  rewrite (decide_False (P := -1 ≠ -1)) by lia.
  rewrite (decide_True (P := h ≠ -1)) by lia.
  rewrite (decide_True (P := d ≠ -1)) by lia.
  cbn [length foldr].
  assert (Z.of_nat (numel (shape x)) = Z.of_nat t * (Z.of_nat b * (h * (d * 1)))) as Hn.
  { rewrite Hs. unfold numel. cbn [foldr]. lia. }
  rewrite Hn.
  rewrite decide_True; last first.
  { split; [lia|]. apply Z.mod_mul. lia. }
  cbn [mbind result_bind fmap list_fmap].
  rewrite (decide_False (P := Z.of_nat b = -1)) by lia.
  rewrite (decide_True (P := -1 = -1)) by done.
  rewrite (decide_False (P := h = -1)) by lia.
  rewrite (decide_False (P := d = -1)) by lia.
  rewrite Z.div_mul by lia. rewrite !Nat2Z.id.
  set (v := mkTensor _ (data x)).
  destruct (swapaxes_1_2_rank4 v b t (Z.to_nat h) (Z.to_nat d) eq_refl) as (r & Hr & Hsr & Hwfr).
  exists r. split; [done|]. split; [done|]. apply Hwfr.
  unfold wf. subst v. cbn [shape data]. rewrite Hwf, Hs. unfold numel. cbn [foldr]. lia.
Qed.

(** X13.  The sizes that [ClvpSelfAttention.__init__] computes first:
    with no heads the division raises [ZeroDivisionError]; with a number
    of heads that does not divide the hidden size the constructor raises
    [ValueError]; with a hidden size of zero the head dimension is zero
    and the scale [head_dim ** -0.5] raises [ZeroDivisionError]; in every
    other case the sizes are set, with
    [head_dim * num_heads = embed_dim] and a head dimension other than
    zero.  With positive sizes [_shape] then splits a projection of shape
    [(bsz, seq_len, embed_dim)] into [(bsz, num_heads, seq_len, head_dim)]. *)
Theorem attention_sizes_divisible (power_minus_half : Z → A)
    (hidden_size num_attention_heads : Z) :
  let sizes := ClvpSelfAttention_sizes power_minus_half hidden_size num_attention_heads in
  (num_attention_heads = 0 →
     sizes = Raise (ZeroDivisionError "integer division or modulo by zero"))
  ∧ (num_attention_heads ≠ 0 → ¬ (num_attention_heads | hidden_size) →
       sizes = Raise (ValueError (embed_dim_msg hidden_size num_attention_heads)))
  ∧ (num_attention_heads ≠ 0 → hidden_size = 0 →
       sizes = Raise (ZeroDivisionError "0.0 cannot be raised to a negative power"))
  ∧ (num_attention_heads ≠ 0 → (num_attention_heads | hidden_size) → hidden_size ≠ 0 →
       sizes = Ok (hidden_size, num_attention_heads, hidden_size `div` num_attention_heads,
                   power_minus_half (hidden_size `div` num_attention_heads)))
  ∧ ∀ e h d scale, sizes = Ok (e, h, d, scale) →
      d * h = e ∧ d ≠ 0 ∧ scale = power_minus_half d
      ∧ ∀ (self : ClvpSelfAttention) (x : Tensor A) (b t : nat),
          embed_dim self = e → num_heads self = h → head_dim self = d →
          0 < h → 0 < d → (0 < b)%nat →
          shape x = [b; t; Z.to_nat e] → wf x →
          ∃ r, _shape self x (-1) b = Ok r
               ∧ shape r = [b; Z.to_nat h; t; Z.to_nat d] ∧ wf r.
Proof.
  intros sizes. subst sizes. unfold ClvpSelfAttention_sizes.
  split; [|split; [|split; [|split]]].
  - intros ->. by rewrite decide_True.
  - intros Hheads Hndiv. rewrite decide_False by done.
    rewrite decide_True; [done|]. intros Heq. apply Hndiv.
    exists (hidden_size `div` num_attention_heads). lia.
  - intros Hheads ->. rewrite decide_False by done. rewrite Z.div_0_l by done.
    rewrite decide_False by lia. by rewrite decide_True.
  - intros Hheads [q ->] Hsize. rewrite decide_False by done. rewrite Z.div_mul by done.
    rewrite decide_False by lia. rewrite decide_False; [done|]. intros ->. lia.
  - intros e h d scale. destruct (decide (num_attention_heads = 0)); [done|].
    destruct (decide (_ ≠ hidden_size)) as [|Heq]; [done|].
    destruct (decide (_ = 0)) as [|Hd0]; [done|]. intros [= <- <- <- <-].
    apply dec_stable in Heq. split; [done|]. split; [done|]. split; [done|].
    intros self x b t He Hh Hd Hhpos Hdpos Hb Hs Hwf.
    rewrite <- Hh, <- Hd in *. apply shape_splits_heads; try done.
    by rewrite Heq.
Qed.

(** The results of [attention_output] come from its arguments. *)
Lemma attention_output_Ok (self : ClvpSelfAttention) (rng : nat → bool)
    (st : AttentionStates) (attn_weights : Tensor A) (head_mask : option (Tensor A))
    (output_attentions : bool) (out : Tensor A) (present : option (Tensor A * Tensor A))
    (weights : option (Tensor A)) :
  attention_output self rng st attn_weights head_mask output_attentions
    = Ok (out, present, weights) →
  present = st_present st ∧ (output_attentions = true ↔ is_Some weights).
Proof.
  unfold attention_output. intros Hout.
  apply bind_Ok in Hout as (w & _ & Hout).
  apply bind_Ok in Hout as (o & _ & Hout).
  destruct (decide _); [done|].
  apply bind_Ok in Hout as (o1 & _ & Hout).
  apply bind_Ok in Hout as (o2 & _ & Hout).
  apply bind_Ok in Hout as (o3 & _ & Hout).
  apply Ok_inj in Hout. injection Hout as <- <- <-.
  split; [done|]. destruct output_attentions; split; try done; by intros [??].
Qed.

(** The cache entry that [attention_states] prepares. *)
Lemma attention_states_present (self : ClvpSelfAttention) (hidden_states : Tensor A)
    (rotary_pos_emb : option (Tensor A)) (position_ids : option (Tensor Z))
    (past_key_value : option (Tensor A * Tensor A)) (use_cache : bool)
    (st : AttentionStates) :
  attention_states self hidden_states rotary_pos_emb position_ids past_key_value use_cache
    = Ok st →
  ∃ key_new value_new,
    (k ← k_proj self hidden_states; _shape self k (-1) (st_bsz st)) = Ok key_new
    ∧ (v ← v_proj self hidden_states; _shape self v (-1) (st_bsz st)) = Ok value_new
    ∧ ∃ key value,
        match past_key_value with
        | None => key = key_new ∧ value = value_new
        | Some (past_key, past_value) =>
            cat (-2) past_key key_new = Ok key ∧ cat (-2) past_value value_new = Ok value
        end
        ∧ st_present st = if use_cache then Some (key, value) else None.
Proof.
  unfold attention_states. destruct (decide _); [done|]. intros Hst.
  apply bind_Ok in Hst as ([[bsz ?] ?] & _ & Hst).
  apply bind_Ok in Hst as (q & _ & Hst).
  apply bind_Ok in Hst as (key_new & Hkey & Hst).
  apply bind_Ok in Hst as (value_new & Hvalue & Hst).
  apply bind_Ok in Hst as ([key value] & Hpast & Hst).
  apply bind_Ok in Hst as ([[q' k'] v'] & _ & Hst).
  apply bind_Ok in Hst as (tgt_len & _ & Hst).
  apply bind_Ok in Hst as (src_len & _ & Hst).
  apply bind_Ok in Hst as (attn_weights & _ & Hst).
  apply Ok_inj in Hst. subst st. cbn [st_bsz st_present].
  exists key_new, value_new. split; [done|]. split; [done|].
  exists key, value. split; [|done].
  destruct past_key_value as [[past_key past_value]|].
  - apply bind_Ok in Hpast as (key' & Hk & Hpast).
    apply bind_Ok in Hpast as (value' & Hv & Hpast).
    apply Ok_inj in Hpast. by injection Hpast as <- <-.
  - apply Ok_inj in Hpast. by injection Hpast as <- <-.
Qed.

(** X14.  When [ClvpSelfAttention.forward] returns, the key and value
    states for the cache are returned exactly when [use_cache] is set and
    the attention weights exactly when [output_attentions] is set.  The
    states for the cache are the projected keys and values split into
    heads, behind the past ones when there are past ones, as they are
    before the rotary embedding is applied. *)
Theorem attention_optional_outputs
    (self : ClvpSelfAttention) (rng : nat → bool) (hidden_states : Tensor A)
    (rotary_pos_emb attention_mask : option (Tensor A))
    (position_ids : option (Tensor Z)) (past_key_value : option (Tensor A * Tensor A))
    (use_cache : bool) (head_mask : option (Tensor A)) (output_attentions : bool)
    (out : Tensor A) (present : option (Tensor A * Tensor A)) (weights : option (Tensor A)) :
  ClvpSelfAttention_forward self rng hidden_states rotary_pos_emb attention_mask position_ids
    past_key_value use_cache head_mask output_attentions = Ok (out, present, weights) →
  (use_cache = true ↔ is_Some present)
  ∧ (output_attentions = true ↔ is_Some weights)
  ∧ ∃ bsz key_new value_new,
      (k ← k_proj self hidden_states; _shape self k (-1) bsz) = Ok key_new
      ∧ (v ← v_proj self hidden_states; _shape self v (-1) bsz) = Ok value_new
      ∧ ∀ key value, present = Some (key, value) →
          match past_key_value with
          | None => key = key_new ∧ value = value_new
          | Some (past_key, past_value) =>
              cat (-2) past_key key_new = Ok key ∧ cat (-2) past_value value_new = Ok value
          end.
Proof.
  unfold ClvpSelfAttention_forward. intros Hforward.
  apply bind_Ok in Hforward as (st & Hst & Hforward).
  apply bind_Ok in Hforward as (attn_weights & _ & Hforward).
  apply attention_output_Ok in Hforward as [-> Hweights].
  apply attention_states_present in Hst
    as (key_new & value_new & Hkey & Hvalue & key & value & Hpast & Hpresent).
  rewrite Hpresent. split; [|split; [done|]].
  - destruct use_cache; split; try done; by intros [??].
  - exists (st_bsz st), key_new, value_new. split; [done|]. split; [done|].
    intros key' value' Heq. destruct use_cache; [|done]. by injection Heq as <- <-.
Qed.

(** The entries of the tuple of a decoder layer. *)
Lemma decoder_layer_tuple_structure
    (self : ClvpDecoderLayer) (rng_attn rng_mlp : nat → bool) (hidden_states : Tensor A)
    (past_key_value : option (Tensor A * Tensor A)) (attention_mask : option (Tensor A))
    (position_ids : option (Tensor Z)) (head_mask : option (Tensor A))
    (use_cache output_attentions : bool) (outputs : list tuple_item) :
  ClvpDecoderLayer_forward self rng_attn rng_mlp hidden_states past_key_value attention_mask
    position_ids head_mask use_cache output_attentions = Ok outputs →
  ∃ hidden key_value weights,
    outputs = (if use_cache
               then [TensorItem hidden; key_value; tensor_or_none weights]
               else [TensorItem hidden; tensor_or_none weights])
    ∧ (use_cache = true → ∃ key value, key_value = PairItem key value)
    ∧ (output_attentions = true ↔ is_Some weights).
Proof.
  unfold ClvpDecoderLayer_forward. intros Hlayer.
  apply bind_Ok in Hlayer as (normed & _ & Hlayer).
  apply bind_Ok in Hlayer as ([[attn_output present] weights] & Hattn & Hlayer).
  apply bind_Ok in Hlayer as (h1 & _ & Hlayer).
  apply bind_Ok in Hlayer as (h2 & _ & Hlayer).
  apply bind_Ok in Hlayer as (ff & _ & Hlayer).
  apply bind_Ok in Hlayer as (hidden & _ & Hlayer).
  apply Ok_inj in Hlayer.
  unfold ClvpSelfAttention_forward in Hattn.
  apply bind_Ok in Hattn as (st & Hst & Hattn).
  apply bind_Ok in Hattn as (attn_weights & _ & Hattn).
  apply attention_output_Ok in Hattn as [-> Hweights].
  apply attention_states_present in Hst
    as (key_new & value_new & _ & _ & key & value & _ & Hpresent).
  exists hidden, (pair_or_none (st_present st)), weights.
  split; [by destruct use_cache|].
  split; [|done].
  intros ->. rewrite Hpresent. by exists key, value.
Qed.

(** X15.  The tuple that [ClvpDecoderLayer.forward] returns has three
    entries with [use_cache] and two without: the hidden states, then the
    key and value states for the cache (with [use_cache] only), then the
    attention weights, which are [None] unless [output_attentions] is
    set.  The indices by which the loop of [ClvpDecoder.forward] reads the
    tuple, [1] for the cache entry and [2 if use_cache else 1] for the
    attention weights, are those entries: without cross-attention the
    loop body never raises on the tuple of a layer. *)
Theorem decoder_layer_tuple_read_by_decoder
    (self : ClvpDecoderLayer) (rng_attn rng_mlp : nat → bool) (hidden_states : Tensor A)
    (past_key_value : option (Tensor A * Tensor A)) (attention_mask : option (Tensor A))
    (position_ids : option (Tensor Z)) (head_mask : option (Tensor A))
    (use_cache output_attentions : bool) (outputs : list tuple_item)
    (so_far : DecoderCollected) :
  ClvpDecoderLayer_forward self rng_attn rng_mlp hidden_states past_key_value attention_mask
    position_ids head_mask use_cache output_attentions = Ok outputs →
  presents so_far = (if use_cache then Some [] else None) →
  all_self_attentions so_far = (if output_attentions then Some [] else None) →
  ∃ hidden key_value weights,
    outputs = (if use_cache
               then [TensorItem hidden; key_value; tensor_or_none weights]
               else [TensorItem hidden; tensor_or_none weights])
    ∧ (use_cache = true → ∃ key value, key_value = PairItem key value)
    ∧ (output_attentions = true ↔ is_Some weights)
    ∧ ClvpDecoder_collect use_cache output_attentions false outputs so_far
      = Ok {| collected_hidden_states := TensorItem hidden;
              presents := if use_cache then Some [key_value] else None;
              all_self_attentions :=
                if output_attentions then Some [tensor_or_none weights] else None;
              all_cross_attentions := all_cross_attentions so_far |}.
Proof.
  intros Hlayer Hpresents Hattentions.
  destruct (decoder_layer_tuple_structure self rng_attn rng_mlp hidden_states past_key_value
              attention_mask position_ids head_mask use_cache output_attentions outputs Hlayer)
    as (hidden & key_value & weights & -> & Hcache & Hweights).
  exists hidden, key_value, weights. split; [done|]. split; [done|]. split; [done|].
  unfold ClvpDecoder_collect. rewrite Hpresents, Hattentions.
  destruct use_cache, output_attentions; done.
Qed.

(** X16.  With [output_attentions] and a configuration that has
    [add_cross_attention], the loop of [ClvpDecoder.forward] reads the
    entry [3 if use_cache else 2] of the tuple of the layer, which the
    tuple of a [ClvpDecoderLayer] does not have: it raises
    [IndexError]. *)
Theorem decoder_cross_attention_index_error
    (self : ClvpDecoderLayer) (rng_attn rng_mlp : nat → bool) (hidden_states : Tensor A)
    (past_key_value : option (Tensor A * Tensor A)) (attention_mask : option (Tensor A))
    (position_ids : option (Tensor Z)) (head_mask : option (Tensor A))
    (use_cache : bool) (outputs : list tuple_item) (embedded : Tensor A) :
  ClvpDecoderLayer_forward self rng_attn rng_mlp hidden_states past_key_value attention_mask
    position_ids head_mask use_cache true = Ok outputs →
  ClvpDecoder_collect use_cache true true outputs
    (ClvpDecoder_collect_init use_cache true true embedded)
  = Raise (IndexError "tuple index out of range").
Proof.
  intros Hlayer.
  destruct (decoder_layer_tuple_structure self rng_attn rng_mlp hidden_states past_key_value
              attention_mask position_ids head_mask use_cache true outputs Hlayer)
    as (hidden & key_value & weights & -> & _).
  unfold ClvpDecoder_collect, ClvpDecoder_collect_init. by destruct use_cache.
Qed.

End Generic.

Lemma attention_sizes_divisible_witness :
  ClvpSelfAttention_sizes Examples.inverse_root 1024 16 = Ok (1024, 16, 64, (1 # 8)%Q)
  ∧ ClvpSelfAttention_sizes Examples.inverse_root 10 3
    = Raise (ValueError (embed_dim_msg 10 3))
  ∧ ClvpSelfAttention_sizes Examples.inverse_root 0 5
    = Raise (ZeroDivisionError "0.0 cannot be raised to a negative power")
  ∧ ∃ r, _shape Examples.small_attention Examples.two_tokens (-1) 1 = Ok r
         ∧ shape r = [1; 1; 2; 2]%nat ∧ wf r.
Proof.
  pose proof (attention_sizes_divisible Examples.inverse_root) as Hsizes.
  split; [|split; [|split]].
  - refine (proj1 (proj2 (proj2 (proj2 (Hsizes 1024 16)))) _ _ _); [discriminate| |discriminate].
    exists 64. reflexivity.
  - refine (proj1 (proj2 (Hsizes 10 3)) _ _); [discriminate|].
    intros [q Hq]. lia.
  - refine (proj1 (proj2 (proj2 (Hsizes 0 5))) _ eq_refl). discriminate.
  - refine (proj2 (proj2 (proj2 (proj2 (proj2 (proj2 (proj2 (Hsizes 2 1)))) 2 1 2
              (Examples.inverse_root 2) eq_refl)))
              Examples.small_attention Examples.two_tokens 1%nat 2%nat
              eq_refl eq_refl eq_refl _ _ _ eq_refl eq_refl); lia.
Defined.

Lemma attention_optional_outputs_witness :
  ∃ out present weights,
    ClvpSelfAttention_forward Examples.small_attention (λ _, true) Examples.two_tokens
      None None None None true None false = Ok (out, present, weights)
    ∧ is_Some present ∧ weights = None.
Proof.
  eexists _, _, _. split; [vm_compute; reflexivity|].
  pose proof (attention_optional_outputs Examples.small_attention (λ _, true)
                Examples.two_tokens None None None None true None false _ _ _ eq_refl)
    as (Hcache & Hweights & _).
  split; [by apply Hcache|reflexivity].
Defined.

Lemma decoder_layer_tuple_read_by_decoder_witness :
  ∃ outputs hidden key_value weights,
    ClvpDecoderLayer_forward Examples.small_decoder_layer (λ _, true) (λ _, true)
      Examples.two_tokens None None None None true true = Ok outputs
    ∧ outputs = [TensorItem hidden; key_value; tensor_or_none weights]
    ∧ ClvpDecoder_collect true true false outputs
        (ClvpDecoder_collect_init true true false Examples.two_tokens)
      = Ok {| collected_hidden_states := TensorItem hidden;
              presents := Some [key_value];
              all_self_attentions := Some [tensor_or_none weights];
              all_cross_attentions := None |}.
Proof.
  destruct (ClvpDecoderLayer_forward Examples.small_decoder_layer (λ _, true) (λ _, true)
              Examples.two_tokens None None None None true true)
    as [outputs|e] eqn:Hlayer; [|vm_compute in Hlayer; discriminate Hlayer].
  destruct (decoder_layer_tuple_read_by_decoder Examples.small_decoder_layer
              (λ _, true) (λ _, true) Examples.two_tokens None None None None true true
              outputs (ClvpDecoder_collect_init true true false Examples.two_tokens)
              Hlayer eq_refl eq_refl)
    as (hidden & key_value & weights & Houtputs & _ & _ & Hcollect).
  exists outputs, hidden, key_value, weights. split; [reflexivity|]. split; [exact Houtputs|].
  exact Hcollect.
Defined.

Lemma decoder_cross_attention_index_error_witness :
  ∃ outputs,
    ClvpDecoderLayer_forward Examples.small_decoder_layer (λ _, true) (λ _, true)
      Examples.two_tokens None None None None false true = Ok outputs
    ∧ ClvpDecoder_collect false true true outputs
        (ClvpDecoder_collect_init false true true Examples.two_tokens)
      = Raise (IndexError "tuple index out of range").
Proof.
  destruct (ClvpDecoderLayer_forward Examples.small_decoder_layer (λ _, true) (λ _, true)
              Examples.two_tokens None None None None false true)
    as [outputs|e] eqn:Hlayer; [|vm_compute in Hlayer; discriminate Hlayer].
  exists outputs. split; [reflexivity|].
  exact (decoder_cross_attention_index_error Examples.small_decoder_layer
           (λ _, true) (λ _, true) Examples.two_tokens None None None None false outputs
           Examples.two_tokens Hlayer).
Defined.

End AttentionOutputs.

(** ** The text tokens of the conditioning encoder *)

Module ConditioningText.
Import Ops OpsFacts Clvp TensorRows PadTokens.

Lemma running_sums_length (acc : Z) (l : list Z) : length (running_sums acc l) = length l.
Proof. revert acc. induction l as [|x l IH]; intros acc; [done|]. cbn. by rewrite IH. Qed.

(** The running sums of a row of zeros and ones grow by at most one per
    entry. *)
Lemma running_sums_bounds (l : list Z) :
  Forall (λ x, 0 ≤ x ≤ 1) l →
  ∀ acc, Forall (λ s, acc ≤ s ≤ acc + Z.of_nat (length l)) (running_sums acc l).
Proof.
  induction 1 as [|x l Hx Hl IH]; intros acc; [done|]. cbn [running_sums length].
  apply Forall_cons. split; [lia|].
  eapply Forall_impl; [apply IH|]. intros s Hs. cbn in Hs. lia.
Qed.

Lemma running_sums_ones (k : nat) (acc : Z) :
  running_sums acc (replicate k 1) = (λ i : nat, acc + 1 + Z.of_nat i) <$> seq 0 k.
Proof.
  revert acc. induction k as [|k IH]; intros acc; [done|].
  cbn [replicate running_sums seq fmap list_fmap]. f_equal; [lia|].
  rewrite IH, <- fmap_S_seq, <- list_fmap_compose. apply list_fmap_ext.
  intros i j _. cbn. lia.
Qed.

Lemma chunks_replicate {X} (n k : nat) (x : X) :
  chunks n k (replicate (k * n) x) = replicate k (replicate n x).
Proof.
  induction k as [|k IH]; [done|]. cbn [chunks replicate].
  replace (S k * n)%nat with (n + k * n)%nat by lia.
  rewrite replicate_add, take_app_length', drop_app_length' by (by rewrite length_replicate).
  by rewrite IH.
Qed.

Lemma ones_rank2 (b n : nat) :
  shape (ones [b; n]) = [b; n] ∧ wf (ones [b; n])
  ∧ rows (ones [b; n]) = replicate b (replicate n 1).
Proof.
  split; [done|]. split.
  - unfold wf, ones. cbn [shape data]. by rewrite length_replicate.
  - rewrite (rows_rank2 _ b n) by done. unfold ones. cbn [data].
    unfold numel. cbn [foldr]. rewrite Nat.mul_1_r. apply chunks_replicate.
Qed.

(** The position ids of a mask of shape [(b, n)]. *)
Lemma position_ids_rows (m : Tensor Z) (b n : nat) :
  shape m = [b; n] → wf m →
  shape (sub_int 1 (cumsum_last m)) = [b; n]
  ∧ data (sub_int 1 (cumsum_last m))
    = concat ((λ row, (λ s, s - 1) <$> running_sums 0 row) <$> rows m).
Proof.
  intros Hs Hwf. unfold sub_int, cumsum_last, tmap, map_rows. rewrite Hs.
  cbn [shape data]. split; [done|].
  rewrite fmap_concat, <- list_fmap_compose. done.
Qed.

(** What [ClvpConditioningEncoder.forward] makes of the text tokens. *)
Lemma text_inputs_rows (bos_token_id eos_token_id : Z) (b n : nat)
    (input_ids : Tensor Z) (attention_mask : option (Tensor Z)) :
  shape input_ids = [b; n] → wf input_ids →
  (∀ m, attention_mask = Some m → shape m = [b; n] ∧ wf m) →
  ∃ ids' position_ids,
    ClvpConditioningEncoder_text_inputs bos_token_id eos_token_id b n input_ids attention_mask
    = Ok (ids', position_ids)
    ∧ shape ids' = [b; (n + 2)%nat] ∧ wf ids'
    ∧ shape position_ids = [b; (n + 2)%nat]
    ∧ data position_ids
      = concat ((λ row, (λ s, s - 1) <$> running_sums 0 (1 :: 1 :: row))
                  <$> rows (default (ones [b; n]) attention_mask)).
Proof.
  intros Hs Hwf Hm. unfold ClvpConditioningEncoder_text_inputs.
  set (mask := default (ones [b; n]) attention_mask).
  assert (shape mask = [b; n] ∧ wf mask) as [Hsm Hwfm].
  { subst mask. destruct attention_mask as [m|]; cbn [default].
    - by apply Hm.
    - destruct (ones_rank2 b n) as (? & ? & _). done. }
  destruct (pad_extra_bos_eos_tokens_rows input_ids (Some mask) 0 bos_token_id eos_token_id
              true true b n Hs Hwf)
    as (ids' & mask' & Hpad & Hs' & Hwf' & _ & m' & -> & Hsm' & Hwfm' & Hrm).
  { by intros ? [= <-]. }
  rewrite Hpad. cbn [mbind result_bind]. exists ids', (sub_int 1 (cumsum_last m')).
  split; [done|]. split; [done|]. split; [done|].
  destruct (position_ids_rows m' b (n + 2) Hsm' Hwfm') as [Hsp Hdp].
  split; [done|]. rewrite Hdp, Hrm, <- list_fmap_compose. done.
Qed.

(** X17.  Without an attention mask, [ClvpConditioningEncoder.forward]
    gives a batch of [b] texts of [n] tokens the token ids with the bos and
    eos tokens, of shape [(b, n + 2)], and for every text the position
    ids [0, 1, ..., n + 1]. *)
Theorem conditioning_encoder_default_position_ids (bos_token_id eos_token_id : Z)
    (b n : nat) (input_ids : Tensor Z) :
  shape input_ids = [b; n] → wf input_ids →
  ∃ ids' position_ids,
    ClvpConditioningEncoder_text_dims (A := Z) (Some input_ids) None = Ok (b, n)
    ∧ ClvpConditioningEncoder_text_inputs bos_token_id eos_token_id b n input_ids None
      = Ok (ids', position_ids)
    ∧ shape ids' = [b; (n + 2)%nat]
    ∧ shape position_ids = [b; (n + 2)%nat]
    ∧ rows position_ids = replicate b (Z.of_nat <$> seq 0 (n + 2)).
Proof.
  intros Hs Hwf.
  destruct (text_inputs_rows bos_token_id eos_token_id b n input_ids None Hs Hwf)
    as (ids' & position_ids & Htext & Hs' & _ & Hsp & Hdp); [done|].
  exists ids', position_ids.
  split; [unfold ClvpConditioningEncoder_text_dims; by rewrite Hs|].
  split; [done|]. split; [done|]. split; [done|].
  cbn [default] in Hdp. destruct (ones_rank2 b n) as (_ & _ & Hones).
  rewrite Hones, fmap_replicate in Hdp.
  rewrite (rows_rank2 _ b (n + 2)) by done. rewrite Hdp.
  set (row := (λ s, s - 1) <$> _).
  assert (row = Z.of_nat <$> seq 0 (n + 2)) as ->.
  { subst row. change (1 :: 1 :: replicate n 1) with (replicate (S (S n)) 1).
    rewrite running_sums_ones, <- list_fmap_compose.
    replace (n + 2)%nat with (S (S n)) by lia.
    apply list_fmap_ext. intros i j _. cbn. lia. }
  replace b with (length (replicate b (Z.of_nat <$> seq 0 (n + 2)))) at 1
    by apply length_replicate.
  apply chunks_concat, Forall_replicate. by rewrite length_fmap, length_seq.
Qed.

(** Every index below the number of rows is found in an embedding
    table. *)
Lemma embedding_in_range {A} (table : Tensor A) (ids : Tensor Z) (n dim : nat) :
  shape table = [n; dim] → Forall (λ i, 0 ≤ i < Z.of_nat n) (data ids) →
  is_ok (embedding table ids) = true.
Proof.
  intros Hs Hids. unfold embedding. rewrite Hs.
  rewrite (mapM_Ok _ (λ i, take dim (drop (Z.to_nat i * dim) (data table)))); [done|].
  eapply Forall_impl; [exact Hids|]. intros i Hi. cbn in Hi. cbn. by rewrite decide_True.
Qed.

(** X18.  [generate] accepts texts of up to [max_text_tokens - 3] tokens
    because three tokens are added: it appends the eos token, and the
    conditioning encoder adds the bos and eos tokens.  For such texts
    (and a mask of zeros and ones, when one is given) the token ids that
    the conditioning encoder embeds have the shape [(b, n + 3)], and all
    their position ids lie in [0, max_text_tokens): the lookup in a
    position embedding of [max_text_tokens] rows finds every one of
    them. *)
Theorem generate_position_ids_in_range (bos_token_id eos_token_id max_text_tokens : Z)
    (b n : nat) (input_ids : Tensor Z) (attention_mask : option (Tensor Z)) :
  shape input_ids = [b; n] → wf input_ids →
  (∀ m, attention_mask = Some m →
        shape m = [b; n] ∧ wf m ∧ Forall (λ x, 0 ≤ x ≤ 1) (data m)) →
  Z.of_nat n ≤ max_text_tokens - 3 →
  ∃ ids1 mask1 ids2 position_ids,
    _pad_extra_bos_eos_tokens input_ids attention_mask 0 bos_token_id eos_token_id false true
    = Ok (ids1, mask1)
    ∧ ClvpConditioningEncoder_text_dims (A := Z) (Some ids1) None = Ok (b, S n)
    ∧ ClvpConditioningEncoder_text_inputs bos_token_id eos_token_id b (S n) ids1 mask1
      = Ok (ids2, position_ids)
    ∧ shape ids2 = [b; (n + 3)%nat]
    ∧ shape position_ids = [b; (n + 3)%nat]
    ∧ Forall (λ p, 0 ≤ p < max_text_tokens) (data position_ids)
    ∧ ∀ (A : Type) (text_position_embedding : Tensor A) (dim : nat),
        shape text_position_embedding = [Z.to_nat max_text_tokens; dim] →
        is_ok (embedding text_position_embedding position_ids) = true.
Proof.
  intros Hs Hwf Hm Hmax.
  destruct (pad_extra_bos_eos_tokens_rows input_ids attention_mask 0 bos_token_id eos_token_id
              false true b n Hs Hwf)
    as (ids1 & mask1 & Hpad & Hs1 & Hwf1 & _ & Hmask1).
  { intros m Hmask. destruct (Hm m Hmask) as (? & ? & _). done. }
  cbn [Nat.b2n Nat.add] in Hs1, Hmask1. rewrite Nat.add_1_r in Hs1.
  assert (∀ m, mask1 = Some m → shape m = [b; S n] ∧ wf m) as Hm1.
  { intros m ->. destruct attention_mask as [m0|]; [|done].
    destruct Hmask1 as (m' & [= <-] & Hsm & Hwfm & _). by rewrite Nat.add_1_r in Hsm. }
  destruct (text_inputs_rows bos_token_id eos_token_id b (S n) ids1 mask1 Hs1 Hwf1 Hm1)
    as (ids2 & position_ids & Htext & Hs2 & _ & Hsp & Hdp).
  replace (S n + 2)%nat with (n + 3)%nat in * by lia.
  assert (Forall (λ row, length row = S n ∧ Forall (λ x, 0 ≤ x ≤ 1) row)
            (rows (default (ones [b; S n]) mask1))) as Hrows.
  { destruct attention_mask as [m0|].
    - destruct Hmask1 as (m' & -> & Hsm & Hwfm & Hrm).
      change (default (ones [b; S n]) (Some m')) with m'.
      destruct (Hm m0 eq_refl) as (Hs0 & Hwf0 & H01).
      rewrite Hrm. apply Forall_fmap.
      pose proof (rows_uniform_rank2 m0 b n Hs0 Hwf0) as Hlen.
      assert (Forall (Forall (λ x, 0 ≤ x ≤ 1)) (rows m0)) as Hall.
      { apply Forall_concat. unfold rows. rewrite concat_chunks; [done|].
        rewrite Hwf0, (numel_lead_last (shape m0)). done. }
      apply Forall_forall. intros row Hrow. rewrite Forall_forall in Hlen, Hall.
      cbn. split; [by rewrite (Hlen row Hrow)|].
      apply Forall_cons. split; [lia|]. by apply Hall.
    - subst mask1. change (default (ones [b; S n]) None) with (ones [b; S n]).
      destruct (ones_rank2 b (S n)) as (_ & _ & ->).
      apply Forall_replicate. split; [by rewrite length_replicate|].
      apply Forall_replicate. lia. }
  assert (Forall (λ p, 0 ≤ p < max_text_tokens) (data position_ids)) as Hrange.
  { rewrite Hdp. apply Forall_concat, Forall_fmap.
    eapply Forall_impl; [exact Hrows|]. intros row [Hlen H01].
    cbn [running_sums fmap list_fmap].
    apply Forall_cons. split; [lia|].
    apply Forall_cons. split; [lia|].
    apply Forall_fmap.
    eapply Forall_impl; [apply (running_sums_bounds row H01)|].
    intros s Hsum. cbn in Hsum. cbn. lia. }
  exists ids1, mask1, ids2, position_ids.
  split; [done|].
  split; [unfold ClvpConditioningEncoder_text_dims; by rewrite Hs1|].
  split; [done|]. split; [done|]. split; [done|]. split; [done|].
  intros A table dim Htable.
  apply (embedding_in_range table position_ids (Z.to_nat max_text_tokens) dim Htable).
  eapply Forall_impl; [exact Hrange|]. intros p Hp. cbn in Hp. lia.
Qed.

Lemma conditioning_encoder_default_position_ids_witness :
  ∃ ids' position_ids,
    ClvpConditioningEncoder_text_dims (A := Z) (Some Examples.two_texts) None = Ok (2, 3)%nat
    ∧ ClvpConditioningEncoder_text_inputs 255 0 2 3 Examples.two_texts None
      = Ok (ids', position_ids)
    ∧ shape ids' = [2; 5]%nat
    ∧ shape position_ids = [2; 5]%nat
    ∧ rows position_ids = replicate 2 (Z.of_nat <$> seq 0 5).
Proof.
  exact (conditioning_encoder_default_position_ids 255 0 2 3 Examples.two_texts
           eq_refl eq_refl).
Defined.

Lemma generate_position_ids_in_range_witness :
  ∃ ids1 mask1 ids2 position_ids,
    _pad_extra_bos_eos_tokens Examples.two_texts (Some Examples.two_texts_mask) 0 255 0
      false true = Ok (ids1, mask1)
    ∧ ClvpConditioningEncoder_text_dims (A := Z) (Some ids1) None = Ok (2, 4)%nat
    ∧ ClvpConditioningEncoder_text_inputs 255 0 2 4 ids1 mask1 = Ok (ids2, position_ids)
    ∧ shape ids2 = [2; 6]%nat
    ∧ shape position_ids = [2; 6]%nat
    ∧ Forall (λ p, 0 ≤ p < 6) (data position_ids)
    ∧ ∀ (A : Type) (text_position_embedding : Tensor A) (dim : nat),
        shape text_position_embedding = [6%nat; dim] →
        is_ok (embedding text_position_embedding position_ids) = true.
Proof.
  refine (generate_position_ids_in_range 255 0 6 2 3 Examples.two_texts
            (Some Examples.two_texts_mask) eq_refl eq_refl _ _).
  - intros m [= <-]. split; [reflexivity|]. split; [reflexivity|].
    vm_compute. repeat constructor; discriminate.
  - lia.
Defined.

End ConditioningText.

(** ** The concatenation of the audio vector and the text *)

Module ConditioningConcat.
Import Ops OpsFacts Clvp QScalar TensorRows.

(** Concatenation of two tensors of rank three along the second
    dimension, batch by batch. *)
Lemma cat_dim1_rank3 {X} (a b : Tensor X) (n l1 l2 h : nat) :
  shape a = [n; l1; h] → shape b = [n; l2; h] →
  cat 1 a b
  = Ok (mkTensor [n; (l1 + l2)%nat; h]
          (concat (zip_with app (chunks (l1 * h) n (data a)) (chunks (l2 * h) n (data b))))).
Proof.
  intros Ha Hb. unfold cat, ndim. rewrite Ha, Hb. cbn [length].
  replace (norm_index 3 1) with (Some 1%nat)
    by (symmetry; apply (norm_index_nonneg 3 1); lia).
  cbn [lookup list_lookup take drop]. rewrite decide_True by done.
  unfold numel. cbn [foldr app]. by rewrite !Nat.mul_1_r.
Qed.

Lemma tile_third_last_rank3 {X} (k : nat) (t : Tensor X) (d0 d1 d2 : nat) :
  shape t = [d0; d1; d2] → wf t →
  tile_third_last k t = mkTensor [(k * d0)%nat; d1; d2] (concat (replicate k (data t))).
Proof.
  intros Hs Hwf. unfold tile_third_last. rewrite Hs. cbn [length Nat.sub take drop].
  unfold pad_shape. cbn [length Nat.sub replicate app]. f_equal.
  unfold numel at 2. cbn [foldr chunks fmap list_fmap concat]. rewrite app_nil_r.
  rewrite take_ge; [done|]. rewrite Hwf, Hs. done.
Qed.

Lemma size_0_rank3 {X} (t : Tensor X) (d0 d1 d2 : nat) :
  shape t = [d0; d1; d2] → size t 0 = Ok d0.
Proof. intros Hs. unfold size, ndim. rewrite Hs. by cbn. Qed.

(** The last step: the blocks of the result are the blocks of the two
    tensors, joined. *)
Lemma cat_dim1_blocks {X} (mel text : Tensor X) (n l h : nat) :
  shape mel = [n; 1%nat; h] → wf mel → shape text = [n; l; h] → wf text →
  ∃ r, cat 1 mel text = Ok r
       ∧ shape r = [n; (1 + l)%nat; h] ∧ wf r
       ∧ chunks ((1 + l) * h) n (data r)
         = zip_with app (chunks h n (data mel)) (chunks (l * h) n (data text)).
Proof.
  intros Hsm Hwfm Hst Hwft. rewrite (cat_dim1_rank3 mel text n 1 l h Hsm Hst).
  rewrite Nat.mul_1_l.
  assert (Forall (λ r, length r = h) (chunks h n (data mel))) as Hm.
  { apply chunks_uniform. rewrite Hwfm, Hsm. unfold numel. cbn [foldr]. lia. }
  assert (Forall (λ r, length r = (l * h)%nat) (chunks (l * h) n (data text))) as Ht.
  { apply chunks_uniform. rewrite Hwft, Hst. unfold numel. cbn [foldr]. lia. }
  set (joined := zip_with app _ _).
  assert (length joined = n) as Hlen.
  { subst joined. rewrite length_zip_with, !chunks_length. lia. }
  assert (Forall (λ r, length r = ((1 + l) * h)%nat) joined) as Hjoined.
  { apply Forall_forall. intros y Hy. subst joined.
    apply elem_of_lookup_zip_with in Hy as (i & a & b & -> & Ha & Hb).
    rewrite Forall_lookup in Hm, Ht. rewrite length_app, (Hm _ _ Ha), (Ht _ _ Hb). lia. }
  eexists. split; [done|]. split; [done|]. split.
  - unfold wf. cbn [shape data]. rewrite (concat_length_uniform ((1 + l) * h)) by done.
    rewrite Hlen. unfold numel. cbn [foldr]. lia.
  - cbn [data]. rewrite <- Hlen at 1. by apply chunks_concat.
Qed.

Lemma tiled_blocks {X} (k m : nat) (d : list X) :
  length d = m → chunks m (k * 1) (concat (replicate k d)) = replicate k d.
Proof.
  intros Hd. rewrite Nat.mul_1_r.
  replace k with (length (replicate k d)) at 1 by apply length_replicate.
  apply chunks_concat, Forall_replicate. done.
Qed.

Lemma single_block {X} (m : nat) (d : list X) :
  length d = m → chunks m 1 d = [d].
Proof. intros Hd. cbn. by rewrite take_ge by lia. Qed.

(** X19.  [ClvpConditioningEncoder.forward] puts the vector of every
    audio in front of the embeddings of its text.  One text is repeated
    for every audio and one audio for every text; with [texts] texts and
    [audios] audios, both different from one and from each other, the
    method raises [ValueError].  Otherwise the result has the shape
    [(batch, 1 + length, hidden)], and its entry for [i] is the audio
    vector followed by the text embeddings that belong to [i]. *)
Theorem conditioning_concat_batches {A : Type} (text_embeds mel_spec : Tensor A)
    (texts audios l h : nat) :
  shape text_embeds = [texts; l; h] → wf text_embeds →
  shape mel_spec = [audios; 1%nat; h] → wf mel_spec →
  (texts ≠ 1%nat → audios ≠ 1%nat → texts ≠ audios →
     ClvpConditioningEncoder_concat text_embeds mel_spec
     = Raise (ValueError (texts_audios_msg texts audios)))
  ∧ (texts = 1%nat ∨ audios = 1%nat ∨ texts = audios →
       let batch := if decide (texts = 1%nat) then audios else texts in
       ∃ r, ClvpConditioningEncoder_concat text_embeds mel_spec = Ok r
            ∧ shape r = [batch; (1 + l)%nat; h] ∧ wf r
            ∧ ∀ i, (i < batch)%nat →
                ∃ audio text,
                  chunks h audios (data mel_spec) !! (if decide (audios = 1%nat) then 0%nat else i)
                  = Some audio
                  ∧ chunks (l * h) texts (data text_embeds)
                      !! (if decide (texts = 1%nat) then 0%nat else i) = Some text
                  ∧ chunks ((1 + l) * h) batch (data r) !! i = Some (audio ++ text)).
Proof.
  intros Hst Hwft Hsm Hwfm. unfold ClvpConditioningEncoder_concat.
  rewrite (size_0_rank3 text_embeds _ _ _ Hst), (size_0_rank3 mel_spec _ _ _ Hsm).
  cbn [mbind result_bind].
  assert (length (data text_embeds) = (texts * (l * h))%nat) as Hlt.
  { rewrite Hwft, Hst. unfold numel. cbn [foldr]. lia. }
  assert (length (data mel_spec) = (audios * h)%nat) as Hlm.
  { rewrite Hwfm, Hsm. unfold numel. cbn [foldr]. lia. }
  split.
  - intros H1 H2 H3. rewrite decide_False by tauto. rewrite decide_False by tauto.
    by rewrite decide_True.
  - intros Hcases.
    destruct (decide (texts = 1%nat ∧ audios ≠ 1%nat)) as [[-> Ha]|Hn1].
    + (* one text, several audios *)
      rewrite (decide_True (P := 1%nat = 1%nat)) by done. cbn [mbind result_bind].
      rewrite (tile_third_last_rank3 audios text_embeds 1 l h Hst Hwft).
      set (tiled := mkTensor _ _).
      assert (wf tiled) as Hwftiled.
      { unfold wf. subst tiled. cbn [shape data].
        rewrite (concat_length_uniform (l * h)).
        - rewrite length_replicate. unfold numel. cbn [foldr]. lia.
        - apply Forall_replicate. lia. }
      destruct (cat_dim1_blocks mel_spec tiled audios l h) as (r & Hr & Hsr & Hwfr & Hblocks);
        [done|done|subst tiled; cbn [shape]; by rewrite Nat.mul_1_r|done|].
      exists r. split; [done|]. split; [done|]. split; [done|].
      intros i Hi. rewrite decide_False by done.
      destruct (lookup_lt_is_Some_2 (chunks h audios (data mel_spec)) i) as [audio Haudio];
        [by rewrite chunks_length|].
      exists audio, (data text_embeds). split; [done|].
      split; [by rewrite single_block by lia|].
      rewrite Hblocks. apply lookup_zip_with_Some. exists audio, (data text_embeds).
      split; [done|]. split; [done|]. subst tiled. cbn [data].
      rewrite <- (Nat.mul_1_r audios) at 1. rewrite tiled_blocks by lia.
      by apply lookup_replicate_2.
    + cbn [mbind result_bind].
      destruct (decide (texts ≠ 1%nat ∧ audios = 1%nat)) as [[Ht ->]|Hn2].
      * (* several texts, one audio *)
        cbn [mbind result_bind].
        rewrite (tile_third_last_rank3 texts mel_spec 1 1 h Hsm Hwfm).
        set (tiled := mkTensor _ _).
        assert (wf tiled) as Hwftiled.
        { unfold wf. subst tiled. cbn [shape data].
          rewrite (concat_length_uniform h).
          - rewrite length_replicate. unfold numel. cbn [foldr]. lia.
          - apply Forall_replicate. lia. }
        destruct (cat_dim1_blocks tiled text_embeds texts l h)
          as (r & Hr & Hsr & Hwfr & Hblocks);
          [subst tiled; cbn [shape]; by rewrite Nat.mul_1_r|done|done|done|].
        rewrite (decide_False (P := texts = 1%nat)) by done.
        exists r. split; [done|]. split; [done|]. split; [done|].
        intros i Hi. rewrite (decide_True (P := 1%nat = 1%nat)) by done.
        rewrite (decide_False (P := texts = 1%nat)) by done.
        destruct (lookup_lt_is_Some_2 (chunks (l * h) texts (data text_embeds)) i)
          as [text Htext]; [by rewrite chunks_length|].
        exists (data mel_spec), text. split; [by rewrite single_block by lia|].
        split; [done|].
        rewrite Hblocks. apply lookup_zip_with_Some. exists (data mel_spec), text.
        split; [done|]. split; [|done]. subst tiled. cbn [data].
        rewrite <- (Nat.mul_1_r texts) at 1. rewrite tiled_blocks by lia.
        by apply lookup_replicate_2.
      * (* as many texts as audios *)
        assert (texts = audios) as -> by lia.
        rewrite decide_False by lia. cbn [mbind result_bind].
        destruct (cat_dim1_blocks mel_spec text_embeds audios l h)
          as (r & Hr & Hsr & Hwfr & Hblocks); [done..|].
        exists r. split; [done|].
        split; [by destruct (decide (audios = 1%nat))|]. split; [done|].
        intros i Hi.
        assert (i < audios)%nat as Hi' by (by destruct (decide (audios = 1%nat))).
        assert ((if decide (audios = 1%nat) then 0%nat else i) = i) as ->.
        { destruct (decide (audios = 1%nat)); lia. }
        destruct (lookup_lt_is_Some_2 (chunks h audios (data mel_spec)) i) as [audio Haudio];
          [by rewrite chunks_length|].
        destruct (lookup_lt_is_Some_2 (chunks (l * h) audios (data text_embeds)) i)
          as [text Htext]; [by rewrite chunks_length|].
        exists audio, text. split; [done|]. split; [done|].
        assert ((if decide (audios = 1%nat) then audios else audios) = audios) as ->
          by (by destruct (decide (audios = 1%nat))).
        rewrite Hblocks. apply lookup_zip_with_Some. by exists audio, text.
Qed.

Lemma conditioning_concat_batches_witness :
  ClvpConditioningEncoder_concat (mkTensor [2; 1; 1]%nat [1; 2]%Q)
    (mkTensor [3; 1; 1]%nat [7; 8; 9]%Q)
  = Raise (ValueError "The number of texts and number of audios must be same. Found 2 texts vs 3 audios")
  ∧ ∃ r, ClvpConditioningEncoder_concat (mkTensor [1; 2; 1]%nat [1; 2]%Q)
           (mkTensor [2; 1; 1]%nat [7; 8]%Q) = Ok r
         ∧ shape r = [2; 3; 1]%nat ∧ data r = [7; 1; 2; 8; 1; 2]%Q.
Proof.
  split.
  - refine (proj1 (conditioning_concat_batches (mkTensor [2; 1; 1]%nat [1; 2]%Q)
                     (mkTensor [3; 1; 1]%nat [7; 8; 9]%Q) 2 3 1 1
                     eq_refl eq_refl eq_refl eq_refl) _ _ _); lia.
  - destruct (proj2 (conditioning_concat_batches (mkTensor [1; 2; 1]%nat [1; 2]%Q)
                       (mkTensor [2; 1; 1]%nat [7; 8]%Q) 1 2 2 1
                       eq_refl eq_refl eq_refl eq_refl) (or_introl eq_refl))
      as (r & Hr & Hs & _).
    exists r. split; [exact Hr|]. split; [exact Hs|].
    vm_compute in Hr. apply Ok_inj in Hr. by subst r.
Defined.

End ConditioningConcat.

(** ** [fix_speech_decoder_output] *)


Module FixSpeech.
Import Ops OpsFacts Clvp TensorRows.

(** The marks of the stop tokens of a row. *)
Lemma stop_marks_sum (eos : Z) (l : list Z) :
  0 ≤ foldr Z.add 0 ((λ x, if decide (x = eos) then 1 else 0) <$> l)
  ∧ (foldr Z.add 0 ((λ x, if decide (x = eos) then 1 else 0) <$> l) = 0 ↔ eos ∉ l).
Proof.
  induction l as [|x l [IH0 IH]]; [split; [done|]; split; [intros _; apply not_elem_of_nil|done]|].
  rewrite fmap_cons. cbn [foldr]. rewrite not_elem_of_cons.
  destruct (decide (x = eos)) as [->|Hx]; split; try lia.
  rewrite Z.add_0_l, IH. split; [intros ?; split; [congruence|done]|by intros [_ ?]].
Qed.

Lemma int_argmax_from_one (eos : Z) (l : list Z) (best_i i : nat) :
  int_argmax_from best_i 1 i ((λ x, if decide (x = eos) then 1 else 0) <$> l) = best_i.
Proof.
  revert i. induction l as [|x l IH]; intros i; [done|].
  rewrite fmap_cons. cbn [int_argmax_from].
  rewrite decide_False by (destruct (decide (x = eos)); lia). apply IH.
Qed.

Lemma int_argmax_from_zero (eos : Z) (pre post : list Z) (best_i i : nat) :
  eos ∉ pre →
  int_argmax_from best_i 0 i ((λ x, if decide (x = eos) then 1 else 0) <$> (pre ++ eos :: post))
  = (i + length pre)%nat.
Proof.
  revert i. induction pre as [|x pre IH]; intros i Hpre.
  - cbn [app]. rewrite fmap_cons. cbn [int_argmax_from].
    rewrite (decide_True (P := eos = eos)) by done.
    rewrite (decide_True (P := 0 < 1)) by lia. rewrite int_argmax_from_one. cbn. lia.
  - apply not_elem_of_cons in Hpre as [Hx Hpre].
    cbn [app]. rewrite fmap_cons. cbn [int_argmax_from].
    rewrite (decide_False (P := x = eos)) by done.
    rewrite (decide_False (P := 0 < 0)) by lia. rewrite IH by done. cbn. lia.
Qed.

(** [argmax] of the marks is the position of the first stop token. *)
Lemma int_argmax_first_stop (eos : Z) (pre post : list Z) :
  eos ∉ pre →
  int_argmax ((λ x, if decide (x = eos) then 1 else 0) <$> (pre ++ eos :: post)) = length pre.
Proof.
  intros Hpre. destruct pre as [|x pre].
  - cbn [app]. rewrite fmap_cons. cbn [int_argmax].
    rewrite (decide_True (P := eos = eos)) by done.
    apply int_argmax_from_one.
  - apply not_elem_of_cons in Hpre as [Hx Hpre].
    cbn [app]. rewrite fmap_cons. cbn [int_argmax].
    rewrite (decide_False (P := x = eos)) by done.
    by rewrite int_argmax_from_zero.
Qed.

Lemma replace_stop_without (eos code : Z) (l : list Z) :
  eos ∉ l → (λ x, if decide (x = eos) then code else x) <$> l = l.
Proof.
  intros Hl. induction l as [|x l IH]; [done|].
  apply not_elem_of_cons in Hl as [Hx Hl]. cbn. rewrite decide_False by done.
  by rewrite IH.
Qed.

(** A row with at least three tokens. *)
Lemma fix_speech_decoder_output_row_cases (code c1 c2 c3 eos : Z) (each_seq : list Z) :
  (3 ≤ length each_seq)%nat →
  (eos ∉ each_seq →
     fix_speech_decoder_output_row [code; c1; c2; c3] eos each_seq = Ok each_seq)
  ∧ (∀ pre post, each_seq = pre ++ eos :: post → eos ∉ pre →
       fix_speech_decoder_output_row [code; c1; c2; c3] eos each_seq
       = Ok (take (length each_seq - 3)
               (pre ++ replicate (length each_seq - length pre) code) ++ [c1; c2; c3])).
Proof.
  intros Hlen. unfold fix_speech_decoder_output_row.
  destruct (stop_marks_sum eos each_seq) as [_ Hsum]. split.
  - intros Hno. rewrite decide_True by (by apply Hsum). by rewrite replace_stop_without.
  - intros pre post Heq Hpre. subst each_seq.
    rewrite decide_False; last first.
    { rewrite Hsum. intros Hno. apply Hno. apply elem_of_app. right. by left. }
    rewrite length_fmap.
    rewrite (int_argmax_first_stop eos pre post Hpre).
    assert (take (length pre)
              ((λ x, if decide (x = eos) then code else x) <$> (pre ++ eos :: post)) = pre)
      as ->.
    { rewrite fmap_app, take_app_length' by (by rewrite length_fmap).
      by apply replace_stop_without. }
    set (fixed := pre ++ replicate (length (pre ++ eos :: post) - length pre) code).
    assert (length fixed = length (pre ++ eos :: post)) as Hfixed.
    { subst fixed. rewrite length_app, length_replicate.
      rewrite length_app. cbn. lia. }
    assert (length pre < length (pre ++ eos :: post))%nat as Hstm
      by (rewrite length_app; cbn; lia).
    rewrite Hfixed. rewrite decide_True by lia.
    rewrite decide_True by (cbn [length]; lia). done.
Qed.

Lemma fix_speech_decoder_output_row_length (code c1 c2 c3 eos : Z) (each_seq fixed : list Z) :
  (3 ≤ length each_seq)%nat →
  fix_speech_decoder_output_row [code; c1; c2; c3] eos each_seq = Ok fixed →
  length fixed = length each_seq.
Proof.
  intros Hlen Hfixed.
  destruct (fix_speech_decoder_output_row_cases code c1 c2 c3 eos each_seq Hlen)
    as [Hno Hstop].
  destruct (decide (eos ∈ each_seq)) as [Hin|Hnot].
  - apply list_elem_of_split_l in Hin as (pre & post & Heq & Hpre).
    rewrite (Hstop pre post Heq Hpre) in Hfixed. apply Ok_inj in Hfixed. subst fixed.
    rewrite length_app, length_take, length_app, length_replicate.
    rewrite Heq, length_app in *. cbn in *. lia.
  - rewrite (Hno Hnot) in Hfixed. apply Ok_inj in Hfixed. by subst.
Qed.

Lemma fix_speech_decoder_output_row_no_stop (code c1 c2 c3 eos : Z)
    (each_seq fixed : list Z) :
  (3 ≤ length each_seq)%nat → eos ∉ [code; c1; c2; c3] →
  fix_speech_decoder_output_row [code; c1; c2; c3] eos each_seq = Ok fixed →
  eos ∉ fixed.
Proof.
  intros Hlen Hcodes Hfixed.
  destruct (fix_speech_decoder_output_row_cases code c1 c2 c3 eos each_seq Hlen)
    as [Hno Hstop].
  destruct (decide (eos ∈ each_seq)) as [Hin|Hnot].
  - apply list_elem_of_split_l in Hin as (pre & post & Heq & Hpre).
    rewrite (Hstop pre post Heq Hpre) in Hfixed. apply Ok_inj in Hfixed. subst fixed.
    rewrite !not_elem_of_cons in Hcodes. destruct Hcodes as (H0 & H1 & H2 & H3 & _).
    rewrite not_elem_of_app. split.
    + intros Hin. apply elem_of_take in Hin as (i & Hi & _).
      apply list_elem_of_lookup_2, elem_of_app in Hi as [Hi|Hi]; [done|].
      apply elem_of_replicate in Hi as [Hi _]. done.
    + rewrite !not_elem_of_cons. repeat split; try done. apply not_elem_of_nil.
  - rewrite (Hno Hnot) in Hfixed. apply Ok_inj in Hfixed. by subst.
Qed.

Lemma mapM_Forall2 {X Y} (f : X → result Y) (l : list X) (ys : list Y) :
  mapM f l = Ok ys → Forall2 (λ x y, f x = Ok y) l ys.
Proof.
  revert ys. induction l as [|x l IH]; intros ys Hys.
  - apply Ok_inj in Hys. subst. constructor.
  - cbn [mapM] in Hys. apply bind_Ok in Hys as (y & Hy & Hys).
    apply bind_Ok in Hys as (ys' & Hys' & Hys). apply Ok_inj in Hys. subst ys.
    constructor; [done|]. by apply IH.
Qed.

(** The method on a batch of [b] sequences of [l + 1] tokens, [l] being
    at least three: every row is fixed on its own. *)
Lemma fix_speech_decoder_output_tensor (code c1 c2 c3 eos : Z) (speech_ids : Tensor Z)
    (b l : nat) :
  shape speech_ids = [b; S l] → wf speech_ids → (3 ≤ l)%nat →
  ∃ fixed,
    ClvpModelForConditionalGeneration_fix_speech_decoder_output [code; c1; c2; c3] eos
      speech_ids = Ok fixed
    ∧ shape fixed = [b; l] ∧ wf fixed
    ∧ Forall2 (λ row fixed_row,
                 length (drop 1 row) = l
                 ∧ fix_speech_decoder_output_row [code; c1; c2; c3] eos (drop 1 row)
                   = Ok fixed_row)
        (rows speech_ids) (rows fixed).
Proof.
  intros Hs Hwf Hl. unfold ClvpModelForConditionalGeneration_fix_speech_decoder_output.
  rewrite Hs. pose proof (rows_uniform_rank2 speech_ids b (S l) Hs Hwf) as Hrows.
  set (f := λ each_seq : list Z, fix_speech_decoder_output_row _ eos (drop 1 each_seq)).
  assert (Forall (λ row, is_ok (f row) = true) (rows speech_ids)) as Hok.
  { eapply Forall_impl; [exact Hrows|]. intros row Hrow. cbn in Hrow. subst f. cbn beta.
    assert (3 ≤ length (drop 1 row))%nat as Hlen by (rewrite length_drop; lia).
    destruct (fix_speech_decoder_output_row_cases code c1 c2 c3 eos (drop 1 row) Hlen)
      as [Hno Hstop].
    destruct (decide (eos ∈ drop 1 row)) as [Hin|Hnot].
    - apply list_elem_of_split_l in Hin as (pre & post & Heq & Hpre).
      by rewrite (Hstop pre post Heq Hpre).
    - by rewrite (Hno Hnot). }
  apply ContrastiveLoss.mapM_is_ok, ContrastiveLoss.is_ok_true in Hok as [fixed Hfixed].
  rewrite Hfixed. cbn [mbind result_bind].
  apply mapM_Forall2 in Hfixed.
  assert (Forall2 (λ row fixed_row, length (drop 1 row) = l ∧ f row = Ok fixed_row)
            (rows speech_ids) fixed) as Hall.
  { apply Forall2_same_length_lookup. split; [by eapply Forall2_length|].
    intros i row fixed_row Hrow Hfrow. split.
    - rewrite Forall_lookup in Hrows. rewrite length_drop, (Hrows i row Hrow). lia.
    - exact (Forall2_lookup_lr (λ x y, f x = Ok y) _ _ i row fixed_row Hfixed Hrow Hfrow). }
  replace (S l - 1)%nat with l by lia.
  destruct (rows_of_concat b l fixed) as [Hwf' Hrows'].
  { rewrite <- (Forall2_length _ _ _ Hfixed). by apply (length_rows_rank2 speech_ids b (S l)). }
  { apply Forall_forall. intros fixed_row Hin.
    apply list_elem_of_lookup_1 in Hin as [i Hi].
    destruct (Forall2_lookup_r _ _ _ i fixed_row Hall Hi) as (row & Hrow & Hlen & Hf).
    subst f. cbn beta in Hf.
    rewrite (fix_speech_decoder_output_row_length code c1 c2 c3 eos (drop 1 row) fixed_row);
      [done|lia|done]. }
  eexists. split; [done|]. split; [done|]. split; [done|]. by rewrite Hrows'.
Qed.

(** X20.  On a batch of [b] sequences of [l + 1] tokens, with three
    tokens at least behind the first, and four fixing codes,
    [fix_speech_decoder_output] returns the sequences without their first
    token, of shape [(b, l)].  A sequence without a stop token (behind the
    first token) is otherwise untouched.  In a sequence with a stop token,
    everything from the first stop token on becomes the first fixing code,
    and then the last three tokens become the other three codes, also
    where they overwrite tokens in front of the stop token. *)
Theorem fix_speech_decoder_output_rows (code c1 c2 c3 eos : Z) (speech_ids : Tensor Z)
    (b l : nat) :
  shape speech_ids = [b; S l] → wf speech_ids → (3 ≤ l)%nat →
  ∃ fixed,
    ClvpModelForConditionalGeneration_fix_speech_decoder_output [code; c1; c2; c3] eos
      speech_ids = Ok fixed
    ∧ shape fixed = [b; l] ∧ wf fixed
    ∧ ∀ i row, rows speech_ids !! i = Some row →
        (eos ∉ drop 1 row → rows fixed !! i = Some (drop 1 row))
        ∧ (∀ pre post, drop 1 row = pre ++ eos :: post → eos ∉ pre →
             rows fixed !! i
             = Some (take (l - 3) (pre ++ replicate (l - length pre) code) ++ [c1; c2; c3])).
Proof.
  intros Hs Hwf Hl.
  destruct (fix_speech_decoder_output_tensor code c1 c2 c3 eos speech_ids b l Hs Hwf Hl)
    as (fixed & Hfixed & Hs' & Hwf' & Hall).
  exists fixed. split; [done|]. split; [done|]. split; [done|].
  intros i row Hrow.
  destruct (Forall2_lookup_l _ _ _ i row Hall Hrow) as (fixed_row & -> & Hlen & Hf).
  destruct (fix_speech_decoder_output_row_cases code c1 c2 c3 eos (drop 1 row))
    as [Hno Hstop]; [lia|].
  split.
  - intros Hnot. rewrite (Hno Hnot) in Hf. by apply Ok_inj in Hf as <-.
  - intros pre post Heq Hpre. rewrite (Hstop pre post Heq Hpre), Hlen in Hf.
    by apply Ok_inj in Hf as <-.
Qed.

(** X21.  With fixing codes that differ from the stop token, the tokens
    that [fix_speech_decoder_output] returns hold no stop token. *)
Theorem fixed_speech_ids_hold_no_stop_token (code c1 c2 c3 eos : Z)
    (speech_ids : Tensor Z) (b l : nat) :
  shape speech_ids = [b; S l] → wf speech_ids → (3 ≤ l)%nat →
  eos ∉ [code; c1; c2; c3] →
  ∃ fixed,
    ClvpModelForConditionalGeneration_fix_speech_decoder_output [code; c1; c2; c3] eos
      speech_ids = Ok fixed
    ∧ eos ∉ data fixed.
Proof.
  intros Hs Hwf Hl Hcodes.
  destruct (fix_speech_decoder_output_tensor code c1 c2 c3 eos speech_ids b l Hs Hwf Hl)
    as (fixed & Hfixed & Hs' & Hwf' & Hall).
  exists fixed. split; [done|].
  assert (data fixed = concat (rows fixed)) as ->.
  { unfold rows. rewrite concat_chunks; [done|].
    rewrite Hwf', (numel_lead_last (shape fixed)). done. }
  assert (Forall (λ x, x ≠ eos) (concat (rows fixed))) as Hnone.
  { apply Forall_concat, Forall_forall. intros fixed_row Hrow.
    apply list_elem_of_lookup_1 in Hrow as [i Hi].
    destruct (Forall2_lookup_r _ _ _ i fixed_row Hall Hi) as (row & Hrow & Hlen & Hf).
    apply Forall_forall. intros x Hx ->.
    by apply (fix_speech_decoder_output_row_no_stop code c1 c2 c3 eos (drop 1 row) fixed_row);
      [lia|..]. }
  rewrite Forall_forall in Hnone. intros Hin. by apply (Hnone eos Hin).
Qed.

Lemma fix_speech_decoder_output_rows_witness :
  ∃ fixed,
    ClvpModelForConditionalGeneration_fix_speech_decoder_output [83; 45; 45; 248] 9
      Examples.two_speech_sequences = Ok fixed
    ∧ shape fixed = [2; 5]%nat
    ∧ rows fixed !! 0%nat = Some [1; 2; 3; 4; 5]
    ∧ rows fixed !! 1%nat = Some [1; 83; 45; 45; 248].
Proof.
  destruct (fix_speech_decoder_output_rows 83 45 45 248 9 Examples.two_speech_sequences
              2 5 eq_refl eq_refl ltac:(lia))
    as (fixed & Hfixed & Hs & _ & Hrows).
  exists fixed. split; [exact Hfixed|]. split; [exact Hs|]. split.
  - refine (proj1 (Hrows 0%nat [0; 1; 2; 3; 4; 5] eq_refl) _).
    cbn. rewrite !not_elem_of_cons. repeat split; try discriminate. apply not_elem_of_nil.
  - refine (proj2 (Hrows 1%nat [0; 1; 9; 3; 9; 5] eq_refl) [1] [3; 9; 5] eq_refl _).
    rewrite !not_elem_of_cons. split; [discriminate|apply not_elem_of_nil].
Defined.

Lemma fixed_speech_ids_hold_no_stop_token_witness :
  ∃ fixed,
    ClvpModelForConditionalGeneration_fix_speech_decoder_output [83; 45; 45; 248] 9
      Examples.two_speech_sequences = Ok fixed
    ∧ 9 ∉ data fixed.
Proof.
  refine (fixed_speech_ids_hold_no_stop_token 83 45 45 248 9 Examples.two_speech_sequences
            2 5 eq_refl eq_refl ltac:(lia) _).
  rewrite !not_elem_of_cons. repeat split; try discriminate. apply not_elem_of_nil.
Defined.

End FixSpeech.

(** ** The position ids of the encoder and the rotary tables *)

Module EncoderPositions.
Import Ops OpsFacts Clvp QScalar TensorRows.

Lemma chunks_as_seq {X} (n k : nat) (l : list X) :
  chunks n k l = (λ i, take n (drop (i * n) l)) <$> seq 0 k.
Proof.
  revert l. induction k as [|k IH]; intros l; [done|].
  cbn [chunks seq fmap list_fmap]. f_equal. rewrite IH, <- fmap_S_seq, <- list_fmap_compose.
  apply list_fmap_ext. intros i j _. cbn. rewrite drop_drop. done.
Qed.

Section Generic.
Context {A : Type} `{Scalar A}.

(** Looking up the positions [0, ..., l - 1] in a table of [l] rows gives
    the table. *)
Lemma getitem_all_rows (table : Tensor A) (l d : nat) :
  shape table = [l; d] → wf table →
  getitem table (mkTensor [1%nat; l] (Z.of_nat <$> seq 0 l))
  = Ok (mkTensor [1%nat; l; d] (data table)).
Proof.
  intros Hs Hwf. unfold getitem. rewrite Hs. cbn [data shape].
  rewrite (mapM_Ok _ (λ i, take (numel [d]) (drop (Z.to_nat i * numel [d]) (data table)))).
  - cbn [mbind result_bind app]. do 2 f_equal.
    rewrite <- list_fmap_compose.
    transitivity (concat (chunks (numel [d]) l (data table))).
    + f_equal. rewrite chunks_as_seq. apply list_fmap_ext. intros i j _. cbn.
      by rewrite Nat2Z.id.
    + apply concat_chunks. rewrite Hwf, Hs. unfold numel. cbn [foldr]. lia.
  - apply Forall_fmap, Forall_forall. intros i Hi. apply elem_of_seq in Hi. cbn.
    rewrite (norm_index_nonneg l i) by lia. by rewrite Nat2Z.id.
Qed.

(** X22.  Without position ids, [ClvpEncoder.forward] numbers the [l]
    positions of its input [0, ..., l - 1], in a tensor of shape [(1, l)].
    With these position ids, the lookup of [apply_rotary_pos_emb] in the
    cosine and sine tables of a rotary embedding of shape [(1, l, d)]
    finds every row once and in order: each lookup returns the whole
    table, as a tensor of shape [(1, 1, l, d)]. *)
Theorem encoder_default_position_ids_select_table (rotary_pos_emb : Tensor A)
    (input_shape : list nat) (l d : nat) :
  input_shape !! 1%nat = Some l →
  shape rotary_pos_emb = [1%nat; l; d] →
  wf rotary_pos_emb →
  ∃ position_ids,
    ClvpEncoder_position_ids None input_shape = Ok position_ids
    ∧ position_ids = mkTensor [1%nat; l] (Z.of_nat <$> seq 0 l)
    ∧ (squeeze 0 (cos rotary_pos_emb) ≫= λ t, getitem t position_ids ≫= unsqueeze 1)
      = Ok (mkTensor [1%nat; 1%nat; l; d] (scos <$> data rotary_pos_emb))
    ∧ (squeeze 0 (sin rotary_pos_emb) ≫= λ t, getitem t position_ids ≫= unsqueeze 1)
      = Ok (mkTensor [1%nat; 1%nat; l; d] (ssin <$> data rotary_pos_emb)).
Proof.
  intros Hl Hs Hwf. unfold ClvpEncoder_position_ids. rewrite Hl.
  exists (mkTensor [1%nat; l] (Z.of_nat <$> seq 0 l)).
  split; [done|]. split; [done|].
  assert (∀ f : A → A,
            (squeeze 0 (tmap f rotary_pos_emb)
               ≫= λ t, getitem t (mkTensor [1%nat; l] (Z.of_nat <$> seq 0 l)) ≫= unsqueeze 1)
            = Ok (mkTensor [1%nat; 1%nat; l; d] (f <$> data rotary_pos_emb))) as Htable.
  { intros f. unfold squeeze, tmap, ndim. cbn [shape data]. rewrite Hs. cbn [length].
    replace (norm_index 3 0) with (Some 0%nat)
      by (symmetry; apply (norm_index_nonneg 3 0); lia).
    cbn [lookup list_lookup]. rewrite decide_True by done.
    cbn [take drop app mbind result_bind].
    rewrite (getitem_all_rows _ l d); [|done|].
    - cbn [mbind result_bind]. unfold unsqueeze, ndim. cbn [shape length data].
      replace (norm_index 4 1) with (Some 1%nat)
        by (symmetry; apply (norm_index_nonneg 4 1); lia).
      done.
    - unfold wf in *. cbn [shape data]. rewrite length_fmap, Hwf, Hs.
      unfold numel. cbn [foldr]. lia. }
  split; [apply (Htable scos)|apply (Htable ssin)].
Qed.

End Generic.

Lemma encoder_default_position_ids_select_table_witness :
  ∃ position_ids,
    ClvpEncoder_position_ids None [1%nat; 1%nat] = Ok position_ids
    ∧ position_ids = Examples.position_zero
    ∧ (squeeze 0 (cos Examples.unit_angles) ≫= λ t, getitem t position_ids ≫= unsqueeze 1)
      = Ok (mkTensor [1; 1; 1; 2]%nat [3 # 5; 3 # 5]%Q).
Proof.
  destruct (encoder_default_position_ids_select_table
              Examples.unit_angles [1%nat; 1%nat] 1 2 eq_refl eq_refl eq_refl)
    as (position_ids & Hpos & Heq & Hcos & _).
  exists position_ids. split; [exact Hpos|]. split; [exact Heq|]. exact Hcos.
Defined.

End EncoderPositions.

(** ** The gated linear unit *)

Module GatedLinearUnit.
Import Ops OpsFacts Clvp QScalar TensorRows.

Lemma chunks_zip_with {X Y W} (f : X → Y → W) (n k : nat) (a : list X) (b : list Y) :
  chunks n k (zip_with f a b) = zip_with (zip_with f) (chunks n k a) (chunks n k b).
Proof.
  revert a b. induction k as [|k IH]; intros a b; [done|].
  cbn [chunks zip_with]. by rewrite zip_with_take, zip_with_drop, IH.
Qed.

Section Generic.
Context {A : Type} `{Scalar A}.

(** The two halves of an even last dimension. *)
Lemma chunk2_last_even (t : Tensor A) (lead : list nat) (k : nat) :
  shape t = lead ++ [(2 * k)%nat] → (0 < k)%nat → wf t →
  ∃ value gate,
    chunk2_last t = Ok (value, gate)
    ∧ shape value = lead ++ [k] ∧ shape gate = lead ++ [k]
    ∧ wf value ∧ wf gate
    ∧ rows value = take k <$> rows t ∧ rows gate = drop k <$> rows t.
Proof.
  intros Hs Hk Hwf. unfold chunk2_last.
  assert (last_dim (shape t) = (2 * k)%nat) as Hd by (by rewrite Hs, last_dim_snoc).
  assert (((2 * k + 1) / 2)%nat = k) as Hc.
  { symmetry. apply (Nat.div_unique _ 2 k 1); lia. }
  rewrite Hd, Hc. replace (2 * k - k)%nat with k by lia.
  rewrite decide_False by lia.
  assert (Forall (λ r, length (take k r) = k) (rows t)) as Htake.
  { eapply Forall_impl; [by apply rows_uniform|]. cbn. intros r Hr.
    rewrite length_take, Hr, Hd. lia. }
  assert (Forall (λ r, length (drop k r) = k) (rows t)) as Hdrop.
  { eapply Forall_impl; [by apply rows_uniform|]. cbn. intros r Hr.
    rewrite length_drop, Hr, Hd. lia. }
  destruct (shape t) as [|d0 s'] eqn:Hshape; [by destruct lead|].
  exists (map_rows k (take k) t), (map_rows k (drop k) t).
  split; [done|].
  assert (lead_dims (shape t) = lead) as Hlead by (by rewrite Hshape, Hs, lead_dims_snoc).
  split; [by unfold map_rows; cbn [shape]; rewrite Hlead|].
  split; [by unfold map_rows; cbn [shape]; rewrite Hlead|].
  split; [by apply wf_map_rows|]. split; [by apply wf_map_rows|].
  split; by apply rows_map_rows.
Qed.

(** X23.  [ClvpGatedLinearUnit.forward] splits each row of the projected
    states, of even length [2 * k], into its first [k] entries and its
    last [k] entries, applies the activation to the second halves only,
    and returns the entrywise products of the first halves with the
    activated second halves: a tensor whose last dimension is [k].  A
    projection whose last dimension has size one cannot be split and
    raises [ValueError]. *)
Theorem gated_linear_unit_gates_first_half (self : ClvpGatedLinearUnit)
    (hidden_states projected : Tensor A) (lead : list nat) :
  proj self hidden_states = Ok projected →
  wf projected →
  (∀ k, shape projected = lead ++ [(2 * k)%nat] → (0 < k)%nat →
     ∃ value gate,
       rows value = take k <$> rows projected
       ∧ rows gate = drop k <$> rows projected
       ∧ shape gate = lead ++ [k] ∧ wf gate
       ∧ ∀ activated, activation_fn self gate = Ok activated →
           shape activated = shape gate → wf activated →
           ∃ r, ClvpGatedLinearUnit_forward self hidden_states = Ok r
                ∧ shape r = lead ++ [k] ∧ wf r
                ∧ rows r = zip_with (zip_with smul) (rows value) (rows activated))
  ∧ (shape projected = lead ++ [1%nat] →
       ClvpGatedLinearUnit_forward self hidden_states
       = Raise (ValueError "not enough values to unpack (expected 2, got 1)")).
Proof.
  intros Hproj Hwf. unfold ClvpGatedLinearUnit_forward. rewrite Hproj.
  cbn [mbind result_bind]. split.
  - intros k Hs Hk.
    destruct (chunk2_last_even projected lead k Hs Hk Hwf)
      as (value & gate & Hchunk & Hsv & Hsg & Hwv & Hwg & Hrv & Hrg).
    exists value, gate. do 4 (split; [done|]).
    intros activated Hact Hsa Hwa. rewrite Hchunk. cbn [mbind result_bind].
    rewrite Hact. cbn [mbind result_bind]. unfold mul.
    rewrite binop_same_shape; [|congruence|done|done].
    eexists. split; [done|]. cbn [shape]. split; [done|]. split.
    + unfold wf in *. cbn [shape data]. rewrite length_zip_with, Hwv, Hwa, Hsa, Hsg, Hsv. lia.
    + unfold rows. cbn [shape data]. rewrite chunks_zip_with.
      by rewrite Hsa, Hsg, Hsv.
  - intros Hs. unfold chunk2_last. rewrite Hs, last_dim_snoc.
    rewrite decide_True by done. by destruct lead.
Qed.

End Generic.

Lemma gated_linear_unit_gates_first_half_witness :
  ∃ r, ClvpGatedLinearUnit_forward Examples.identity_glu Examples.two_rows_of_four = Ok r
       ∧ shape r = [2; 2]%nat
       ∧ rows r = [[1 * 3; 2 * 4]; [5 * 7; 6 * 8]]%Q.
Proof.
  destruct (gated_linear_unit_gates_first_half Examples.identity_glu
              Examples.two_rows_of_four Examples.two_rows_of_four [2%nat]
              eq_refl eq_refl) as [Heven _].
  destruct (Heven 2%nat eq_refl ltac:(lia)) as (value & gate & Hv & Hg & Hsg & Hwg & Hact).
  destruct (Hact gate eq_refl eq_refl Hwg) as (r & Hr & Hs & _ & Hrows).
  exists r. split; [exact Hr|]. split; [exact Hs|].
  rewrite Hrows, Hv, Hg. reflexivity.
Defined.

End GatedLinearUnit.

(** ** The shapes inside the attention *)

Module AttentionShapes.
Import Ops OpsFacts Clvp QScalar.

Section Generic.
Context {A : Type} `{Scalar A}.

Lemma matmul_shape_rank4 (a x : Tensor A) (b h n m p : nat) :
  shape a = [b; h; n; m] → shape x = [b; h; m; p] →
  ∃ r, matmul a x = Ok r ∧ shape r = [b; h; n; p].
Proof.
  intros Ha Hx. unfold matmul. rewrite Ha, Hx.
  change (reverse [b; h; n; m]) with [m; n; h; b].
  change (reverse [b; h; m; p]) with [p; m; h; b].
  cbv beta iota.
  rewrite decide_True by done. cbn [broadcast_rev mbind result_bind].
  rewrite (decide_True (P := b = b)) by done. cbn [mbind result_bind].
  rewrite (decide_True (P := h = h)) by done. cbn [fmap result_fmap mbind result_bind].
  eexists. split; [done|]. done.
Qed.

Lemma swapaxes_2_3_rank4 (t : Tensor A) (b c d e : nat) :
  shape t = [b; c; d; e] →
  ∃ r, swapaxes 2 3 t = Ok r ∧ shape r = [b; c; e; d].
Proof.
  intros Hs. unfold swapaxes, ndim. rewrite Hs. cbn [length].
  replace (norm_index 4 2) with (Some 2%nat)
    by (symmetry; apply (norm_index_nonneg 4 2); lia).
  replace (norm_index 4 3) with (Some 3%nat)
    by (symmetry; apply (norm_index_nonneg 4 3); lia).
  cbn [swap_list lookup list_lookup list_insert insert].
  eexists. split; done.
Qed.

Lemma size_2_rank4 (t : Tensor A) (b c d e : nat) :
  shape t = [b; c; d; e] → size t 2 = Ok d.
Proof.
  intros Hs. unfold size, ndim. rewrite Hs. cbn [length].
  replace (norm_index 4 2) with (Some 2%nat)
    by (symmetry; apply (norm_index_nonneg 4 2); lia).
  done.
Qed.

Lemma dropout_shape (p : A) (training : bool) (rng : nat → bool) (t : Tensor A) :
  shape (dropout p training rng t) = shape t.
Proof. unfold dropout. by destruct (negb training || seqb p s0). Qed.

(** A mask of shape [(b, 1, n, m)] broadcasts over the heads. *)
Lemma add_mask_shape (w mask : Tensor A) (b h n m : nat) :
  shape w = [b; h; n; m] → shape mask = [b; 1%nat; n; m] →
  ∃ r, add w mask = Ok r ∧ shape r = [b; h; n; m].
Proof.
  intros Hw Hm. unfold add, binop, broadcast_shapes. rewrite Hw, Hm.
  change (reverse [b; h; n; m]) with [m; n; h; b].
  change (reverse [b; 1%nat; n; m]) with [m; n; 1%nat; b].
  cbn [broadcast_rev mbind result_bind].
  rewrite (decide_True (P := b = b)) by done. cbn [mbind result_bind].
  assert ((if decide (h = 1%nat) then Ok [h; b]
           else if decide (h = 1%nat) then Ok [1%nat; b]
                else if decide (1%nat = 1%nat) then Ok [h; b]
                     else Raise (RuntimeError
                       "The size of the tensors must match at every non-singleton dimension"))
          = Ok [h; b]) as ->.
  { destruct (decide (h = 1%nat)); [done|]. by rewrite decide_True. }
  cbn [mbind result_bind].
  rewrite (decide_True (P := n = n)) by done. cbn [mbind result_bind].
  rewrite (decide_True (P := m = m)) by done. cbn [fmap result_fmap mbind result_bind].
  eexists. split; done.
Qed.

(** Merging the heads again. *)
Lemma view_merges_heads (self : ClvpSelfAttention (A := A)) (x : Tensor A) (b t : nat) :
  0 < num_heads self → 0 < head_dim self →
  embed_dim self = head_dim self * num_heads self →
  shape x = [b; t; Z.to_nat (num_heads self); Z.to_nat (head_dim self)] →
  view [Z.of_nat b; Z.of_nat t; embed_dim self] x
  = Ok (mkTensor [b; t; Z.to_nat (embed_dim self)] (data x)).
Proof.
  intros Hh Hd He Hs. unfold view.
  set (h := num_heads self) in *. set (d := head_dim self) in *.
  set (e := embed_dim self) in *.
  rewrite decide_False; last first.
  { rewrite !Exists_cons, Exists_nil. lia. }
  rewrite !filter_cons, !filter_nil.
  rewrite (decide_False (P := Z.of_nat b = -1)) by lia.
  rewrite (decide_False (P := Z.of_nat t = -1)) by lia.
  rewrite (decide_False (P := e = -1)) by lia.
  rewrite (decide_True (P := Z.of_nat b ≠ -1)) by lia.
  rewrite (decide_True (P := Z.of_nat t ≠ -1)) by lia.
  rewrite (decide_True (P := e ≠ -1)) by lia.
  cbn [length foldr].
  rewrite decide_True; last first.
  { rewrite Hs. unfold numel. cbn [foldr]. nia. }
  cbn [fmap list_fmap]. by rewrite !Nat2Z.id.
Qed.

(** X24.  For hidden states of shape [(bsz, tgt_len, _)] whose three
    projections have shape [(bsz, tgt_len, embed_dim)], and without rotary
    embedding, past key values or head mask, [ClvpSelfAttention.forward]
    raises none of its own errors: the size check on [attn_output] always
    passes, also when an attention mask of shape
    [(bsz, 1, tgt_len, tgt_len)] is added.  The keys and values have shape
    [(bsz, num_heads, tgt_len, head_dim)], the attention weights have
    shape [(bsz, num_heads, tgt_len, tgt_len)], and the tensor handed to
    [out_proj] has shape [(bsz, tgt_len, embed_dim)]; the method then
    returns what [out_proj] returns. *)
Theorem attention_forward_shapes (self : ClvpSelfAttention (A := A)) (rng : nat → bool)
    (hidden_states query key value : Tensor A) (attention_mask : option (Tensor A))
    (use_cache output_attentions : bool) (bsz tgt_len width : nat) :
  0 < num_heads self → 0 < head_dim self →
  embed_dim self = head_dim self * num_heads self →
  (0 < bsz)%nat →
  shape hidden_states = [bsz; tgt_len; width] →
  q_proj self hidden_states = Ok query →
  k_proj self hidden_states = Ok key →
  v_proj self hidden_states = Ok value →
  Forall (λ t, shape t = [bsz; tgt_len; Z.to_nat (embed_dim self)] ∧ wf t) [query; key; value] →
  (∀ mask, attention_mask = Some mask → shape mask = [bsz; 1%nat; tgt_len; tgt_len]) →
  ∃ key_states value_states attn_weights attn_output,
    Forall (λ t, shape t = [bsz; Z.to_nat (num_heads self); tgt_len; Z.to_nat (head_dim self)])
      [key_states; value_states]
    ∧ shape attn_weights = [bsz; Z.to_nat (num_heads self); tgt_len; tgt_len]
    ∧ shape attn_output = [bsz; tgt_len; Z.to_nat (embed_dim self)]
    ∧ ClvpSelfAttention_forward self rng hidden_states None attention_mask None None
        use_cache None output_attentions
      = (out ← out_proj self attn_output;
         Ok (out,
             if use_cache then Some (key_states, value_states) else None,
             if output_attentions then Some attn_weights else None)).
Proof.
  intros Hh Hd He Hb Hs Hq Hk Hv Hproj Hmask.
  apply Forall_cons in Hproj as [[Hsq Hwq] Hproj].
  apply Forall_cons in Hproj as [[Hsk Hwk] Hproj].
  apply Forall_cons in Hproj as [[Hsv Hwv] _].
  rewrite He in Hsq, Hsk, Hsv.
  destruct (AttentionOutputs.shape_splits_heads self query bsz tgt_len Hh Hd Hb Hsq Hwq)
    as (q4 & Hq4 & Hsq4 & _).
  destruct (AttentionOutputs.shape_splits_heads self key bsz tgt_len Hh Hd Hb Hsk Hwk)
    as (k4 & Hk4 & Hsk4 & _).
  destruct (AttentionOutputs.shape_splits_heads self value bsz tgt_len Hh Hd Hb Hsv Hwv)
    as (v4 & Hv4 & Hsv4 & _).
  set (h := Z.to_nat (num_heads self)) in *. set (d := Z.to_nat (head_dim self)) in *.
  destruct (swapaxes_2_3_rank4 k4 bsz h tgt_len d Hsk4) as (kt & Hkt & Hskt).
  destruct (matmul_shape_rank4 (mul_scalar (scale self) q4) kt bsz h tgt_len d tgt_len
              Hsq4 Hskt) as (raw & Hraw & Hsraw).
  assert (∃ masked, apply_attention_mask
                      {| st_bsz := bsz; st_query := mul_scalar (scale self) q4;
                         st_key := k4; st_value := v4;
                         st_present := if use_cache then Some (k4, v4) else None;
                         st_tgt_len := tgt_len; st_src_len := tgt_len;
                         st_attn_weights := raw |} attention_mask = Ok masked
                    ∧ shape masked = [bsz; h; tgt_len; tgt_len]) as (masked & Hmasked & Hsm).
  { unfold apply_attention_mask. cbn [st_bsz st_tgt_len st_src_len st_attn_weights].
    destruct attention_mask as [mask|]; [|by exists raw].
    rewrite decide_False by (intros Hne; apply Hne; by apply Hmask).
    apply (add_mask_shape raw mask bsz h tgt_len tgt_len Hsraw). by apply Hmask. }
  set (weights := softmax_last masked).
  destruct (matmul_shape_rank4 (dropout (dropout_p self) (training self) rng weights) v4
              bsz h tgt_len tgt_len d) as (o4 & Ho4 & Hso4); [by rewrite dropout_shape|done|].
  destruct (AttentionOutputs.swapaxes_1_2_rank4 o4 bsz h tgt_len d Hso4)
    as (o4' & Ho4' & Hso4' & _).
  exists k4, v4, weights, (mkTensor [bsz; tgt_len; Z.to_nat (embed_dim self)] (data o4')).
  split; [by repeat constructor|]. split; [done|]. split; [done|].
  unfold ClvpSelfAttention_forward, attention_states.
  rewrite decide_False by (intros [[? [=]] _]).
  rewrite Hs. cbn [unpack3 mbind result_bind].
  rewrite Hq. cbn [mbind result_bind]. rewrite Hq4. cbn [mbind result_bind].
  rewrite Hk. cbn [mbind result_bind]. rewrite Hk4. cbn [mbind result_bind].
  rewrite Hv. cbn [mbind result_bind]. rewrite Hv4. cbn [mbind result_bind].
  rewrite (size_2_rank4 _ bsz h tgt_len d) by done. cbn [mbind result_bind].
  rewrite (size_2_rank4 _ bsz h tgt_len d) by done. cbn [mbind result_bind].
  rewrite Hkt. cbn [mbind result_bind]. rewrite Hraw. cbn [mbind result_bind].
  rewrite Hmasked. cbn [mbind result_bind]. fold weights.
  unfold attention_output. cbn [mbind result_bind st_value st_bsz st_tgt_len st_present].
  rewrite Ho4. cbn [mbind result_bind].
  rewrite decide_False; last first.
  { intros Hne. apply Hne. rewrite Hso4. subst h d. cbn [fmap list_fmap].
    by rewrite !Z2Nat.id by lia. }
  rewrite Ho4'. cbn [mbind result_bind].
  by rewrite (view_merges_heads self o4' bsz tgt_len Hh Hd He Hso4').
Qed.

End Generic.

Lemma attention_forward_shapes_witness :
  ∃ key_states value_states attn_weights attn_output,
    shape attn_weights = [1; 1; 2; 2]%nat
    ∧ shape attn_output = [1; 2; 2]%nat
    ∧ ClvpSelfAttention_forward Examples.small_attention (λ _, true) Examples.two_tokens
        None (Some Examples.causal_mask) None None true None true
      = Ok (attn_output, Some (key_states, value_states), Some attn_weights).
Proof.
  destruct (attention_forward_shapes Examples.small_attention (λ _, true)
              Examples.two_tokens Examples.two_tokens Examples.two_tokens Examples.two_tokens
              (Some Examples.causal_mask) true true 1 2 2)
    as (key_states & value_states & attn_weights & attn_output & _ & Hw & Ho & Hforward);
    try reflexivity; try lia.
  - repeat constructor.
  - intros mask [= <-]. reflexivity.
  - exists key_states, value_states, attn_weights, attn_output.
    split; [exact Hw|]. split; [exact Ho|]. exact Hforward.
Defined.

End AttentionShapes.

(** ** The text embeddings of the conditioning encoder *)

Module ConditioningEmbeds.
Import Ops OpsFacts Clvp QScalar TensorRows PadTokens ConditioningText.

Lemma chunks_Forall {X} (P : X → Prop) (n k : nat) (l : list X) :
  Forall P l → Forall (Forall P) (chunks n k l).
Proof.
  revert l. induction k as [|k IH]; intros l Hl; [done|]. cbn [chunks].
  apply Forall_cons. split; [by apply Forall_take|]. by apply IH, Forall_drop.
Qed.

Lemma embedding_Ok {A} (table : Tensor A) (ids : Tensor Z) (n dim : nat) :
  shape table = [n; dim] → Forall (λ i, 0 ≤ i < Z.of_nat n) (data ids) →
  ∃ r, embedding table ids = Ok r ∧ shape r = shape ids ++ [dim].
Proof.
  intros Hs Hids. unfold embedding. rewrite Hs.
  rewrite (mapM_Ok _ (λ i, take dim (drop (Z.to_nat i * dim) (data table)))).
  - by eexists.
  - eapply Forall_impl; [exact Hids|]. intros i Hi. cbn in Hi. cbn. by rewrite decide_True.
Qed.

Section Generic.
Context {A : Type} `{Scalar A}.

Lemma add_shape_same (a b : Tensor A) :
  shape a = shape b → ∃ r, add a b = Ok r ∧ shape r = shape a.
Proof.
  intros Hs. unfold add, binop. rewrite <- Hs, broadcast_shapes_same.
  cbn [mbind result_bind]. by eexists.
Qed.

(** X25.  For a batch of [b] texts of [n] tokens and no attention mask,
    the text part of [ClvpConditioningEncoder.forward] embeds [n + 2]
    tokens and the positions [0, ..., n + 1] of every text.  When the bos
    and eos tokens and the token ids are rows of the token embedding and
    the position embedding has at least [n + 2] rows, every lookup finds
    its row and the text embeddings have shape [(b, n + 2, dim)]. *)
Theorem conditioning_text_embeds_shape (text_token_embedding text_position_embedding : Tensor A)
    (bos_token_id eos_token_id : Z) (b n vocab positions dim : nat) (input_ids : Tensor Z) :
  shape input_ids = [b; n] → wf input_ids →
  shape text_token_embedding = [vocab; dim] →
  shape text_position_embedding = [positions; dim] →
  Forall (λ i, 0 ≤ i < Z.of_nat vocab) (bos_token_id :: eos_token_id :: data input_ids) →
  (n + 2 ≤ positions)%nat →
  ∃ text_embeds,
    ClvpConditioningEncoder_text_embeds text_token_embedding text_position_embedding
      bos_token_id eos_token_id b n input_ids None = Ok text_embeds
    ∧ shape text_embeds = [b; (n + 2)%nat; dim].
Proof.
  intros Hs Hwf Htok Hpos Hrange Hfit.
  apply Forall_cons in Hrange as [Hbos Hrange]. apply Forall_cons in Hrange as [Heos Hrange].
  unfold ClvpConditioningEncoder_text_embeds, ClvpConditioningEncoder_text_inputs.
  cbn [default].
  destruct (ones_rank2 b n) as (Hso & Hwfo & Hones).
  destruct (pad_extra_bos_eos_tokens_rows input_ids (Some (ones [b; n])) 0 bos_token_id
              eos_token_id true true b n Hs Hwf)
    as (ids' & mask' & Hpad & Hs' & Hwf' & Hrows & m' & -> & Hsm' & Hwfm' & Hrm).
  { by intros ? [= <-]. }
  cbn [Nat.b2n] in Hs', Hsm', Hrm. rewrite Hpad. cbn [mbind result_bind].
  (* the token ids stay inside the token embedding *)
  assert (Forall (λ i, 0 ≤ i < Z.of_nat vocab) (data ids')) as Hids'.
  { rewrite <- (concat_chunks (last_dim (shape ids')) (numel (lead_dims (shape ids')))
                  (data ids')); last first.
    { rewrite Hwf', (numel_lead_last (shape ids')). lia. }
    apply Forall_concat. fold (rows ids'). rewrite Hrows. apply Forall_fmap.
    eapply Forall_impl; [apply (chunks_Forall _ _ _ _ Hrange)|].
    intros row Hrow. unfold compose. cbv beta zeta.
    assert (Forall (λ i, 0 ≤ i < Z.of_nat vocab) (bos_token_id :: row)) as Hrow'
      by (by apply Forall_cons).
    destruct (decide (0 ∈ bos_token_id :: row)).
    - apply Forall_app. split; [by apply Forall_take|].
      apply Forall_app. split; [by apply Forall_singleton|by apply Forall_drop].
    - apply Forall_app. split; [done|by apply Forall_singleton]. }
  destruct (embedding_Ok text_token_embedding ids' vocab dim Htok Hids')
    as (inputs_embeds & Hemb & Hse).
  rewrite Hemb. cbn [mbind result_bind].
  (* the position ids are 0 to n + 1 in every text *)
  destruct (position_ids_rows m' b (n + 2) Hsm' Hwfm') as [Hsp Hdp].
  assert (data (sub_int 1 (cumsum_last m'))
          = concat (replicate b (Z.of_nat <$> seq 0 (n + 2)))) as Hdata.
  { rewrite Hdp, Hrm, Hones, <- list_fmap_compose, fmap_replicate. do 2 f_equal.
    unfold compose. cbv beta.
    change (replicate (1 + 1) 1 ++ replicate n 1) with (replicate (S (S n)) 1).
    rewrite running_sums_ones, <- list_fmap_compose.
    replace (n + 2)%nat with (S (S n)) by lia.
    apply list_fmap_ext. intros i j _. cbn. lia. }
  destruct (embedding_Ok text_position_embedding (sub_int 1 (cumsum_last m')) positions dim
              Hpos) as (position_embeds & Hpemb & Hspe).
  { rewrite Hdata. apply Forall_concat, Forall_replicate, Forall_fmap, Forall_forall.
    intros i Hi. apply elem_of_seq in Hi. cbn. lia. }
  rewrite Hpemb. cbn [mbind result_bind].
  destruct (add_shape_same inputs_embeds position_embeds) as (r & Hr & Hsr).
  { by rewrite Hse, Hspe, Hs', Hsp. }
  exists r. split; [done|]. by rewrite Hsr, Hse, Hs'.
Qed.

End Generic.

Lemma conditioning_text_embeds_shape_witness :
  ∃ text_embeds,
    ClvpConditioningEncoder_text_embeds Examples.token_table Examples.four_positions
      0 2 1 2 Examples.one_text None = Ok text_embeds
    ∧ shape text_embeds = [1; 4; 1]%nat.
Proof.
  refine (conditioning_text_embeds_shape Examples.token_table Examples.four_positions
            0 2 1 2 3 4 1 Examples.one_text eq_refl eq_refl eq_refl eq_refl _ _); [|lia].
  repeat constructor; cbn; lia.
Defined.

End ConditioningEmbeds.

(** ** The tuple of an encoder layer *)

Module EncoderLayer.
Import Ops OpsFacts Clvp QScalar.

Section Generic.
Context {A : Type} `{Scalar A}.

(** X26.  The tuple that [ClvpEncoderLayer.forward] returns holds the
    hidden states alone, or with [output_attentions] the hidden states and
    the attention weights, which are then a tensor and not [None]: the
    entry [1] that the loop of [ClvpEncoder.forward] reads with
    [output_attentions] is there. *)
Theorem encoder_layer_tuple (self : ClvpEncoderLayer (A := A)) (rng_attn rng_mlp : nat → bool)
    (hidden_states : Tensor A) (rotary_pos_emb attention_mask : option (Tensor A))
    (position_ids : option (Tensor Z)) (output_attentions : bool)
    (outputs : list tuple_item) :
  ClvpEncoderLayer_forward self rng_attn rng_mlp hidden_states rotary_pos_emb attention_mask
    position_ids output_attentions = Ok outputs →
  ∃ hidden,
    if output_attentions
    then ∃ weights, outputs = [TensorItem hidden; TensorItem weights]
                    ∧ tuple_get outputs 1 = Ok (TensorItem weights)
    else outputs = [TensorItem hidden].
Proof.
  unfold ClvpEncoderLayer_forward. intros Hlayer.
  apply bind_Ok in Hlayer as (normed & _ & Hlayer).
  apply bind_Ok in Hlayer as ([[attn_output present] weights] & Hattn & Hlayer).
  apply bind_Ok in Hlayer as (h1 & _ & Hlayer).
  apply bind_Ok in Hlayer as (h2 & _ & Hlayer).
  apply bind_Ok in Hlayer as (ff & _ & Hlayer).
  apply bind_Ok in Hlayer as (hidden & _ & Hlayer).
  apply Ok_inj in Hlayer. subst outputs.
  unfold ClvpSelfAttention_forward in Hattn.
  apply bind_Ok in Hattn as (st & _ & Hattn).
  apply bind_Ok in Hattn as (attn_weights & _ & Hattn).
  apply AttentionOutputs.attention_output_Ok in Hattn as [_ Hweights].
  exists hidden. destruct output_attentions; [|done].
  destruct (proj1 Hweights eq_refl) as [w ->]. by exists w.
Qed.

End Generic.

Lemma encoder_layer_tuple_witness :
  ∃ outputs hidden weights,
    ClvpEncoderLayer_forward Examples.small_encoder_layer (λ _, true) (λ _, true)
      Examples.two_tokens None None None true = Ok outputs
    ∧ outputs = [TensorItem hidden; TensorItem weights].
Proof.
  destruct (ClvpEncoderLayer_forward Examples.small_encoder_layer (λ _, true) (λ _, true)
              Examples.two_tokens None None None true)
    as [outputs|e] eqn:Hlayer; [|vm_compute in Hlayer; discriminate Hlayer].
  destruct (encoder_layer_tuple Examples.small_encoder_layer (λ _, true) (λ _, true)
              Examples.two_tokens None None None true outputs Hlayer)
    as (hidden & weights & Houtputs & _).
  exists outputs, hidden, weights. split; [reflexivity|exact Houtputs].
Defined.

End EncoderLayer.

(** ** The inputs of a generation step *)

Module GenerationInputs.
Import Ops OpsFacts Clvp QScalar TensorRows.

Lemma slice_dim1_from_rank2 {X} (a : Z) (t : Tensor X) (b n : nat) :
  shape t = [b; n] → wf t →
  ∃ r, slice_dim1_from a t = Ok r
       ∧ shape r = [b; (n - clip_start n a)%nat] ∧ wf r
       ∧ rows r = drop (clip_start n a) <$> rows t.
Proof.
  intros Hs Hwf. unfold slice_dim1_from. rewrite Hs.
  change (numel []) with 1%nat. rewrite !Nat.mul_1_r, <- (rows_rank2 t b n Hs).
  eexists. split; [done|]. split; [done|].
  apply rows_of_concat; [by rewrite length_fmap, (length_rows_rank2 t b n)|].
  apply Forall_fmap.
  eapply Forall_impl; [by apply (rows_uniform_rank2 t b n)|].
  intros r Hr. cbn. rewrite length_drop. by rewrite Hr.
Qed.

Lemma clip_start_bound (n : nat) (a : Z) : (clip_start n a ≤ n)%nat.
Proof. unfold clip_start. destruct (decide _); lia. Qed.

Section Generic.
Context {A : Type}.

(** X27.  With a cache that is not empty and holds [p] positions,
    [prepare_inputs_for_generation] keeps of [n] token ids per sequence
    (at least one) those that the cache does not hold: the last [n - p]
    when the input is longer than the cache, and otherwise the last one
    only.  The token type ids, when given, are cut to the same last
    positions.  At least one token is always left. *)
Theorem generation_keeps_uncached_tokens (input_ids : Tensor Z) (key value : Tensor A)
    (later_layers : list (Tensor A * Tensor A)) (token_type_ids : option (Tensor Z))
    (b n p : nat) :
  shape input_ids = [b; n] → wf input_ids → (0 < n)%nat →
  size key 2 = Ok p →
  (∀ t, token_type_ids = Some t → shape t = [b; n] ∧ wf t) →
  let kept := if decide (p < n)%nat then (n - p)%nat else 1%nat in
  ∃ ids' types',
    generation_trim_inputs input_ids (Some ((key, value) :: later_layers)) token_type_ids
    = Ok (ids', types')
    ∧ (0 < kept)%nat
    ∧ shape ids' = [b; kept]
    ∧ rows ids' = drop (n - kept) <$> rows input_ids
    ∧ match token_type_ids with
      | None => types' = None
      | Some t => ∃ t', types' = Some t' ∧ shape t' = [b; kept]
                        ∧ rows t' = drop (n - kept) <$> rows t
      end.
Proof.
  intros Hs Hwf Hn Hp Htypes kept. unfold generation_trim_inputs.
  rewrite Hp. cbn [mbind result_bind].
  rewrite (proj1 (proj2 (size_rank2 input_ids b n Hs))). cbn [mbind result_bind].
  set (remove_prefix_length := if decide (p < n)%nat then Z.of_nat p else Z.of_nat n - 1).
  assert (clip_start n remove_prefix_length = (n - kept)%nat) as Hstart.
  { subst remove_prefix_length kept. unfold clip_start.
    destruct (decide (p < n)%nat); rewrite decide_False by lia; lia. }
  assert (0 < kept ≤ n)%nat as Hkept by (subst kept; destruct (decide (p < n)%nat); lia).
  destruct (slice_dim1_from_rank2 remove_prefix_length input_ids b n Hs Hwf)
    as (ids' & Hids & Hs' & Hwf' & Hrows).
  rewrite Hstart in Hs', Hrows. replace (n - (n - kept))%nat with kept in Hs' by lia.
  rewrite Hids. cbn [mbind result_bind].
  destruct token_type_ids as [t|].
  - destruct (Htypes t eq_refl) as [Hst Hwft].
    rewrite (proj1 (proj2 (size_rank2 ids' b kept Hs'))). cbn [mbind result_bind].
    destruct (slice_dim1_from_rank2 (- Z.of_nat kept) t b n Hst Hwft)
      as (t' & Ht' & Hst' & _ & Hrt').
    assert (clip_start n (- Z.of_nat kept) = (n - kept)%nat) as Hstart'.
    { unfold clip_start. rewrite decide_True by lia. lia. }
    rewrite Hstart' in Hst', Hrt'. replace (n - (n - kept))%nat with kept in Hst' by lia.
    rewrite Ht'. cbn [fmap result_fmap mbind result_bind].
    exists ids', (Some t'). split; [done|]. split; [lia|]. split; [done|]. split; [done|].
    by exists t'.
  - cbn [mbind result_bind]. exists ids', None. split; [done|]. split; [lia|]. done.
Qed.

(** X28.  The dict that [prepare_inputs_for_generation] returns holds the
    cache and [use_cache] as they were passed.  It holds
    ["inputs_embeds"] exactly when they are given and [past_key_values] is
    [None] (an empty cache is enough to ignore them), and ["input_ids"]
    otherwise.  With conditioning embeddings and a cache that is not
    [None] the position ids are the single number of tokens that
    [input_ids] had on entry; otherwise position ids that the caller
    passed are dropped, and without an attention mask there are none.
    Without a cache, or with an empty one, the token ids and the token
    type ids are passed on as they are. *)
Theorem generation_model_inputs (after_masked_fill : Tensor Z → Tensor Z → Tensor Z)
    (input_ids : Tensor Z) (past_key_values : option (list (Tensor A * Tensor A)))
    (inputs_embeds conditioning_embeds : option (Tensor A))
    (token_type_ids attention_mask position_ids : option (Tensor Z))
    (use_cache : option bool) (model_inputs : ModelInputs) :
  ClvpForCausalLM_prepare_inputs_for_generation after_masked_fill input_ids past_key_values
    inputs_embeds conditioning_embeds token_type_ids attention_mask position_ids use_cache
  = Ok model_inputs →
  mi_past_key_values model_inputs = past_key_values
  ∧ mi_use_cache model_inputs = use_cache
  ∧ (∀ e, mi_inputs model_inputs = inl e ↔ inputs_embeds = Some e ∧ past_key_values = None)
  ∧ (is_Some conditioning_embeds → is_Some past_key_values →
       ∃ n, last (shape input_ids) = Some n
            ∧ mi_position_ids model_inputs = Some (mkTensor [1%nat] [Z.of_nat n]))
  ∧ (conditioning_embeds = None ∨ past_key_values = None →
       attention_mask = None ∨ is_Some position_ids →
       mi_position_ids model_inputs = None)
  ∧ (truthy_cache past_key_values = false →
       (inputs_embeds = None ∨ is_Some past_key_values →
          mi_inputs model_inputs = inr input_ids)
       ∧ mi_token_type_ids model_inputs = token_type_ids).
Proof.
  unfold ClvpForCausalLM_prepare_inputs_for_generation. intros Hprepare.
  apply bind_Ok in Hprepare as (n & Hn & Hprepare).
  apply bind_Ok in Hprepare as ([ids' types'] & Htrim & Hprepare).
  apply bind_Ok in Hprepare as (positions & Hpositions & Hprepare).
  apply Ok_inj in Hprepare. subst model_inputs.
  cbn [mi_past_key_values mi_use_cache mi_inputs mi_position_ids mi_token_type_ids].
  split; [done|]. split; [done|]. split; [|split; [|split]].
  - intros e. destruct inputs_embeds as [e'|], past_key_values as [past|]; split;
      try (by intros [= <-]); try (by intros [[=] ?]); try (by intros [? [=]]); try done.
    by intros [[= <-] _].
  - intros [c ->] [past ->]. exists n. split; [|done].
    unfold tuple_last in Hn. by destruct (last (shape input_ids)); [injection Hn as ->|].
  - intros Hnone Hmask.
    assert (positions = None) as ->.
    { unfold generation_position_ids in Hpositions.
      destruct attention_mask as [m|], position_ids as [q|];
        try (by apply Ok_inj in Hpositions).
      destruct Hmask as [[=]|[? [=]]]. }
    destruct Hnone as [-> | ->]; [done|]. by destruct conditioning_embeds.
  - intros Hcache.
    assert (ids' = input_ids ∧ types' = token_type_ids) as [-> ->].
    { unfold generation_trim_inputs in Htrim.
      destruct past_key_values as [[|[key value] later]|]; try done;
        apply Ok_inj in Htrim; by injection Htrim as <- <-. }
    split; [|done].
    intros [-> | [past ->]]; [done|]. by destruct inputs_embeds.
Qed.

End Generic.

Lemma generation_keeps_uncached_tokens_witness :
  ∃ ids' types',
    generation_trim_inputs Examples.five_tokens
      (Some [(Examples.three_cached_positions, Examples.three_cached_positions)])
      (Some Examples.five_tokens) = Ok (ids', types')
    ∧ shape ids' = [1; 2]%nat
    ∧ rows ids' = [[14; 15]].
Proof.
  destruct (generation_keeps_uncached_tokens Examples.five_tokens
              Examples.three_cached_positions Examples.three_cached_positions []
              (Some Examples.five_tokens) 1 5 3 eq_refl eq_refl ltac:(lia) eq_refl)
    as (ids' & types' & Htrim & _ & Hs & Hrows & _).
  { intros t [= <-]. split; reflexivity. }
  exists ids', types'. split; [exact Htrim|]. split; [exact Hs|]. exact Hrows.
Defined.

Lemma generation_model_inputs_witness :
  ∃ model_inputs,
    ClvpForCausalLM_prepare_inputs_for_generation (λ position_ids _, position_ids)
      Examples.five_tokens (Some []) (Some Examples.two_tokens) (Some Examples.two_tokens)
      None None (Some Examples.position_zero) (Some true) = Ok model_inputs
    ∧ mi_inputs model_inputs = inr Examples.five_tokens
    ∧ mi_position_ids model_inputs = Some (mkTensor [1%nat] [5]).
Proof.
  eexists. split; [reflexivity|].
  pose proof (generation_model_inputs (λ position_ids _, position_ids)
                Examples.five_tokens (Some []) (Some Examples.two_tokens)
                (Some Examples.two_tokens) None None (Some Examples.position_zero)
                (Some true) _ eq_refl) as (_ & _ & _ & Hpositions & _ & Hcache).
  split.
  - apply (proj1 (Hcache eq_refl)). right. by eexists.
  - destruct Hpositions as (n & Hn & Hp); [by eexists..|].
    injection Hn as <-. exact Hp.
Defined.

End GenerationInputs.
